(** * eventsourcing.system.ray: the Ray runner and the RayProcess actor

    A shallow embedding of [src/eventsourcing/system/ray.py].

    - Exceptions, bounded queues and the collaborators the module imports.
    - [RayProcess]: the actor's fields, its methods, and its three daemon
      threads ([process_notifications], [process_events], [push_prompts]) as
      program counters with one step function per thread; an execution is a
      list of labels naming which thread (or which external caller) moves.
    - [RayRunner.start]: the commands the runner issues against the actor
      substrate, and the substrate's asynchronous execution of them. *)

From stdpp Require Import gmap strings list sorting.

Set Default Proof Using "Type".
Local Open Scope nat_scope.

(** ** Exceptions *)

(** The exception classes the module raises or catches, with their message
    where the source gives one. *)
Inductive exception : Type :=
  | ProgrammingError (msg : string)
  | OperationalError (msg : string)
  | RecordConflictError (msg : string)
  | AttributeError (msg : string)
  | KeyError (key : string)
  | IndexError (msg : string)
  | AssertionError (msg : string)
  | CausalDependencyFailed (msg : string)
  | TypeError (msg : string)
  | Exception_ (msg : string).

(** [type(e).__name__] *)
Definition class_name (e : exception) : string :=
  match e with
  | ProgrammingError _ => "ProgrammingError"
  | OperationalError _ => "OperationalError"
  | RecordConflictError _ => "RecordConflictError"
  | AttributeError _ => "AttributeError"
  | KeyError _ => "KeyError"
  | IndexError _ => "IndexError"
  | AssertionError _ => "AssertionError"
  | CausalDependencyFailed _ => "CausalDependencyFailed"
  | TypeError _ => "TypeError"
  | Exception_ _ => "Exception"
  end.

(** [isinstance(e, OperationalError)], the class both [retry] decorators of
    lines 220 and 224 name. *)
Definition is_OperationalError (e : exception) : bool :=
  match e with OperationalError _ => true | _ => false end.

(** A call either returns a value or raises. *)
Inductive outcome (A : Type) : Type :=
  | Return (v : A)
  | Raise (e : exception).
Arguments Return {A} v.
Arguments Raise {A} e.

Definition raises {A} (o : outcome A) : option exception :=
  match o with Raise e => Some e | Return _ => None end.

(** ** queue.Queue(maxsize=100) *)

Definition maxsize : nat := 100.

Definition full {A} (q : list A) : bool := bool_decide (maxsize ≤ length q).

(** [Queue.put(x)]: [None] when the queue is full, where the caller blocks
    until a consumer makes room. *)
Definition put {A} (x : A) (q : list A) : option (list A) :=
  if full q then None else Some (q ++ [x]).

(** [Queue.get(timeout=...)]: [None] when the queue is empty, where the
    caller gets [Empty] at the timeout. *)
Definition get {A} (q : list A) : option (A * list A) :=
  match q with
  | [] => None
  | x :: q' => Some (x, q')
  end.

(** ** Notifications, events and prompts *)

(** A notification is a dict; the module reads its ["id"] and
    ["causal_dependencies"] keys and hands the whole dict to
    [get_event_from_notification]. *)
Record Notification : Type := {
  notification_id : nat;
  causal_dependencies : option (list (string * nat));
  payload : string;
}.

Inductive DomainEvent : Type := EventOf (payload : string).

(** Modelled from the spec: [ProcessApplication.get_event_from_notification]
    is imported from eventsourcing.application.process; the spec only says it
    decodes a notification to a domain event. *)
Definition get_event_from_notification (n : Notification) : DomainEvent :=
  EventOf (payload n).

(** The objects that travel on the push-prompt queue: [RayPrompt(name,
    pipeline_id)] built at line 320, and whatever prompt the application
    publishes locally. *)
Inductive Prompt : Type :=
  | RayPrompt (process_name : string) (pipeline_id : nat)
  | PublishedPrompt (process_name : string) (pipeline_id : nat).

(** ** The wrapped process application *)

(** Modelled from the spec: [ProcessApplication] is imported from
    eventsourcing.application.process. Of its state the module touches the
    readers (one per followed upstream, each with a position in that
    upstream's log) and, through [check_causal_dependencies],
    [process_upstream_event] and [set_reader_position_from_tracking_records],
    the tracking records: one (upstream name, notification id) per applied
    notification, here in the order of application. *)
Record ProcessApplication : Type := {
  name : string;
  pipeline_id : nat;
  readers : gmap string nat;
  tracking : list (string * nat);
}.

Definition set_readers (r : gmap string nat) (p : ProcessApplication) :=
  {| name := name p; pipeline_id := pipeline_id p;
     readers := r; tracking := tracking p |}.

Definition set_tracking (t : list (string * nat)) (p : ProcessApplication) :=
  {| name := name p; pipeline_id := pipeline_id p;
     readers := readers p; tracking := t |}.

(** Instances of [ProcessApplication] define neither [__bool__] nor
    [__len__]: [if self.process:] at line 227 takes the first branch for
    every instance. *)
Definition truth_value (p : ProcessApplication) : bool := true.

(** Ids of the notifications of [upstream_name] that have been applied, in
    the order of application. *)
Definition applied_ids (upstream_name : string) (t : list (string * nat)) : list nat :=
  (filter (λ r, r.1 = upstream_name) t).*2.

(** Modelled from the spec: the tracking position of an upstream is the last
    applied notification id ("per (process, upstream) last-applied
    notification id"), 0 when none was applied. *)
Definition recorded_position (upstream_name : string) (t : list (string * nat)) : nat :=
  foldr max 0 (applied_ids upstream_name t).

(** Modelled from the spec: [set_reader_position_from_tracking_records]
    "re-derives [the] upstream's resume point from its last durable tracking
    position". *)
Definition set_reader_position_from_tracking_records
    (upstream_name : string) (p : ProcessApplication) : ProcessApplication :=
  set_readers (<[upstream_name := recorded_position upstream_name (tracking p)]> (readers p)) p.

(** Modelled from the spec: [check_causal_dependencies] "verifies a
    notification's declared predecessors are already applied locally";
    [false] is where the library raises. *)
Definition check_causal_dependencies
    (p : ProcessApplication) (upstream_name : string)
    (deps : option (list (string * nat))) : bool :=
  match deps with
  | None => true
  | Some ds => forallb (λ d, bool_decide (d ∈ tracking p)) ds
  end.

(** Modelled from the spec: [follow] "registers [an] upstream view with the
    process at its last persisted tracking position". *)
Definition follow (upstream_name : string) (p : ProcessApplication) : ProcessApplication :=
  set_reader_position_from_tracking_records upstream_name p.

(** Modelled from the spec: a reader's [read()] is the "paginated
    read-after-id" of the upstream's notification log: the notifications
    whose id is above the reader's position, in log order. *)
Definition read (log : list Notification) (position : nat) : list Notification :=
  filter (λ n, position < notification_id n) log.

(** The reader's position after [read()]: the id of the last notification it
    returned. *)
Definition position_after (notifications : list Notification) (position : nat) : nat :=
  foldl (λ _ n, notification_id n) position notifications.

(** Modelled from the spec: a successful [process_upstream_event] advances
    the tracking position ("advanced on successful apply"): it records
    (upstream name, notification id). *)
Definition record_tracking (upstream_name : string) (notification_id : nat)
    (p : ProcessApplication) : ProcessApplication :=
  set_tracking (tracking p ++ [(upstream_name, notification_id)]) p.

(** ** The actor *)

(** The class objects handed to the actor: the result of
    [isinstance(process_class, ApplicationWithConcreteInfrastructure)] and of
    [issubclass(infrastructure_class, ApplicationWithConcreteInfrastructure)]
    are attributes of the class, decided outside this module. *)
Record ProcessClass : Type := {
  application_name : string;
  isinstance_concrete : bool;
}.

Record InfrastructureClass : Type := {
  issubclass_concrete : bool;
}.

(** The arguments of [RayProcess.__init__], and the tracking records found in
    the database the process application is constructed on. *)
Record Args : Type := {
  application_process_class : ProcessClass;
  infrastructure_class : option InfrastructureClass;
  arg_pipeline_id : nat;
  stored_tracking : list (string * nat);
}.

(** Who holds [event_reading_lock]. *)
Inductive holder : Type := ProcessNotifications | ProcessEvents.

(** Program points of [process_notifications] (lines 241-286). *)
Inductive pn_pc : Type :=
  | PN_while                                   (* 243: while not stopped *)
  | PN_wait                                    (* 245: has_been_prompted.wait *)
  | PN_stopped (is_timeout : bool)             (* 253: if stopped: break *)
  | PN_names (is_timeout : bool)               (* 256-262: choose the names *)
  | PN_lock (prompted : list string)           (* 265: with event_reading_lock *)
  | PN_for_name (prompted : list string)       (* 267-272: next name, read *)
  | PN_for_notification (upstream_name : string)
      (notifications : list Notification) (prompted : list string)
                                               (* 274-281: check, decode *)
  | PN_put (item : DomainEvent * nat * string) (upstream_name : string)
      (notifications : list Notification) (prompted : list string)
                                               (* 284: upstream_event_queue.put *)
  | PN_done                                    (* the loop has ended *)
  | PN_raised (e : exception).                 (* the thread died of [e] *)

(** Program points of [process_events] (lines 288-322). *)
Inductive pe_pc : Type :=
  | PE_while                                   (* 289 *)
  | PE_get                                     (* 291: get(timeout=1) *)
  | PE_empty                                   (* 294: except Empty *)
  | PE_got (item : DomainEvent * nat * string) (* 297-298: task_done, stopped? *)
  | PE_process (item : DomainEvent * nat * string)  (* 304 *)
  | PE_lock                                    (* 310: with event_reading_lock *)
  | PE_reset                                   (* 311: reset_readers *)
  | PE_clear                                   (* 312-313: queue.clear *)
  | PE_prompted                                (* 314-317: mark all upstreams *)
  | PE_unlock                                  (* leaving the with of 310 *)
  | PE_put (prompt : Prompt)                   (* 322: push_prompt_queue.put *)
  | PE_done
  | PE_raised (e : exception).

(** Program points of [push_prompts] (lines 331-347). *)
Inductive pp_pc : Type :=
  | PP_while                                   (* 332 *)
  | PP_get                                     (* 334: get(timeout=10) *)
  | PP_empty                                   (* 336 *)
  | PP_got (prompt : option Prompt)            (* 339-340 *)
  | PP_for (prompt : option Prompt) (downstream : list string)  (* 343-346 *)
  | PP_ray_get                                 (* 347 *)
  | PP_done
  | PP_raised (e : exception).

(** What the actor's own thread is doing: nothing yet, inside [stop] (lines
    362-368), or back from a method that returned ([None]) or raised; the
    other methods are modelled as one step each. *)
Inductive main_pc : Type :=
  | Idle
  | Returned (e : option exception)
  | ST_set                                     (* 363 *)
  | ST_put                                     (* 364 *)
  | ST_prompted                                (* 365 *)
  | ST_join_pull                               (* 366 *)
  | ST_join_push                               (* 367 *)
  | ST_unsubscribe.                            (* 368 *)

(** The actor's attributes ([None] for an attribute not yet assigned), the
    program points of its threads, whether [enqueue_prompt] is subscribed to
    locally published prompts, and the part of the world the actor talks to:
    the notification logs of its upstreams and the prompts delivered to its
    downstreams. *)
Record RayProcess : Type := {
  args : Args;
  push_prompt_queue : list (option Prompt);
  upstream_event_queue : list (DomainEvent * nat * string);
  prompted_names : gset string;
  has_been_prompted : bool;
  has_been_stopped : bool;
  event_reading_lock : option holder;
  upstream_logs : option (list string);
  downstream_processes : option (list string);
  process : option ProcessApplication;
  pull_notifications_thread : option pn_pc;
  process_events_thread : option pe_pc;
  push_prompts_thread : option pp_pc;
  main_thread : main_pc;
  subscribed : bool;
  notification_logs : gmap string (list Notification);
  delivered : list (string * option Prompt);
}.

Definition set_push_prompt_queue (v : list (option Prompt)) (a : RayProcess) : RayProcess :=
  {| args := args a; push_prompt_queue := v;
     upstream_event_queue := upstream_event_queue a;
     prompted_names := prompted_names a;
     has_been_prompted := has_been_prompted a;
     has_been_stopped := has_been_stopped a;
     event_reading_lock := event_reading_lock a;
     upstream_logs := upstream_logs a;
     downstream_processes := downstream_processes a; process := process a;
     pull_notifications_thread := pull_notifications_thread a;
     process_events_thread := process_events_thread a;
     push_prompts_thread := push_prompts_thread a;
     main_thread := main_thread a; subscribed := subscribed a;
     notification_logs := notification_logs a; delivered := delivered a |}.

Definition set_upstream_event_queue (v : list (DomainEvent * nat * string)) (a : RayProcess) : RayProcess :=
  {| args := args a; push_prompt_queue := push_prompt_queue a;
     upstream_event_queue := v; prompted_names := prompted_names a;
     has_been_prompted := has_been_prompted a;
     has_been_stopped := has_been_stopped a;
     event_reading_lock := event_reading_lock a;
     upstream_logs := upstream_logs a;
     downstream_processes := downstream_processes a; process := process a;
     pull_notifications_thread := pull_notifications_thread a;
     process_events_thread := process_events_thread a;
     push_prompts_thread := push_prompts_thread a;
     main_thread := main_thread a; subscribed := subscribed a;
     notification_logs := notification_logs a; delivered := delivered a |}.

Definition set_prompted_names (v : gset string) (a : RayProcess) : RayProcess :=
  {| args := args a; push_prompt_queue := push_prompt_queue a;
     upstream_event_queue := upstream_event_queue a; prompted_names := v;
     has_been_prompted := has_been_prompted a;
     has_been_stopped := has_been_stopped a;
     event_reading_lock := event_reading_lock a;
     upstream_logs := upstream_logs a;
     downstream_processes := downstream_processes a; process := process a;
     pull_notifications_thread := pull_notifications_thread a;
     process_events_thread := process_events_thread a;
     push_prompts_thread := push_prompts_thread a;
     main_thread := main_thread a; subscribed := subscribed a;
     notification_logs := notification_logs a; delivered := delivered a |}.

Definition set_has_been_prompted (v : bool) (a : RayProcess) : RayProcess :=
  {| args := args a; push_prompt_queue := push_prompt_queue a;
     upstream_event_queue := upstream_event_queue a;
     prompted_names := prompted_names a; has_been_prompted := v;
     has_been_stopped := has_been_stopped a;
     event_reading_lock := event_reading_lock a;
     upstream_logs := upstream_logs a;
     downstream_processes := downstream_processes a; process := process a;
     pull_notifications_thread := pull_notifications_thread a;
     process_events_thread := process_events_thread a;
     push_prompts_thread := push_prompts_thread a;
     main_thread := main_thread a; subscribed := subscribed a;
     notification_logs := notification_logs a; delivered := delivered a |}.

Definition set_has_been_stopped (v : bool) (a : RayProcess) : RayProcess :=
  {| args := args a; push_prompt_queue := push_prompt_queue a;
     upstream_event_queue := upstream_event_queue a;
     prompted_names := prompted_names a;
     has_been_prompted := has_been_prompted a; has_been_stopped := v;
     event_reading_lock := event_reading_lock a;
     upstream_logs := upstream_logs a;
     downstream_processes := downstream_processes a; process := process a;
     pull_notifications_thread := pull_notifications_thread a;
     process_events_thread := process_events_thread a;
     push_prompts_thread := push_prompts_thread a;
     main_thread := main_thread a; subscribed := subscribed a;
     notification_logs := notification_logs a; delivered := delivered a |}.

Definition set_event_reading_lock (v : option holder) (a : RayProcess) : RayProcess :=
  {| args := args a; push_prompt_queue := push_prompt_queue a;
     upstream_event_queue := upstream_event_queue a;
     prompted_names := prompted_names a;
     has_been_prompted := has_been_prompted a;
     has_been_stopped := has_been_stopped a; event_reading_lock := v;
     upstream_logs := upstream_logs a;
     downstream_processes := downstream_processes a; process := process a;
     pull_notifications_thread := pull_notifications_thread a;
     process_events_thread := process_events_thread a;
     push_prompts_thread := push_prompts_thread a;
     main_thread := main_thread a; subscribed := subscribed a;
     notification_logs := notification_logs a; delivered := delivered a |}.

Definition set_upstream_logs (v : option (list string)) (a : RayProcess) : RayProcess :=
  {| args := args a; push_prompt_queue := push_prompt_queue a;
     upstream_event_queue := upstream_event_queue a;
     prompted_names := prompted_names a;
     has_been_prompted := has_been_prompted a;
     has_been_stopped := has_been_stopped a;
     event_reading_lock := event_reading_lock a; upstream_logs := v;
     downstream_processes := downstream_processes a; process := process a;
     pull_notifications_thread := pull_notifications_thread a;
     process_events_thread := process_events_thread a;
     push_prompts_thread := push_prompts_thread a;
     main_thread := main_thread a; subscribed := subscribed a;
     notification_logs := notification_logs a; delivered := delivered a |}.

Definition set_downstream_processes (v : option (list string)) (a : RayProcess) : RayProcess :=
  {| args := args a; push_prompt_queue := push_prompt_queue a;
     upstream_event_queue := upstream_event_queue a;
     prompted_names := prompted_names a;
     has_been_prompted := has_been_prompted a;
     has_been_stopped := has_been_stopped a;
     event_reading_lock := event_reading_lock a;
     upstream_logs := upstream_logs a; downstream_processes := v;
     process := process a;
     pull_notifications_thread := pull_notifications_thread a;
     process_events_thread := process_events_thread a;
     push_prompts_thread := push_prompts_thread a;
     main_thread := main_thread a; subscribed := subscribed a;
     notification_logs := notification_logs a; delivered := delivered a |}.

Definition set_process (v : option ProcessApplication) (a : RayProcess) : RayProcess :=
  {| args := args a; push_prompt_queue := push_prompt_queue a;
     upstream_event_queue := upstream_event_queue a;
     prompted_names := prompted_names a;
     has_been_prompted := has_been_prompted a;
     has_been_stopped := has_been_stopped a;
     event_reading_lock := event_reading_lock a;
     upstream_logs := upstream_logs a;
     downstream_processes := downstream_processes a; process := v;
     pull_notifications_thread := pull_notifications_thread a;
     process_events_thread := process_events_thread a;
     push_prompts_thread := push_prompts_thread a;
     main_thread := main_thread a; subscribed := subscribed a;
     notification_logs := notification_logs a; delivered := delivered a |}.

Definition set_pull_notifications_thread (v : option pn_pc) (a : RayProcess) : RayProcess :=
  {| args := args a; push_prompt_queue := push_prompt_queue a;
     upstream_event_queue := upstream_event_queue a;
     prompted_names := prompted_names a;
     has_been_prompted := has_been_prompted a;
     has_been_stopped := has_been_stopped a;
     event_reading_lock := event_reading_lock a;
     upstream_logs := upstream_logs a;
     downstream_processes := downstream_processes a; process := process a;
     pull_notifications_thread := v;
     process_events_thread := process_events_thread a;
     push_prompts_thread := push_prompts_thread a;
     main_thread := main_thread a; subscribed := subscribed a;
     notification_logs := notification_logs a; delivered := delivered a |}.

Definition set_process_events_thread (v : option pe_pc) (a : RayProcess) : RayProcess :=
  {| args := args a; push_prompt_queue := push_prompt_queue a;
     upstream_event_queue := upstream_event_queue a;
     prompted_names := prompted_names a;
     has_been_prompted := has_been_prompted a;
     has_been_stopped := has_been_stopped a;
     event_reading_lock := event_reading_lock a;
     upstream_logs := upstream_logs a;
     downstream_processes := downstream_processes a; process := process a;
     pull_notifications_thread := pull_notifications_thread a;
     process_events_thread := v;
     push_prompts_thread := push_prompts_thread a;
     main_thread := main_thread a; subscribed := subscribed a;
     notification_logs := notification_logs a; delivered := delivered a |}.

Definition set_push_prompts_thread (v : option pp_pc) (a : RayProcess) : RayProcess :=
  {| args := args a; push_prompt_queue := push_prompt_queue a;
     upstream_event_queue := upstream_event_queue a;
     prompted_names := prompted_names a;
     has_been_prompted := has_been_prompted a;
     has_been_stopped := has_been_stopped a;
     event_reading_lock := event_reading_lock a;
     upstream_logs := upstream_logs a;
     downstream_processes := downstream_processes a; process := process a;
     pull_notifications_thread := pull_notifications_thread a;
     process_events_thread := process_events_thread a;
     push_prompts_thread := v; main_thread := main_thread a;
     subscribed := subscribed a; notification_logs := notification_logs a;
     delivered := delivered a |}.

Definition set_main_thread (v : main_pc) (a : RayProcess) : RayProcess :=
  {| args := args a; push_prompt_queue := push_prompt_queue a;
     upstream_event_queue := upstream_event_queue a;
     prompted_names := prompted_names a;
     has_been_prompted := has_been_prompted a;
     has_been_stopped := has_been_stopped a;
     event_reading_lock := event_reading_lock a;
     upstream_logs := upstream_logs a;
     downstream_processes := downstream_processes a; process := process a;
     pull_notifications_thread := pull_notifications_thread a;
     process_events_thread := process_events_thread a;
     push_prompts_thread := push_prompts_thread a; main_thread := v;
     subscribed := subscribed a; notification_logs := notification_logs a;
     delivered := delivered a |}.

Definition set_subscribed (v : bool) (a : RayProcess) : RayProcess :=
  {| args := args a; push_prompt_queue := push_prompt_queue a;
     upstream_event_queue := upstream_event_queue a;
     prompted_names := prompted_names a;
     has_been_prompted := has_been_prompted a;
     has_been_stopped := has_been_stopped a;
     event_reading_lock := event_reading_lock a;
     upstream_logs := upstream_logs a;
     downstream_processes := downstream_processes a; process := process a;
     pull_notifications_thread := pull_notifications_thread a;
     process_events_thread := process_events_thread a;
     push_prompts_thread := push_prompts_thread a;
     main_thread := main_thread a; subscribed := v;
     notification_logs := notification_logs a; delivered := delivered a |}.

Definition set_notification_logs (v : gmap string (list Notification)) (a : RayProcess) : RayProcess :=
  {| args := args a; push_prompt_queue := push_prompt_queue a;
     upstream_event_queue := upstream_event_queue a;
     prompted_names := prompted_names a;
     has_been_prompted := has_been_prompted a;
     has_been_stopped := has_been_stopped a;
     event_reading_lock := event_reading_lock a;
     upstream_logs := upstream_logs a;
     downstream_processes := downstream_processes a; process := process a;
     pull_notifications_thread := pull_notifications_thread a;
     process_events_thread := process_events_thread a;
     push_prompts_thread := push_prompts_thread a;
     main_thread := main_thread a; subscribed := subscribed a;
     notification_logs := v; delivered := delivered a |}.

Definition set_delivered (v : list (string * option Prompt)) (a : RayProcess) : RayProcess :=
  {| args := args a; push_prompt_queue := push_prompt_queue a;
     upstream_event_queue := upstream_event_queue a;
     prompted_names := prompted_names a;
     has_been_prompted := has_been_prompted a;
     has_been_stopped := has_been_stopped a;
     event_reading_lock := event_reading_lock a;
     upstream_logs := upstream_logs a;
     downstream_processes := downstream_processes a; process := process a;
     pull_notifications_thread := pull_notifications_thread a;
     process_events_thread := process_events_thread a;
     push_prompts_thread := push_prompts_thread a;
     main_thread := main_thread a; subscribed := subscribed a;
     notification_logs := notification_logs a; delivered := v |}.

(** [RayProcess.__init__] (lines 153-176). *)
Definition new_RayProcess (a : Args) : RayProcess :=
  {| args := a; push_prompt_queue := []; upstream_event_queue := [];
     prompted_names := ∅; has_been_prompted := false;
     has_been_stopped := false; event_reading_lock := None;
     upstream_logs := None; downstream_processes := None; process := None;
     pull_notifications_thread := None; process_events_thread := None;
     push_prompts_thread := None; main_thread := Idle; subscribed := false;
     notification_logs := ∅; delivered := [] |}.

(** The process application [init] constructs (lines 186-196). *)
Definition new_ProcessApplication (a : Args) : ProcessApplication :=
  {| name := application_name (application_process_class a);
     pipeline_id := arg_pipeline_id a;
     readers := ∅; tracking := stored_tracking a |}.

(** [init] (lines 178-201): the hook is subscribed before the process
    application is constructed. When [application_process_class] is an
    instance of [ApplicationWithConcreteInfrastructure], line 194 calls that
    instance, which is not callable; otherwise the class is mixed with the
    infrastructure class, if there is one, and called. *)
Definition init (logs downstream : list string) (a : RayProcess)
    : outcome () * RayProcess :=
  let a := set_upstream_logs (Some logs) a in
  let a := set_downstream_processes (Some downstream) a in
  let a := set_subscribed true a in
  if isinstance_concrete (application_process_class (args a))
  then (Raise (TypeError "object is not callable"), a)
  else if negb (bool_decide (is_Some (infrastructure_class (args a))))
  then (Raise (ProgrammingError "infrastructure_class is not set"), a)
  else
    let p := foldl (λ p upstream_name, follow upstream_name p)
                   (new_ProcessApplication (args a)) logs in
    (Return (), set_process (Some p) a).

(** [reset_readers] (lines 324-326) on the process application. *)
Definition reset_process_readers (p : ProcessApplication) : ProcessApplication :=
  foldl (λ p upstream_name, set_reader_position_from_tracking_records upstream_name p)
        p (elements (dom (readers p))).

Definition reset_readers (a : RayProcess) : outcome () * RayProcess :=
  match process a with
  | None => (Raise (AttributeError "process"), a)
  | Some p => (Return (), set_process (Some (reset_process_readers p)) a)
  end.

(** [run] (lines 208-218). *)
Definition run (a : RayProcess) : outcome () * RayProcess :=
  match reset_readers a with
  | (Raise e, a) => (Raise e, a)
  | (Return _, a) =>
      (Return (),
       set_push_prompts_thread (Some PP_while)
         (set_process_events_thread (Some PE_while)
            (set_pull_notifications_thread (Some PN_while) a)))
  end.

(** [prompt] (lines 235-239); [is_prompt_to_pull] is
    [isinstance(prompt, PromptToPull)]. *)
Definition prompt (is_prompt_to_pull : bool) (process_name : string)
    (a : RayProcess) : RayProcess :=
  if is_prompt_to_pull
  then set_has_been_prompted true
         (set_prompted_names (prompted_names a ∪ {[process_name]}) a)
  else a.

(** Modelled from the spec: [is_prompt], the predicate [init] subscribes the
    hook with (line 183), is imported from eventsourcing.application.process
    and the spec does not describe it. It holds of a published batch that
    consists of one event, a prompt. *)
Definition is_prompt (events : list Prompt) : bool :=
  bool_decide (length events = 1).

(** [enqueue_prompt] (lines 328-329); [None] while the queue is full. *)
Definition enqueue_prompt (prompts : list Prompt) (a : RayProcess)
    : option (outcome () * RayProcess) :=
  match prompts with
  | [] => Some (Raise (IndexError "list index out of range"), a)
  | first :: _ =>
      q ← put (Some first) (push_prompt_queue a);
      Some (Return (), set_push_prompt_queue q a)
  end.

(** ** The three loops, one step at a time *)

Definition at_pn (pc : pn_pc) : RayProcess → RayProcess :=
  set_pull_notifications_thread (Some pc).
Definition at_pe (pc : pe_pc) : RayProcess → RayProcess :=
  set_process_events_thread (Some pc).
Definition at_pp (pc : pp_pc) : RayProcess → RayProcess :=
  set_push_prompts_thread (Some pc).

(** Leaving a [with self.event_reading_lock:] block, normally or by an
    exception. *)
Definition unlock : RayProcess → RayProcess := set_event_reading_lock None.

(** One step of [process_notifications]; [None] when the thread does not
    exist or is blocked (on the lock, or on a full event queue). *)
Definition step_process_notifications (a : RayProcess) : option RayProcess :=
  pc ← pull_notifications_thread a;
  match pc with
  | PN_while =>
      Some (at_pn (if has_been_stopped a then PN_done else PN_wait) a)
  | PN_wait =>
      (* wait(timeout=1) returns whether the flag is set *)
      Some (at_pn (PN_stopped (negb (has_been_prompted a))) a)
  | PN_stopped is_timeout =>
      Some (at_pn (if has_been_stopped a then PN_done else PN_names is_timeout) a)
  | PN_names true =>
      match upstream_logs a with
      | None => Some (at_pn (PN_raised (AttributeError "upstream_logs")) a)
      | Some logs => Some (at_pn (PN_lock logs) a)
      end
  | PN_names false =>
      (* with prompted_names_lock: clear the flag, swap the set out *)
      Some (at_pn (PN_lock (elements (prompted_names a)))
              (set_prompted_names ∅ (set_has_been_prompted false a)))
  | PN_lock prompted =>
      match event_reading_lock a with
      | Some _ => None
      | None => Some (at_pn (PN_for_name prompted)
                        (set_event_reading_lock (Some ProcessNotifications) a))
      end
  | PN_for_name [] => Some (at_pn PN_while (unlock a))
  | PN_for_name (upstream_name :: prompted) =>
      match process a with
      | None => Some (at_pn (PN_raised (AttributeError "process")) (unlock a))
      | Some p =>
          match readers p !! upstream_name with
          | None => Some (at_pn (PN_raised (KeyError upstream_name)) (unlock a))
          | Some position =>
              let notifications :=
                read (default [] (notification_logs a !! upstream_name)) position in
              let p := set_readers
                (<[upstream_name := position_after notifications position]> (readers p)) p in
              Some (at_pn (PN_for_notification upstream_name notifications prompted)
                      (set_process (Some p) a))
          end
      end
  | PN_for_notification upstream_name [] prompted =>
      Some (at_pn (PN_for_name prompted) a)
  | PN_for_notification upstream_name (notification :: notifications) prompted =>
      match process a with
      | None => Some (at_pn (PN_raised (AttributeError "process")) (unlock a))
      | Some p =>
          if check_causal_dependencies p upstream_name (causal_dependencies notification)
          then
            let event := get_event_from_notification notification in
            Some (at_pn (PN_put (event, notification_id notification, upstream_name)
                           upstream_name notifications prompted) a)
          else Some (at_pn (PN_raised (CausalDependencyFailed upstream_name)) (unlock a))
      end
  | PN_put item upstream_name notifications prompted =>
      q ← put item (upstream_event_queue a);
      Some (at_pn (PN_for_notification upstream_name notifications prompted)
              (set_upstream_event_queue q a))
  | PN_done | PN_raised _ => None
  end.

(** One step of [process_events] other than the call of
    [process_upstream_event]; [None] when the thread does not exist, is
    blocked (on the lock, or on a full prompt queue) or is at that call. *)
Definition step_process_events (a : RayProcess) : option RayProcess :=
  pc ← process_events_thread a;
  match pc with
  | PE_while =>
      Some (at_pe (if has_been_stopped a then PE_done else PE_get) a)
  | PE_get =>
      match get (upstream_event_queue a) with
      | None => Some (at_pe PE_empty a)
      | Some (item, q) => Some (at_pe (PE_got item) (set_upstream_event_queue q a))
      end
  | PE_empty =>
      Some (at_pe (if has_been_stopped a then PE_done else PE_while) a)
  | PE_got item =>
      Some (at_pe (if has_been_stopped a then PE_done else PE_process item) a)
  | PE_process _ => None
  | PE_lock =>
      match event_reading_lock a with
      | Some _ => None
      | None => Some (at_pe PE_reset (set_event_reading_lock (Some ProcessEvents) a))
      end
  | PE_reset =>
      match reset_readers a with
      | (Raise e, a) => Some (at_pe (PE_raised e) (unlock a))
      | (Return _, a) => Some (at_pe PE_clear a)
      end
  | PE_clear => Some (at_pe PE_prompted (set_upstream_event_queue [] a))
  | PE_prompted =>
      match upstream_logs a with
      | None => Some (at_pe (PE_raised (AttributeError "upstream_logs")) (unlock a))
      | Some logs =>
          (* with prompted_names_lock: add every upstream name, set the flag *)
          Some (at_pe PE_unlock
                  (set_has_been_prompted true
                     (set_prompted_names (prompted_names a ∪ list_to_set logs) a)))
      end
  | PE_unlock => Some (at_pe PE_while (unlock a))
  | PE_put prompt =>
      q ← put (Some prompt) (push_prompt_queue a);
      Some (at_pe PE_while (set_push_prompt_queue q a))
  | PE_done | PE_raised _ => None
  end.

(** The call of [process_upstream_event] at line 304, with what the
    application answers: the new events, or an exception. *)
Definition step_process_upstream_event
    (answer : outcome (list DomainEvent)) (a : RayProcess) : option RayProcess :=
  pc ← process_events_thread a;
  match pc with
  | PE_process (domain_event, notification_id, upstream_name) =>
      match process a, answer with
      | Some p, Return new_events =>
          let a := set_process (Some (record_tracking upstream_name notification_id p)) a in
          match new_events with
          | [] => Some (at_pe PE_while a)
          | _ :: _ => Some (at_pe (PE_put (RayPrompt (name p) (pipeline_id p))) a)
          end
      | _, _ => Some (at_pe PE_lock a)
      end
  | _ => None
  end.

(** One step of [push_prompts] other than the [ray.get] of line 347; [None]
    when the thread does not exist or is at that call. *)
Definition step_push_prompts (a : RayProcess) : option RayProcess :=
  pc ← push_prompts_thread a;
  match pc with
  | PP_while =>
      Some (at_pp (if has_been_stopped a then PP_done else PP_get) a)
  | PP_get =>
      match get (push_prompt_queue a) with
      | None => Some (at_pp PP_empty a)
      | Some (prompt, q) => Some (at_pp (PP_got prompt) (set_push_prompt_queue q a))
      end
  | PP_empty =>
      Some (at_pp (if has_been_stopped a then PP_done else PP_while) a)
  | PP_got prompt =>
      if has_been_stopped a then Some (at_pp PP_done a)
      else match downstream_processes a with
           | None => Some (at_pp (PP_raised (AttributeError "downstream_processes")) a)
           | Some downstream => Some (at_pp (PP_for prompt downstream) a)
           end
  | PP_for prompt [] => Some (at_pp PP_ray_get a)
  | PP_for prompt (downstream_name :: downstream) =>
      let a := set_delivered (delivered a ++ [(downstream_name, prompt)]) a in
      Some (at_pp (if has_been_stopped a then PP_ray_get else PP_for prompt downstream) a)
  | PP_ray_get | PP_done | PP_raised _ => None
  end.

(** [ray.get(prompt_response_ids)] at line 347, with what the substrate
    answers: the acknowledgements of all the prompts sent, or the exception
    of a prompt that failed (or whose actor died), which nothing catches. With
    no downstream process the list of ids is empty and [ray.get] returns. *)
Definition step_ray_get (answer : outcome ()) (a : RayProcess) : option RayProcess :=
  pc ← push_prompts_thread a;
  match pc with
  | PP_ray_get =>
      match answer with
      | Return _ => Some (at_pp PP_while a)
      | Raise e =>
          if bool_decide (downstream_processes a = Some []) then None
          else Some (at_pp (PP_raised e) a)
      end
  | _ => None
  end.

(** ** [stop] on the actor's own thread *)

Definition finished_pn (pc : pn_pc) : bool :=
  match pc with PN_done | PN_raised _ => true | _ => false end.
Definition finished_pp (pc : pp_pc) : bool :=
  match pc with PP_done | PP_raised _ => true | _ => false end.

(** One step of [stop] (lines 362-368). [put] blocks while the prompt queue is
    full; [join(timeout=3)] returns when the thread has finished, or at the
    timeout ([timeout = true]). *)
Definition step_stop (timeout : bool) (a : RayProcess) : option RayProcess :=
  match main_thread a with
  | ST_set => Some (set_main_thread ST_put (set_has_been_stopped true a))
  | ST_put =>
      q ← put None (push_prompt_queue a);
      Some (set_main_thread ST_prompted (set_push_prompt_queue q a))
  | ST_prompted => Some (set_main_thread ST_join_pull (set_has_been_prompted true a))
  | ST_join_pull =>
      match pull_notifications_thread a with
      | None =>
          Some (set_main_thread
                  (Returned (Some (AttributeError "pull_notifications_thread"))) a)
      | Some pc =>
          if finished_pn pc || timeout then Some (set_main_thread ST_join_push a)
          else None
      end
  | ST_join_push =>
      match push_prompts_thread a with
      | None =>
          Some (set_main_thread
                  (Returned (Some (AttributeError "push_prompts_thread"))) a)
      | Some pc =>
          if finished_pp pc || timeout then Some (set_main_thread ST_unsubscribe a)
          else None
      end
  | ST_unsubscribe => Some (set_main_thread (Returned None) (set_subscribed false a))
  | Idle | Returned _ => None
  end.

(** ** Executions *)

(** The actor runs one method at a time: a call starts when the previous one
    is over. *)
Definition idle (a : RayProcess) : bool :=
  match main_thread a with Idle | Returned _ => true | _ => false end.

(** What can happen next: an upstream appends a notification to its log; the
    runner calls [init] or [run] (once each, lines 124-132); a peer calls
    [prompt]; someone calls [stop], which then advances step by step; the
    application publishes prompts locally; one of the three threads moves;
    the Pusher's [ray.get] returns or raises. *)
Inductive label : Type :=
  | Publish (upstream_name : string) (deps : option (list (string * nat)))
      (payload : string)
  | CallInit (logs downstream : list string)
  | CallRun
  | CallPrompt (is_prompt_to_pull : bool) (process_name : string)
  | CallStop
  | StepStop (timeout : bool)
  | Publishes (prompts : list Prompt)
  | StepPN
  | StepPE
  | Answer (answer : outcome (list DomainEvent))
  | StepPP
  | Acknowledge (answer : outcome ()).

(** Notification ids are "strictly increasing per upstream, gapless": the
    next notification of a log of length n has id n + 1. *)
Definition publish (upstream_name : string) (deps : option (list (string * nat)))
    (payload : string) (a : RayProcess) : RayProcess :=
  let log := default [] (notification_logs a !! upstream_name) in
  let n := {| notification_id := S (length log);
              causal_dependencies := deps; payload := payload |} in
  set_notification_logs (<[upstream_name := log ++ [n]]> (notification_logs a)) a.

Definition step (l : label) (a : RayProcess) : option RayProcess :=
  match l with
  | Publish upstream_name deps payload => Some (publish upstream_name deps payload a)
  | CallInit logs downstream =>
      if idle a && bool_decide (upstream_logs a = None) then
        let '(o, a) := init logs downstream a in
        Some (set_main_thread (Returned (raises o)) a)
      else None
  | CallRun =>
      if idle a && bool_decide (pull_notifications_thread a = None) then
        let '(o, a) := run a in
        Some (set_main_thread (Returned (raises o)) a)
      else None
  | CallPrompt is_prompt_to_pull process_name =>
      if idle a
      then Some (set_main_thread (Returned None) (prompt is_prompt_to_pull process_name a))
      else None
  | CallStop => if idle a then Some (set_main_thread ST_set a) else None
  | StepStop timeout => step_stop timeout a
  | Publishes prompts =>
      (* the hook is called when it is subscribed and [is_prompt] holds *)
      if subscribed a && is_prompt prompts
      then snd <$> enqueue_prompt prompts a else Some a
  | StepPN => step_process_notifications a
  | StepPE => step_process_events a
  | Answer answer => step_process_upstream_event answer a
  | StepPP => step_push_prompts a
  | Acknowledge answer => step_ray_get answer a
  end.

Fixpoint exec (ls : list label) (a : RayProcess) : option RayProcess :=
  match ls with
  | [] => Some a
  | l :: ls => a ← step l a; exec ls a
  end.


(** ** What the loops hold *)

(** The log of an upstream, as the actor's reader sees it. *)
Definition log_of (a : RayProcess) (upstream_name : string) : list Notification :=
  default [] (notification_logs a !! upstream_name).

(** The queue items that have left the Puller's check: the one the
    Processor has taken off the queue, those on the queue, and the one the
    Puller is about to put. *)
Definition held_by_process_events (a : RayProcess) : list (DomainEvent * nat * string) :=
  match process_events_thread a with
  | Some (PE_got item) | Some (PE_process item) => [item]
  | _ => []
  end.

Definition held_by_process_notifications (a : RayProcess)
    : list (DomainEvent * nat * string) :=
  match pull_notifications_thread a with
  | Some (PN_put item _ _ _) => [item]
  | _ => []
  end.

Definition handed_over (a : RayProcess) : list (DomainEvent * nat * string) :=
  held_by_process_events a ++ upstream_event_queue a ++ held_by_process_notifications a.

(** The notifications the Puller has read and not yet checked, with their
    upstream. *)
Definition being_read (a : RayProcess) : list (string * Notification) :=
  match pull_notifications_thread a with
  | Some (PN_for_notification upstream_name notifications _)
  | Some (PN_put _ upstream_name notifications _) =>
      (λ n, (upstream_name, n)) <$> notifications
  | _ => []
  end.

(** The item was made from a notification of its upstream's log whose
    declared causal dependencies are all applied locally. *)
Definition admitted (a : RayProcess) (item : DomainEvent * nat * string) : Prop :=
  ∃ n p, n ∈ log_of a item.2 ∧
         notification_id n = item.1.2 ∧
         get_event_from_notification n = item.1.1 ∧
         process a = Some p ∧
         check_causal_dependencies p item.2 (causal_dependencies n) = true.

(** The application exists once [init] has set the logs, and the loops and
    the queue are untouched before it exists. *)
Definition wired (a : RayProcess) : Prop :=
  (upstream_logs a = None → process a = None) ∧
  (process a = None →
   pull_notifications_thread a = None ∧ process_events_thread a = None ∧
   upstream_event_queue a = []).

Definition causal_inv (a : RayProcess) : Prop :=
  wired a ∧
  Forall (admitted a) (handed_over a) ∧
  (∀ u n, (u, n) ∈ being_read a → n ∈ log_of a u).

(** ** The order of application *)







(** [l] is t+1, t+2, ... *)
Definition consecutive_from (t : nat) (l : list nat) : Prop :=
  l = seq (S t) (length l).






(** ** After the stop signal *)

(** A whole call of [stop]: the call and its six steps, with whether each of
    the two joins ends at its timeout. *)
Definition stop_call (timeout_pull timeout_push : bool) : list label :=
  [CallStop; StepStop false; StepStop false; StepStop false;
   StepStop timeout_pull; StepStop timeout_push; StepStop false].

(** The labels of the three loops. *)
Definition is_loop_step (l : label) : bool :=
  match l with
  | StepPN | StepPE | Answer _ | StepPP | Acknowledge _ => true
  | _ => false
  end.

(** The notifications logged by all upstreams together: no read returns
    more. *)
Definition total_logged (a : RayProcess) : nat :=
  sum_list (length <$> (map_to_list (notification_logs a)).*2).

(** A bound on the steps the Puller spends on one name: the read, a check
    and a put for each notification, and the return to the list of names. *)
Definition per_name (a : RayProcess) : nat := 2 + 2 * total_logged a.

(** A bound on the number of names of a round not yet chosen. *)
Definition names_bound (a : RayProcess) : nat :=
  length (default [] (upstream_logs a))
  + size (prompted_names a ∪ list_to_set (default [] (upstream_logs a))).

(** Steps left to each loop once the stop signal is set, at most. *)
Definition pn_fuel (a : RayProcess) : nat :=
  match pull_notifications_thread a with
  | None => 0
  | Some pc =>
      match pc with
      | PN_while => 1
      | PN_wait => 2
      | PN_stopped _ => 1
      | PN_names _ => 4 + names_bound a * per_name a
      | PN_lock names => 3 + length names * per_name a
      | PN_for_name names => 2 + length names * per_name a
      | PN_for_notification _ ns names =>
          2 * length ns + 3 + length names * per_name a
      | PN_put _ _ ns names => 2 * length ns + 4 + length names * per_name a
      | PN_done | PN_raised _ => 0
      end
  end.

Definition pe_fuel (a : RayProcess) : nat :=
  match process_events_thread a with
  | None => 0
  | Some pc =>
      match pc with
      | PE_while => 1
      | PE_get => 2
      | PE_empty => 1
      | PE_got _ => 1
      | PE_process _ => 7
      | PE_lock => 6
      | PE_reset => 5
      | PE_clear => 4
      | PE_prompted => 3
      | PE_unlock => 2
      | PE_put _ => 2
      | PE_done | PE_raised _ => 0
      end
  end.

Definition pp_fuel (a : RayProcess) : nat :=
  match push_prompts_thread a with
  | None => 0
  | Some pc =>
      match pc with
      | PP_while => 1
      | PP_get => 2
      | PP_empty => 1
      | PP_got _ => 1
      | PP_for _ _ => 3
      | PP_ray_get => 2
      | PP_done | PP_raised _ => 0
      end
  end.

Definition steps_left (a : RayProcess) : nat := pn_fuel a + pe_fuel a + pp_fuel a.

(** A call of [stop] that cannot go on: the stop signal is already set, the
    prompt queue is full, and the Pusher is not about to take a prompt off
    it. *)
Definition stuck_in_stop (a : RayProcess) : Prop :=
  has_been_stopped a = true ∧
  full (push_prompt_queue a) = true ∧
  push_prompts_thread a ≠ Some PP_get ∧
  (main_thread a = ST_set ∨ main_thread a = ST_put).

(** ** [retry] and [call] *)

Section Retry.
Context {St A : Type}.
(** [isinstance(e, exc)] for the decorator's first argument. *)
Variable exc : exception → bool.
(** The decorated function, on the state it reads and writes. *)
Variable func : St → outcome A * St.

(** Modelled from the spec: [retry] is imported from
    eventsourcing.domain.model.decorators; the spec describes it as a
    "bounded retry with fixed backoff for transient/conflict errors",
    parameterised by the retryable error kinds and the maximal number of
    attempts. [func] is called again while it raises a retryable error and
    attempts remain; the third component counts the calls made. *)
Fixpoint retry_loop (attempts_left : nat) (s : St) : outcome A * St * nat :=
  match func s with
  | (Raise e, s') =>
      if exc e then
        match attempts_left with
        | 0 => (Raise e, s', 1)
        | S n => let '(o, s'', calls) := retry_loop n s' in (o, s'', S calls)
        end
      else (Raise e, s', 1)
  | (Return v, s') => (Return v, s', 1)
  end.

Definition retry (max_attempts : nat) (s : St) : outcome A * St * nat :=
  retry_loop (max_attempts - 1) s.

(** The state in which the attempt number [k] (from 0) starts. *)
Definition before_attempt (k : nat) (s : St) : St :=
  Nat.iter k (λ s, (func s).2) s.

Definition retryable (o : outcome A) : bool :=
  match o with Raise e => exc e | Return _ => false end.
End Retry.

Section Call.
Context {value : Type}.
(** [getattr(self.process, name)]: the bound method of the application, as
    a function of its arguments and of the application's state; [None]
    where [getattr] raises [AttributeError]. *)
Variable getattr :
  string → option (list value → ProcessApplication → outcome value * ProcessApplication).

(** The body of [call] (lines 226-233). Before [init] the attribute
    [process] does not exist, and reading it raises [AttributeError]. *)
Definition call_body (application_method_name : string) (arguments : list value)
    (a : RayProcess) : outcome value * RayProcess :=
  match process a with
  | None => (Raise (AttributeError "process"), a)
  | Some p =>
      if truth_value p then
        match getattr application_method_name with
        | None => (Raise (AttributeError application_method_name), a)
        | Some method =>
            let '(o, p) := method arguments p in (o, set_process (Some p) a)
        end
      else
        (Raise (Exception_ ("Can't call method '" +:+ application_method_name
                            +:+ "' before process exists")), a)
  end.

(** [call] (line 224): [@retry(OperationalError, max_attempts=10, wait=0.1)]. *)
Definition call (application_method_name : string) (arguments : list value)
    : RayProcess → outcome value * RayProcess * nat :=
  retry is_OperationalError (call_body application_method_name arguments) 10.
End Call.

(** ** The runner *)

Module RayRunner.

(** [System] is imported from eventsourcing.system.definition; [start]
    reads its three dicts. A dict is an association list in insertion
    order. *)
Record System : Type := {
  process_classes : list (string * ProcessClass);
  upstream_names : list (string * list string);
  downstream_names : list (string * list string);
}.

(** [d[k]]: the first binding of [k], [None] where Python raises
    [KeyError]. *)
Fixpoint getitem {K V} `{EqDecision K} (d : list (K * V)) (k : K) : option V :=
  match d with
  | [] => None
  | (k', v) :: d => if decide (k' = k) then Some v else getitem d k
  end.

(** [d[k] = v]: an existing key keeps its place, a new key goes last. *)
Fixpoint setitem {K V} `{EqDecision K} (d : list (K * V)) (k : K) (v : V)
    : list (K * V) :=
  match d with
  | [] => [(k, v)]
  | (k', v') :: d =>
      if decide (k' = k) then (k, v) :: d else (k', v') :: setitem d k v
  end.

(** A handle names the actor it was returned for: the n-th actor spawned. *)
Abbreviation handle := nat (only parsing).

(** The fields of the runner [start] reads, and [os.environ.get("DB_URI")]. *)
Record RayRunner : Type := {
  system : System;
  infrastructure_class : option InfrastructureClass;
  pipeline_ids : list nat;
  db_uri : option string;
  environ_DB_URI : option string;
}.

(** What [start] asks of the actor substrate, in order. *)
Inductive command : Type :=
  | Remote (process_class : ProcessClass) (pipeline_id : nat)
                                         (* 97: RayProcess.remote(...) *)
  | InitRemote (h : handle) (upstream_logs downstream_processes : list string)
                                         (* 125: ray_process.init.remote *)
  | GetInit (hs : list handle)           (* 128: ray.get(init_ids) *)
  | RunRemote (h : handle)               (* 132: ray_process.run.remote *)
  | GetRun (hs : list handle).           (* 133: ray.get(run_ids) *)

(** Lines 69-80. *)
Fixpoint check_infrastructure (infra : option InfrastructureClass)
    (classes : list ProcessClass) : outcome () :=
  match classes with
  | [] => Return ()
  | process_class :: classes =>
      if negb (isinstance_concrete process_class) then
        match infra with
        | None => Raise (ProgrammingError "infrastructure_class is not set")
        | Some infrastructure_class =>
            if negb (issubclass_concrete infrastructure_class) then
              Raise (ProgrammingError
                "infrastructure_class is not a subclass of ApplicationWithConcreteInfrastructure")
            else check_infrastructure infra classes
        end
      else check_infrastructure infra classes
  end.

(** Truth value of an optional string: [None] and [""] are false. *)
Definition truthy (s : option string) : bool :=
  match s with
  | None => false
  | Some s => negb (bool_decide (s = ""))
  end.

(** Lines 84-92: [env_vars.get("DB_URI")] after the assignment. *)
Definition env_DB_URI (r : RayRunner) : option string :=
  if truthy (db_uri r) then db_uri r else environ_DB_URI r.

(** Lines 95-105: the actors spawned, and [ray_processes] after the loop;
    the next handle is the number of actors spawned so far. *)
Definition spawn_all (r : RayRunner)
    : list command * list (string * nat * handle) :=
  foldl (λ acc pipeline_id,
           foldl (λ '(cmds, ray_processes) '(process_name, process_class),
                    (cmds ++ [Remote process_class pipeline_id],
                     setitem ray_processes (process_name, pipeline_id) (length cmds)))
                 acc (process_classes (system r)))
        ([], []) (pipeline_ids r).

(** [[ray_processes[(name, pipeline_id)] for name in names]], failing on the
    first missing key. *)
Fixpoint lookup_all (ray_processes : list (string * nat * handle))
    (pipeline_id : nat) (names : list string) : outcome () :=
  match names with
  | [] => Return ()
  | n :: names =>
      match getitem ray_processes (n, pipeline_id) with
      | None => Raise (KeyError n)
      | Some _ => lookup_all ray_processes pipeline_id names
      end
  end.

(** Lines 109-126: one [init.remote] per entry of [ray_processes]; the
    commands issued before a [KeyError], if one is raised. *)
Fixpoint init_all (r : RayRunner) (ray_processes entries : list (string * nat * handle))
    : list command * outcome () :=
  match entries with
  | [] => ([], Return ())
  | (process_name, pipeline_id, ray_process) :: entries =>
      match getitem (upstream_names (system r)) process_name with
      | None => ([], Raise (KeyError process_name))
      | Some ups =>
          match getitem (downstream_names (system r)) process_name with
          | None => ([], Raise (KeyError process_name))
          | Some downs =>
              match lookup_all ray_processes pipeline_id downs with
              | Raise e => ([], Raise e)
              | Return _ =>
                  match lookup_all ray_processes pipeline_id ups with
                  | Raise e => ([], Raise e)
                  | Return _ =>
                      let '(cmds, o) := init_all r ray_processes entries in
                      (InitRemote ray_process ups downs :: cmds, o)
                  end
              end
          end
      end
  end.

(** [start] (lines 64-133): the commands issued, in order, and the
    exception [start] itself raises, if any. An exception coming out of
    [ray.get] is the substrate's, see [step_runner]. *)
Definition start (r : RayRunner) : list command * outcome () :=
  match check_infrastructure (infrastructure_class r) (process_classes (system r)).*2 with
  | Raise e => ([], Raise e)
  | Return _ =>
      if negb (truthy (env_DB_URI r)) then
        ([], Raise (AssertionError
           "DB_URI not set: Ray runner doesn't work with in-memory database at the mo"))
      else
        let '(spawns, ray_processes) := spawn_all r in
        let '(inits, o) := init_all r ray_processes ray_processes in
        match o with
        | Raise e => (spawns ++ inits, Raise e)
        | Return _ =>
            let hs := ray_processes.*2 in
            (spawns ++ inits ++ [GetInit hs] ++ (RunRemote <$> hs) ++ [GetRun hs],
             Return ())
        end
  end.

(** *** The actor substrate

    [f.remote(...)] queues a task on the actor and returns at once; an actor
    executes its tasks one at a time, in the order submitted; [ray.get]
    waits for the tasks it is given and raises if one of them failed. *)

Inductive task : Type := TInit | TRun.

Global Instance task_eq_dec : EqDecision task.
Proof. solve_decision. Defined.

Record actor : Type := {
  mailbox : list task;             (* submitted, not yet executed *)
  executed : list (task * bool);   (* executed, with whether it returned *)
}.

Record cluster : Type := {
  actors : list actor;             (* the n-th actor spawned, from 0 *)
  pending : list command;          (* what is left of [start] *)
}.

Definition submit (t : task) (a : actor) : actor :=
  {| mailbox := mailbox a ++ [t]; executed := executed a |}.

Definition completed (t : task) (ok : bool) (c : cluster) (h : handle) : bool :=
  match actors c !! h with
  | None => false
  | Some a => bool_decide ((t, ok) ∈ executed a)
  end.

(** [ray.get(refs)] for the tasks [t] of the actors [hs]: [None] while it
    waits; otherwise whether it returned ([true]) or raised. *)
Definition ray_get (t : task) (hs : list handle) (c : cluster) : option bool :=
  if existsb (completed t false c) hs then Some false
  else if forallb (completed t true c) hs then Some true
  else None.

Definition after_get (r : option bool) (cmds : list command) (c : cluster)
    : option cluster :=
  match r with
  | None => None
  | Some true => Some {| actors := actors c; pending := cmds |}
  | Some false => Some {| actors := actors c; pending := [] |}
  end.

(** The runner executes the next command of [start]. *)
Definition step_runner (c : cluster) : option cluster :=
  match pending c with
  | [] => None
  | Remote _ _ :: cmds =>
      Some {| actors := actors c ++ [ {| mailbox := []; executed := [] |} ];
              pending := cmds |}
  | InitRemote h _ _ :: cmds =>
      Some {| actors := alter (submit TInit) h (actors c); pending := cmds |}
  | RunRemote h :: cmds =>
      Some {| actors := alter (submit TRun) h (actors c); pending := cmds |}
  | GetInit hs :: cmds => after_get (ray_get TInit hs c) cmds c
  | GetRun hs :: cmds => after_get (ray_get TRun hs c) cmds c
  end.

(** The actor [h] executes its next task, which returns ([ok]) or raises. *)
Definition step_actor (h : handle) (ok : bool) (c : cluster) : option cluster :=
  a ← actors c !! h;
  match mailbox a with
  | [] => None
  | t :: ts =>
      Some {| actors := <[h := {| mailbox := ts; executed := executed a ++ [(t, ok)] |}]>
                          (actors c);
              pending := pending c |}
  end.

Inductive move : Type :=
  | Runner
  | Actor (h : handle) (ok : bool).

Definition step_cluster (m : move) (c : cluster) : option cluster :=
  match m with
  | Runner => step_runner c
  | Actor h ok => step_actor h ok c
  end.

Fixpoint exec_cluster (ms : list move) (c : cluster) : option cluster :=
  match ms with
  | [] => Some c
  | m :: ms => c ← step_cluster m c; exec_cluster ms c
  end.

(** [start] is called on an empty substrate. *)
Definition boot (r : RayRunner) : cluster :=
  {| actors := []; pending := (start r).1 |}.

(** [run] has been invoked on the actor: the task is queued or executed. *)
Definition run_invoked (a : actor) : bool :=
  bool_decide (TRun ∈ mailbox a) || bool_decide (TRun ∈ (executed a).*1).

(** The actor is wired: its [init] has run to completion. *)
Definition init_completed (a : actor) : bool :=
  bool_decide ((TInit, true) ∈ executed a).

(** The runner's identities are distinct: each process name is one key of
    [process_classes], each pipeline id is listed once. *)
Definition distinct_identities (r : RayRunner) : Prop :=
  NoDup (process_classes (system r)).*1 ∧ NoDup (pipeline_ids r).

(** The number of actors a list of commands spawns. *)
Definition is_Remote (c : command) : bool :=
  match c with Remote _ _ => true | _ => false end.

Definition is_RunRemote (c : command) : bool :=
  match c with RunRemote _ => true | _ => false end.

Definition spawned (cmds : list command) : nat := length (filter is_Remote cmds).

(** What holds of the substrate while the runner works through [cmds]: the
    commands executed so far are a prefix of [cmds], what is pending is the
    rest (or nothing, after a [ray.get] that raised); each [Remote] executed
    made one actor; [run] is invoked only by an executed [RunRemote]; a
    [ray.get(init_ids)] that returned found every [init] it waited for
    completed. *)
Definition cluster_inv (cmds : list command) (c : cluster) : Prop :=
  ∃ executed_cmds rest,
    cmds = executed_cmds ++ rest ∧
    (pending c = rest ∨ pending c = []) ∧
    length (actors c) = spawned executed_cmds ∧
    (∀ h a, actors c !! h = Some a → run_invoked a = true →
            ∃ h', RunRemote h' ∈ executed_cmds) ∧
    (∀ hs h, GetInit hs ∈ executed_cmds → h ∈ hs → completed TInit true c h = true).

End RayRunner.

(** ** The other methods of the actor *)


Section NotificationLogSection.
Context {section : Type}.
(** [self.process.notification_log[section_id]]: a read of the
    application's database, which returns the section or raises, and may
    leave the application in another state. *)
Variable notification_log_getitem :
  string → ProcessApplication → outcome section * ProcessApplication.

(** The body of [get_notification_log_section] (line 222). *)
Definition get_notification_log_section_body (section_id : string) (a : RayProcess)
    : outcome section * RayProcess :=
  match process a with
  | None => (Raise (AttributeError "process"), a)
  | Some p =>
      let '(o, p) := notification_log_getitem section_id p in
      (o, set_process (Some p) a)
  end.

(** [get_notification_log_section] (line 220):
    [@retry(OperationalError, max_attempts=10, wait=0.1)]. *)
Definition get_notification_log_section (section_id : string)
    : RayProcess → outcome section * RayProcess * nat :=
  retry is_OperationalError (get_notification_log_section_body section_id) 10.
End NotificationLogSection.

Section RunProcess.
(** [self.process.run(prompt)] of the imported application: it returns or
    raises, and leaves the application in another state. *)
Variable process_run :
  option Prompt → ProcessApplication → outcome () * ProcessApplication.

(** The classes named at line 358:
    [(RecordConflictError, OperationalError, KeyError)]. *)
Definition is_run_process_retryable (e : exception) : bool :=
  match e with
  | RecordConflictError _ | OperationalError _ | KeyError _ => true
  | _ => false
  end.

(** The body of [_run_process] (line 360). *)
Definition _run_process_body (prompt : option Prompt) (a : RayProcess)
    : outcome () * RayProcess :=
  match process a with
  | None => (Raise (AttributeError "process"), a)
  | Some p =>
      let '(o, p) := process_run prompt p in (o, set_process (Some p) a)
  end.

(** [_run_process] (line 358):
    [@retry((RecordConflictError, OperationalError, KeyError), 50, wait=0.1)]. *)
Definition _run_process (prompt : option Prompt)
    : RayProcess → outcome () * RayProcess * nat :=
  retry is_run_process_retryable (_run_process_body prompt) 50.

(** [run_process] (lines 349-356): whatever [_run_process] raises is printed
    and dropped. The third component counts the calls of the body. *)
Definition run_process (prompt : option Prompt) (a : RayProcess)
    : outcome () * RayProcess * nat :=
  match _run_process prompt a with
  | (Return v, a, calls) => (Return v, a, calls)
  | (Raise _, a, calls) => (Return (), a, calls)
  end.
End RunProcess.

(** ** The other methods of the runner *)

(** [self.ray_processes] when [start] is over (lines 62, 95-105): empty as
    [__init__] left it when [start] raised before its first loop. *)
Definition ray_processes_after_start (r : RayRunner.RayRunner)
    : list (string * nat * nat) :=
  match RayRunner.check_infrastructure (RayRunner.infrastructure_class r)
          (RayRunner.process_classes (RayRunner.system r)).*2 with
  | Raise _ => []
  | Return _ =>
      if negb (RayRunner.truthy (RayRunner.env_DB_URI r)) then []
      else (RayRunner.spawn_all r).2
  end.

(** [get_ray_process] (lines 135-137). The assertion of line 136 holds of
    every string; the key that is missing is the pair, of which the error
    keeps the name. *)
Definition get_ray_process (ray_processes : list (string * nat * nat))
    (process_name : string) (pipeline_id : nat) : outcome nat :=
  match RayRunner.getitem ray_processes (process_name, pipeline_id) with
  | None => Raise (KeyError process_name)
  | Some ray_process => Return ray_process
  end.

Section RunnerCall.
Context {value : Type}.
Variable getattr :
  string → option (list value → ProcessApplication → outcome value * ProcessApplication).

(** [RayRunner.call] (lines 145-148): the actor found by [get_ray_process]
    executes its [call], and [ray.get] hands over what it returned or
    raised. The actors are given by handle. *)
Definition RayRunner_call (ray_processes : list (string * nat * nat))
    (actors : nat → RayProcess) (process_name : string) (pipeline_id : nat)
    (method_name : string) (arguments : list value)
    : outcome value * (nat → RayProcess) :=
  match get_ray_process ray_processes process_name pipeline_id with
  | Raise e => (Raise e, actors)
  | Return ray_process =>
      let '(o, a, _) := call getattr method_name arguments (actors ray_process) in
      (o, λ h, if decide (h = ray_process) then a else actors h)
  end.
End RunnerCall.

(** ** What holds of the actor in every execution *)

(** The attributes are assigned in the order of the actor's life: [init]
    sets the logs, the downstream processes and (unless it raises) the
    process application; [run] needs the application and starts the three
    threads together; before that the event queue, the lock and the record
    of prompts sent are untouched. *)
Definition lifecycle_inv (a : RayProcess) : Prop :=
  (upstream_logs a = None → downstream_processes a = None ∧ process a = None) ∧
  (process a = None → pull_notifications_thread a = None) ∧
  (pull_notifications_thread a = None →
   process_events_thread a = None ∧ push_prompts_thread a = None ∧
   upstream_event_queue a = [] ∧ delivered a = [] ∧ event_reading_lock a = None) ∧
  (pull_notifications_thread a ≠ None →
   process_events_thread a ≠ None ∧ push_prompts_thread a ≠ None).

(** The Puller is inside its [with self.event_reading_lock:] block (lines
    265-286). *)
Definition inside_process_notifications (a : RayProcess) : bool :=
  match pull_notifications_thread a with
  | Some (PN_for_name _ | PN_for_notification _ _ _ | PN_put _ _ _ _) => true
  | _ => false
  end.

(** The Processor is inside the [with self.event_reading_lock:] block of its
    exception handler (lines 310-317). *)
Definition inside_process_events (a : RayProcess) : bool :=
  match process_events_thread a with
  | Some (PE_reset | PE_clear | PE_prompted | PE_unlock) => true
  | _ => false
  end.

(** The two threads are never inside their blocks together; the lock is
    held by the thread that is inside its block, and by nobody when no
    thread is. *)
Definition lock_inv (a : RayProcess) : Prop :=
  (inside_process_notifications a && inside_process_events a = false) ∧
  event_reading_lock a
  = if inside_process_notifications a then Some ProcessNotifications
    else if inside_process_events a then Some ProcessEvents
    else None.

(** No pending name without the signal. *)
Definition signal_inv (a : RayProcess) : Prop :=
  prompted_names a ≠ ∅ → has_been_prompted a = true.

Definition queues_bounded (a : RayProcess) : Prop :=
  length (push_prompt_queue a) ≤ maxsize ∧ length (upstream_event_queue a) ≤ maxsize.

(** The sentinel [None] is on its way only after the stop signal, and what
    the Pusher sends is a prompt, sent to one of the downstream processes. *)
Definition delivery_inv (a : RayProcess) : Prop :=
  (main_thread a = ST_put → has_been_stopped a = true) ∧
  (None ∈ push_prompt_queue a → has_been_stopped a = true) ∧
  (push_prompts_thread a = Some (PP_got None) → has_been_stopped a = true) ∧
  (∀ prompt names, push_prompts_thread a = Some (PP_for prompt names) →
     is_Some prompt ∧ ∃ ds, downstream_processes a = Some ds ∧ names ⊆ ds) ∧
  (∀ d prompt, (d, prompt) ∈ delivered a →
     is_Some prompt ∧ ∃ ds, downstream_processes a = Some ds ∧ d ∈ ds).

(** ** After the stop signal: what is still sent and applied *)

(** The number of events applied since the application was constructed. *)
Definition applied_count (a : RayProcess) : nat :=
  match process a with
  | None => 0
  | Some p => length (tracking p) - length (stored_tracking (args a))
  end.

(** The Pusher is about to send a prompt; the Processor is about to apply
    an event. *)
Definition sends_left (a : RayProcess) : nat :=
  match push_prompts_thread a with
  | Some (PP_for _ (_ :: _)) => 1
  | _ => 0
  end.

Definition applications_left (a : RayProcess) : nat :=
  match process_events_thread a with
  | Some (PE_process _) => 1
  | _ => 0
  end.

(** ** The Puller and the Processor wait for each other *)

(** The Puller waits, inside its block, for room on the full event queue;
    the Processor, the queue's only consumer, waits in its exception
    handler for the lock. *)
Definition deadlocked (a : RayProcess) : Prop :=
  (∃ item upstream_name notifications prompted,
     pull_notifications_thread a
     = Some (PN_put item upstream_name notifications prompted)) ∧
  full (upstream_event_queue a) = true ∧
  process_events_thread a = Some PE_lock ∧
  event_reading_lock a = Some ProcessNotifications.

(** The arguments [start] gives to [RayProcess.remote] (lines 97-104) for
    one process class and pipeline id; the tracking records are those of
    the database the actor finds. *)
Definition actor_args (r : RayRunner.RayRunner) (process_class : ProcessClass)
    (pipeline_id : nat) (stored : list (string * nat)) : Args :=
  {| application_process_class := process_class;
     infrastructure_class := RayRunner.infrastructure_class r;
     arg_pipeline_id := pipeline_id;
     stored_tracking := stored |}.

(** The registry and the commands issued so far: every entry holds the
    handle of an actor spawned for its pipeline id with a class of its
    name. *)
Definition registered (classes : list (string * ProcessClass))
    (acc : list RayRunner.command * list (string * nat * nat)) : Prop :=
  ∀ n pid h, RayRunner.getitem acc.2 (n, pid) = Some h →
             ∃ c, acc.1 !! h = Some (RayRunner.Remote c pid) ∧ (n, c) ∈ classes.

(** ** The rounds of the Puller *)

(** The upstream the Puller reads at its next step, if it reads one (lines
    270-272): the first of the names left to its round, when the application
    has a reader for it. *)
Definition reads_next (a : RayProcess) : list string :=
  match pull_notifications_thread a, process a with
  | Some (PN_for_name (upstream_name :: _)), Some p =>
      if readers p !! upstream_name is Some _ then [upstream_name] else []
  | _, _ => []
  end.

(** The upstreams the Puller reads along an execution, in the order of the
    reads. *)
Fixpoint scanned (ls : list label) (a : RayProcess) : list string :=
  match ls with
  | [] => []
  | l :: ls =>
      match step l a with
      | None => []
      | Some a' =>
          (match l with StepPN => reads_next a | _ => [] end) ++ scanned ls a'
      end
  end.

(** The Puller is at the head of its loop (line 243). *)
Definition at_loop_head (a : RayProcess) : bool :=
  match pull_notifications_thread a with
  | Some PN_while => true
  | _ => false
  end.

(** The execution stays within one round of the Puller: the Puller is at the
    head of its loop in the last state at the earliest. *)
Fixpoint within_round (ls : list label) (a : RayProcess) : bool :=
  match ls with
  | [] => true
  | l :: ls =>
      negb (at_loop_head a)
      && match step l a with
         | None => true
         | Some a' => within_round ls a'
         end
  end.

(** The names left to the round the Puller is in. *)
Definition names_left (pc : pn_pc) : option (list string) :=
  match pc with
  | PN_lock prompted | PN_for_name prompted
  | PN_for_notification _ _ prompted | PN_put _ _ _ prompted => Some prompted
  | _ => None
  end.

(** ** Pulling and applying *)








(** The readers of the application, if there is one. *)
Definition readers_of (a : RayProcess) : option (gmap string nat) :=
  readers <$> process a.

(** What a step of the Processor outside its handler leaves as it is. *)
Definition puller_same (a b : RayProcess) : Prop :=
  pull_notifications_thread b = pull_notifications_thread a ∧
  readers_of b = readers_of a ∧
  has_been_prompted b = has_been_prompted a ∧
  prompted_names b = prompted_names a.




(** ** Concrete inputs *)

(** An actor for the process "payments", which follows "orders" and is
    followed by "shipping". *)
Definition example_args : Args :=
  {| application_process_class :=
       {| application_name := "payments"; isinstance_concrete := false |};
     infrastructure_class := Some {| issubclass_concrete := true |};
     arg_pipeline_id := 0; stored_tracking := [] |}.

Definition run_example (ls : list label) : RayProcess :=
  default (new_RayProcess example_args) (exec ls (new_RayProcess example_args)).

(** "orders" has published two notifications; the actor is wired and its
    loops are started. *)
Definition example_started : list label :=
  [Publish "orders" None "created"; Publish "orders" None "paid";
   CallInit ["orders"] ["shipping"]; CallRun].

(** The Puller has been prompted by "orders" and is about to choose the
    names of its round. *)
Definition example_prompted : list label :=
  example_started ++ [CallPrompt true "orders"; StepPN; StepPN; StepPN].

(** The Puller has gone through one whole round on a timeout, and the
    Processor has taken the first event off the queue and is about to apply
    it. *)
Definition example_processing : list label :=
  example_started ++ replicate 12 StepPN ++ replicate 3 StepPE.

(** A system of two processes, "orders" followed by "payments", without a
    concrete infrastructure of their own. *)
Definition example_system : RayRunner.System :=
  {| RayRunner.process_classes :=
       [("orders", {| application_name := "orders"; isinstance_concrete := false |});
        ("payments", {| application_name := "payments"; isinstance_concrete := false |})];
     RayRunner.upstream_names := [("orders", []); ("payments", ["orders"])];
     RayRunner.downstream_names := [("orders", ["payments"]); ("payments", [])] |}.

Definition example_runner : RayRunner.RayRunner :=
  {| RayRunner.system := example_system;
     RayRunner.infrastructure_class := Some {| issubclass_concrete := true |};
     RayRunner.pipeline_ids := [0];
     RayRunner.db_uri := Some "sqlite:///events.db";
     RayRunner.environ_DB_URI := None |}.

Definition example_runner_without_infrastructure : RayRunner.RayRunner :=
  {| RayRunner.system := example_system;
     RayRunner.infrastructure_class := None;
     RayRunner.pipeline_ids := [0];
     RayRunner.db_uri := Some "sqlite:///events.db";
     RayRunner.environ_DB_URI := None |}.

(** The runner of [example_runner] with its pipeline id listed twice. *)
Definition example_runner_repeated : RayRunner.RayRunner :=
  {| RayRunner.system := example_system;
     RayRunner.infrastructure_class := Some {| issubclass_concrete := true |};
     RayRunner.pipeline_ids := [0; 0];
     RayRunner.db_uri := Some "sqlite:///events.db";
     RayRunner.environ_DB_URI := None |}.

(** A schedule of the substrate for [example_runner_repeated]: four actors
    are spawned, the two of [ray_processes] are sent [init] and complete it,
    [ray.get] returns, and [run] is sent to the first of them. *)
Definition example_moves_repeated : list RayRunner.move :=
  replicate 6 RayRunner.Runner
    ++ [RayRunner.Actor 2 true; RayRunner.Actor 3 true;
        RayRunner.Runner; RayRunner.Runner].

(** A schedule of the substrate for [example_runner]: both actors are
    spawned and sent [init], both complete it, [ray.get] returns, and [run] is
    sent to the first actor. *)
Definition example_moves : list RayRunner.move :=
  [RayRunner.Runner; RayRunner.Runner; RayRunner.Runner; RayRunner.Runner;
   RayRunner.Actor 1 true; RayRunner.Actor 0 true;
   RayRunner.Runner; RayRunner.Runner].

(** A schedule of the substrate for [example_runner] in which the [init] of
    the second actor fails: the [ray.get] of line 128 raises, and the first
    actor completes its [init] afterwards. *)
Definition example_moves_init_fails : list RayRunner.move :=
  replicate 4 RayRunner.Runner
    ++ [RayRunner.Actor 1 false; RayRunner.Runner; RayRunner.Actor 0 true].

(** An application method that fails twice on a locked database, leaving a
    tracking record each time, then returns. *)
Definition example_getattr (application_method_name : string)
    : option (list string → ProcessApplication → outcome string * ProcessApplication) :=
  if decide (application_method_name = "pay") then
    Some (λ _ p, if bool_decide (length (tracking p) < 2)
                 then (Raise (OperationalError "database is locked"),
                       record_tracking "orders" (S (length (tracking p))) p)
                 else (Return "paid", p))
  else None.


(** The Pusher has taken a first prompt, fanned it out and waits for the
    acknowledgement; meanwhile the application has published 99 more
    prompts. *)
Definition example_backlog : list label :=
  example_started ++ [Publishes [PublishedPrompt "payments" 0]]
    ++ replicate 5 StepPP
    ++ replicate 99 (Publishes [PublishedPrompt "payments" 0]).

(** "orders" has published 102 notifications. The Puller reads them all in
    one round and fills the event queue; the Processor takes the first
    event; the Puller puts one more and waits for room to put the last; the
    application then fails on the first event. *)
Definition example_deadlock : list label :=
  replicate 102 (Publish "orders" None "created")
    ++ [CallInit ["orders"] ["shipping"]; CallRun]
    ++ replicate 207 StepPN ++ replicate 3 StepPE ++ [StepPN; StepPN]
    ++ [Answer (Raise (OperationalError "database is locked"))].

(** The system of [example_system] with a mistake: "orders" names a
    downstream process, "billing", that is no process of the system. *)
Definition example_runner_with_unknown_neighbour : RayRunner.RayRunner :=
  {| RayRunner.system :=
       {| RayRunner.process_classes := RayRunner.process_classes example_system;
          RayRunner.upstream_names := RayRunner.upstream_names example_system;
          RayRunner.downstream_names := [("orders", ["billing"]); ("payments", [])] |};
     RayRunner.infrastructure_class := Some {| issubclass_concrete := true |};
     RayRunner.pipeline_ids := [0];
     RayRunner.db_uri := Some "sqlite:///events.db";
     RayRunner.environ_DB_URI := None |}.

(** * Properties *)

(** ** Executions *)

Lemma exec_cons (l : label) (ls : list label) (a : RayProcess) :
  exec (l :: ls) a = step l a ≫= exec ls.
Proof. done. Qed.


(** ** Bounded retry *)

Section RetryFacts.
Context {St A : Type}.
Variable exc : exception → bool.
Variable func : St → outcome A * St.

Lemma before_attempt_S k s :
  before_attempt func (S k) s = before_attempt func k ((func s).2).
Proof.
  unfold before_attempt. induction k as [|k IH]; [done|].
  rewrite Nat.iter_succ, IH. done.
Qed.

(** [retry_loop] returns what its last call of [func] returned; every
    earlier call raised a retryable error; it stops early only on a result
    that is not retryable. *)
Lemma retry_loop_spec n s :
  ∃ k, (retry_loop exc func n s).2 = S k ∧ k ≤ n ∧
       (retry_loop exc func n s).1 = func (before_attempt func k s) ∧
       (∀ j, j < k → retryable exc (func (before_attempt func j s)).1 = true) ∧
       (k < n → retryable exc (retry_loop exc func n s).1.1 = false).
Proof.
  assert (Hstop : ∀ n s o s', func s = (o, s') → retryable exc o = false →
            retry_loop exc func n s = (o, s', 1)).
  { intros [|m] t o t' E Ho; simpl; rewrite E;
      destruct o as [v|e]; simpl in Ho; rewrite ?Ho; done. }
  revert s. induction n as [|n IH]; intros s.
  - exists 0. destruct (func s) as [o s'] eqn:E.
    destruct (retryable exc o) eqn:Ho.
    + destruct o as [v|e]; [done|]. simpl in *. rewrite E, Ho. simpl.
      repeat split; try done; intros; lia.
    + rewrite (Hstop _ _ _ _ E Ho). simpl. rewrite ?E.
      repeat split; try done; intros; lia.
  - destruct (func s) as [o s'] eqn:E.
    destruct (retryable exc o) eqn:Ho.
    + destruct o as [v|e]; [done|]. simpl in Ho.
      destruct (IH s') as (k & Hk & Hle & Hres & Hpre & Hlast).
      simpl. rewrite E, Ho.
      destruct (retry_loop exc func n s') as [[o' s''] calls]. simpl in *.
      exists (S k). rewrite before_attempt_S, E. simpl.
      split; [congruence|]. split; [lia|]. split; [done|]. split.
      * intros [|j] Hj.
        -- simpl. rewrite E. done.
        -- rewrite before_attempt_S, E. simpl. apply Hpre. lia.
      * intros; apply Hlast; lia.
    + exists 0. rewrite (Hstop _ _ _ _ E Ho). simpl. rewrite ?E.
      repeat split; try done; try lia.
Qed.
End RetryFacts.

(** ** [call] *)

(** C9. [call] is a bounded-retried passthrough to the wrapped application:
    it invokes the body at most 10 times; its result is the result of the
    last invocation, every earlier invocation having raised
    [OperationalError]; fewer than 10 invocations are made only when the
    last one did not raise [OperationalError]; with the application in
    place, an invocation is the application's own method on the arguments.
    Before [init], when the application is not yet constructed, [call] fails
    at its first and only invocation, with an error, and changes nothing. *)
Theorem call_bounded_retried_passthrough {value : Type}
    (getattr : string → option (list value → ProcessApplication →
                                outcome value * ProcessApplication))
    (application_method_name : string) (arguments : list value) (a : RayProcess) :
  let body := call_body getattr application_method_name arguments in
  let '(o, a', calls) := call getattr application_method_name arguments a in
  1 ≤ calls ≤ 10 ∧
  (o, a') = body (before_attempt body (calls - 1) a) ∧
  (∀ j, j < calls - 1 →
        ∃ msg, (body (before_attempt body j a)).1 = Raise (OperationalError msg)) ∧
  (calls < 10 → ∀ msg, o ≠ Raise (OperationalError msg)) ∧
  (∀ a0 p method, process a0 = Some p →
        getattr application_method_name = Some method →
        body a0 = ((method arguments p).1, set_process (Some (method arguments p).2) a0)) ∧
  (process a = None →
        calls = 1 ∧ a' = a ∧ o = Raise (AttributeError "process")).
Proof.
  intros body. unfold call, retry.
  destruct (retry_loop_spec is_OperationalError body (10 - 1) a)
    as (k & Hk & Hle & Hres & Hpre & Hlast).
  fold body.
  destruct (retry_loop is_OperationalError body (10 - 1) a) as [[o a'] calls] eqn:E.
  simpl in Hk, Hres, Hlast. subst calls.
  replace (S k - 1) with k by lia.
  split; [simpl in Hle; lia|]. split; [done|]. split; [|split; [|split]].
  - intros j Hj. specialize (Hpre j Hj).
    destruct (body (before_attempt body j a)).1 as [v|[]]; simpl in Hpre; try done.
    eauto.
  - intros Hlt msg ->. simpl in Hle. assert (k < 10 - 1) as Hk' by (simpl; lia).
    specialize (Hlast Hk'). done.
  - intros a0 p method Hp Hm. unfold body, call_body. rewrite Hp, Hm. simpl.
    destruct (method arguments p). done.
  - intros Hnone.
    assert (body a = (Raise (AttributeError "process"), a)) as Hb.
    { unfold body, call_body. rewrite Hnone. done. }
    destruct k as [|k].
    + simpl in Hres. rewrite Hb in Hres. by simplify_eq.
    + specialize (Hpre 0 ltac:(lia)). simpl in Hpre. rewrite Hb in Hpre. done.
Qed.

Lemma call_bounded_retried_passthrough_witness :
  (call example_getattr "pay" [] (new_RayProcess example_args)
   = (Raise (AttributeError "process"), new_RayProcess example_args, 1)) ∧
  (call example_getattr "pay" [] (run_example example_started)).1.1 = Return "paid" ∧
  (call example_getattr "pay" [] (run_example example_started)).2 = 3.
Proof.
  split.
  - pose proof (call_bounded_retried_passthrough example_getattr "pay" []
                  (new_RayProcess example_args)) as H.
    destruct (call example_getattr "pay" [] (new_RayProcess example_args))
      as [[o a'] calls].
    destruct H as (_ & _ & _ & _ & _ & H).
    destruct (H eq_refl) as (-> & -> & ->). reflexivity.
  - vm_compute. split; reflexivity.
Defined.

(** ** [enqueue_prompt] *)

(** C10, as the code has it. [enqueue_prompt], called with a batch, puts the
    first prompt of the batch on the push-prompt queue and nothing else:
    whatever follows the first prompt is dropped. (The put waits while the
    queue is full.) [init] subscribes it with the predicate [is_prompt]: when
    the application publishes a batch, the hook is called only for a batch of
    exactly one prompt; a published batch of any other length does not reach
    the hook, and nothing of it is put on the queue. *)
Theorem enqueue_prompt_puts_first_of_batch
    (logs downstream : list string) (a0 a : RayProcess)
    (first : Prompt) (others : list Prompt) :
  subscribed (init logs downstream a0).2 = true ∧
  (full (push_prompt_queue a) = false →
   enqueue_prompt (first :: others) a
   = Some (Return (), set_push_prompt_queue (push_prompt_queue a ++ [Some first]) a)) ∧
  (subscribed a = true →
   step (Publishes (first :: others)) a
   = if bool_decide (others = []) then
       if full (push_prompt_queue a) then None
       else Some (set_push_prompt_queue (push_prompt_queue a ++ [Some first]) a)
     else Some a) ∧
  (subscribed a = true → step (Publishes []) a = Some a) ∧
  (subscribed a = false → ∀ prompts, step (Publishes prompts) a = Some a).
Proof.
  split; [|split; [|split; [|split]]].
  - unfold init. simpl. by repeat case_match.
  - intros Hfull. unfold enqueue_prompt, put. by rewrite Hfull.
  - intros Hsub. unfold step, is_prompt, enqueue_prompt, put. rewrite Hsub.
    destruct others as [|second others]; simpl; [|done].
    by destruct (full (push_prompt_queue a)).
  - intros Hsub. unfold step, is_prompt. by rewrite Hsub.
  - intros Hsub prompts. unfold step. by rewrite Hsub.
Qed.

Lemma enqueue_prompt_puts_first_of_batch_witness :
  let a := (init ["orders"] ["shipping"] (new_RayProcess example_args)).2 in
  push_prompt_queue <$> step (Publishes [PublishedPrompt "payments" 0]) a
  = Some [Some (PublishedPrompt "payments" 0)] ∧
  (fst <$> enqueue_prompt [PublishedPrompt "payments" 0; PublishedPrompt "payments" 1] a)
  = Some (Return ()) ∧
  (push_prompt_queue ∘ snd
     <$> enqueue_prompt [PublishedPrompt "payments" 0; PublishedPrompt "payments" 1] a)
  = Some [Some (PublishedPrompt "payments" 0)].
Proof.
  intros a.
  destruct (enqueue_prompt_puts_first_of_batch ["orders"] ["shipping"]
              (new_RayProcess example_args) a
              (PublishedPrompt "payments" 0) []) as (Hs & _ & H & _).
  destruct (enqueue_prompt_puts_first_of_batch ["orders"] ["shipping"]
              (new_RayProcess example_args) a
              (PublishedPrompt "payments" 0) [PublishedPrompt "payments" 1])
    as (_ & H2 & _).
  split; [rewrite (H Hs); reflexivity|].
  rewrite (H2 eq_refl). split; reflexivity.
Defined.

(** The claim as the spec states it fails on a batch of two: the actor is
    subscribed, the application publishes two prompts, and the first one is
    not put on the queue, which stays empty. *)
Lemma published_batch_of_two_is_not_enqueued :
  let a := (init ["orders"] ["shipping"] (new_RayProcess example_args)).2 in
  subscribed a = true ∧
  step (Publishes [PublishedPrompt "payments" 0; PublishedPrompt "payments" 1]) a
  = Some a ∧
  push_prompt_queue a = [] ∧
  push_prompt_queue
    <$> step (Publishes [PublishedPrompt "payments" 0; PublishedPrompt "payments" 1]) a
  ≠ Some [Some (PublishedPrompt "payments" 0)].
Proof. repeat split. discriminate. Qed.

(** ** [reset_readers] *)

Lemma reset_fold_spec (l : list string) (p : ProcessApplication) :
  let p' := foldl (λ p u, set_reader_position_from_tracking_records u p) p l in
  tracking p' = tracking p ∧ name p' = name p ∧ pipeline_id p' = pipeline_id p ∧
  ∀ u, readers p' !! u
       = if decide (u ∈ l) then Some (recorded_position u (tracking p))
         else readers p !! u.
Proof.
  revert p. induction l as [|v l IH]; intros p; simpl.
  - repeat split; done.
  - destruct (IH (set_reader_position_from_tracking_records v p))
      as (Ht & Hn & Hp & Hr).
    simpl in *. repeat split; try done. intros u. rewrite Hr.
    destruct (decide (u ∈ l)) as [Hl|Hl], (decide (u ∈ v :: l)) as [Hvl|Hvl];
      try done.
    + exfalso. apply Hvl. by apply list_elem_of_further.
    + apply elem_of_cons in Hvl as [->|?]; [|done]. by rewrite lookup_insert_eq.
    + rewrite lookup_insert_ne; [done|]. intros ->. apply Hvl, list_elem_of_here.
Qed.

(** [reset_readers] puts every reader at the tracking position of its
    upstream, and touches nothing else of the application. *)
Lemma reset_process_readers_spec (p : ProcessApplication) :
  tracking (reset_process_readers p) = tracking p ∧
  name (reset_process_readers p) = name p ∧
  pipeline_id (reset_process_readers p) = pipeline_id p ∧
  ∀ u, readers (reset_process_readers p) !! u
       = (λ _, recorded_position u (tracking p)) <$> readers p !! u.
Proof.
  destruct (reset_fold_spec (elements (dom (readers p))) p) as (Ht & Hn & Hp & Hr).
  unfold reset_process_readers. repeat split; try done.
  intros u. rewrite Hr. case_decide as H.
  - apply elem_of_elements, elem_of_dom in H as [x ->]. done.
  - rewrite elem_of_elements, elem_of_dom in H.
    destruct (readers p !! u) eqn:E; [|done]. exfalso. eauto.
Qed.

(** ** The Processor's two outcomes *)

(** C7. When [process_upstream_event] returns, the Processor enqueues one
    [RayPrompt] carrying the process's name and pipeline id if the list of new
    events is not empty (the put waits while the prompt queue is full), and
    goes back to the head of its loop without touching the prompt queue if
    the list is empty. *)
Theorem process_events_prompts_once (a : RayProcess)
    (item : DomainEvent * nat * string) (p : ProcessApplication)
    (new_events : list DomainEvent) :
  process_events_thread a = Some (PE_process item) →
  process a = Some p →
  let prompt := RayPrompt (name p) (pipeline_id p) in
  ∃ a1, step (Answer (Return new_events)) a = Some a1 ∧
        push_prompt_queue a1 = push_prompt_queue a ∧
        process a1 = Some (record_tracking item.2 item.1.2 p) ∧
        (new_events = [] → process_events_thread a1 = Some PE_while) ∧
        (new_events ≠ [] →
         process_events_thread a1 = Some (PE_put prompt) ∧
         ∀ a2, process_events_thread a2 = Some (PE_put prompt) →
               full (push_prompt_queue a2) = false →
               step StepPE a2
               = Some (at_pe PE_while
                         (set_push_prompt_queue (push_prompt_queue a2 ++ [Some prompt]) a2))).
Proof.
  intros Hpc Hp prompt. destruct item as [[e n] u].
  unfold step, step_process_upstream_event. rewrite Hpc, Hp. simpl.
  destruct new_events as [|e' es]; eexists; (split; [done|]); simpl;
    repeat split; try done.
  intros a2 Hpc2 Hfull. unfold step_process_events, put.
  rewrite Hpc2. simpl. rewrite Hfull. done.
Qed.

(** ** The Processor's recovery *)


(** ** [RayRunner.start]: the pre-flight check *)

Lemma check_infrastructure_raises (infra : option InfrastructureClass)
    (classes : list ProcessClass) :
  (∃ c, c ∈ classes ∧ isinstance_concrete c = false) →
  (infra = None ∨ ∃ i, infra = Some i ∧ issubclass_concrete i = false) →
  ∃ msg, RayRunner.check_infrastructure infra classes = Raise (ProgrammingError msg).
Proof.
  intros (c & Hin & Hc) Hinfra. induction classes as [|c' classes IH].
  - by apply not_elem_of_nil in Hin.
  - simpl. destruct (isinstance_concrete c') eqn:Hc'; simpl.
    + apply IH. apply elem_of_cons in Hin as [->|?]; [congruence|done].
    + destruct Hinfra as [->|(i & -> & ->)]; simpl; eauto.
Qed.

Lemma exec_cluster_nothing_pending (ms : list RayRunner.move) (c c' : RayRunner.cluster) :
  RayRunner.pending c = [] → RayRunner.actors c = [] →
  RayRunner.exec_cluster ms c = Some c' → c' = c.
Proof.
  intros Hp Ha. destruct ms as [|[|h ok] ms]; simpl.
  - congruence.
  - unfold RayRunner.step_runner. rewrite Hp. done.
  - unfold RayRunner.step_actor. rewrite Ha. done.
Qed.

(** C6. When some process class has no concrete infrastructure of its own
    (it is not an instance of [ApplicationWithConcreteInfrastructure]) and the
    runner's infrastructure class is unset, or is not a subclass of it,
    [start] fails with [ProgrammingError], the class the module raises for
    this configuration error, before it issues any command: no actor is ever
    spawned, however the substrate is scheduled. *)
Theorem start_fails_fast_without_infrastructure (r : RayRunner.RayRunner) :
  (∃ c, c ∈ (RayRunner.process_classes (RayRunner.system r)).*2 ∧
        isinstance_concrete c = false) →
  (RayRunner.infrastructure_class r = None ∨
   ∃ i, RayRunner.infrastructure_class r = Some i ∧ issubclass_concrete i = false) →
  (∃ msg, RayRunner.start r = ([], Raise (ProgrammingError msg))) ∧
  (∀ ms c, RayRunner.exec_cluster ms (RayRunner.boot r) = Some c →
           RayRunner.actors c = []).
Proof.
  intros Hc Hinfra.
  destruct (check_infrastructure_raises _ _ Hc Hinfra) as [msg Hmsg].
  assert (RayRunner.start r = ([], Raise (ProgrammingError msg))) as Hstart.
  { unfold RayRunner.start. rewrite Hmsg. done. }
  split; [eauto|]. intros ms c Hexec.
  apply exec_cluster_nothing_pending in Hexec as ->; [done| |done].
  unfold RayRunner.boot. simpl. rewrite Hstart. done.
Qed.

Lemma start_fails_fast_without_infrastructure_witness :
  RayRunner.start example_runner_without_infrastructure
  = ([], Raise (ProgrammingError "infrastructure_class is not set")).
Proof.
  destruct (start_fails_fast_without_infrastructure
              example_runner_without_infrastructure) as [[msg Hmsg] _].
  - eexists. split; [apply list_elem_of_here|reflexivity].
  - left. reflexivity.
  - rewrite Hmsg. revert Hmsg. vm_compute. intros [= <-]. reflexivity.
Defined.

(** ** [RayRunner.start]: two phases *)

Section TwoPhaseStart.
Import RayRunner.

Lemma setitem_fresh {K V} `{EqDecision K} (d : list (K * V)) (k : K) (v : V) :
  k ∉ d.*1 → setitem d k v = d ++ [(k, v)].
Proof.
  induction d as [|[k' v'] d IH]; simpl; [done|]. intros Hk.
  rewrite not_elem_of_cons in Hk. destruct Hk as [Hne Hk].
  case_decide; [congruence|]. by rewrite IH.
Qed.

Lemma spawned_app (l k : list command) : spawned (l ++ k) = spawned l + spawned k.
Proof. unfold spawned. by rewrite filter_app, length_app. Qed.

Lemma spawned_all_Remote (l : list command) :
  Forall (λ c, is_Remote c = true) l → spawned l = length l.
Proof.
  unfold spawned. induction 1 as [|c l Hc _ IH]; [done|].
  rewrite filter_cons. destruct (decide (is_Remote c)) as [|Hn]; simpl.
  - by rewrite IH.
  - rewrite Hc in Hn. by destruct Hn.
Qed.

Lemma spawned_no_Remote (l : list command) :
  Forall (λ c, is_Remote c = false) l → spawned l = 0.
Proof.
  unfold spawned. induction 1 as [|c l Hc _ IH]; [done|].
  rewrite filter_cons. destruct (decide (is_Remote c)) as [Hy|]; simpl; [|done].
  rewrite Hc in Hy. done.
Qed.

(** The inner loop of lines 96-105, for one pipeline id. *)
Lemma spawn_inner_spec (pipeline_id : nat) (classes : list (string * ProcessClass))
    (cmds : list command) (ray_processes : list (string * nat * handle)) :
  Forall (λ c, is_Remote c = true) cmds →
  ray_processes.*2 = seq 0 (length cmds) →
  NoDup classes.*1 →
  (∀ n, n ∈ classes.*1 → (n, pipeline_id) ∉ ray_processes.*1) →
  let r := foldl (λ '(cmds, ray_processes) '(process_name, process_class),
                    (cmds ++ [Remote process_class pipeline_id],
                     setitem ray_processes (process_name, pipeline_id) (length cmds)))
                 (cmds, ray_processes) classes in
  Forall (λ c, is_Remote c = true) r.1 ∧
  r.2.*2 = seq 0 (length r.1) ∧
  (∀ k, k ∈ r.2.*1 → k ∈ ray_processes.*1 ∨ k.2 = pipeline_id).
Proof.
  revert cmds ray_processes.
  induction classes as [|[n c] classes IH]; intros cmds rp Hall Hseq Hnd Hfresh; simpl.
  - repeat split; try done. by left.
  - apply NoDup_cons in Hnd as [Hn Hnd].
    rewrite setitem_fresh by (apply Hfresh; simpl; apply list_elem_of_here).
    edestruct (IH (cmds ++ [Remote c pipeline_id])
                  (rp ++ [(n, pipeline_id, length cmds)])) as (H1 & H2 & H3).
    + apply Forall_app. split; [done|]. by repeat constructor.
    + rewrite fmap_app, length_app, Hseq. simpl.
      rewrite Nat.add_1_r, seq_S. done.
    + done.
    + intros n' Hn'. rewrite fmap_app, not_elem_of_app. split.
      * apply Hfresh. simpl. by apply list_elem_of_further.
      * simpl. rewrite list_elem_of_singleton. intros [= ->]. done.
    + repeat split; try done. intros k Hk. destruct (H3 k Hk) as [Hin|?]; [|by right].
      rewrite fmap_app, elem_of_app in Hin. destruct Hin as [?|Hin]; [by left|].
      simpl in Hin. apply list_elem_of_singleton in Hin as ->. by right.
Qed.

(** Lines 95-105: with distinct identities, the handles stored in
    [ray_processes] are those of all the actors spawned. *)
Lemma spawn_all_spec (r : RayRunner) :
  distinct_identities r →
  Forall (λ c, is_Remote c = true) (spawn_all r).1 ∧
  (spawn_all r).2.*2 = seq 0 (length (spawn_all r).1).
Proof.
  intros [Hnames Hpids]. unfold spawn_all.
  assert (∀ pids acc,
    Forall (λ c, is_Remote c = true) acc.1 →
    acc.2.*2 = seq 0 (length acc.1) →
    NoDup pids →
    (∀ k, k ∈ acc.2.*1 → k.2 ∉ pids) →
    let res := foldl (λ acc pipeline_id,
                 foldl (λ '(cmds, ray_processes) '(process_name, process_class),
                          (cmds ++ [Remote process_class pipeline_id],
                           setitem ray_processes (process_name, pipeline_id) (length cmds)))
                       acc (process_classes (system r))) acc pids in
    Forall (λ c, is_Remote c = true) res.1 ∧ res.2.*2 = seq 0 (length res.1)) as Hgen.
  { induction pids as [|pid pids IH]; intros [cmds rp] Hall Hseq Hnd Hfresh; simpl.
    - done.
    - apply NoDup_cons in Hnd as [Hpid Hnd].
      destruct (spawn_inner_spec pid (process_classes (system r)) cmds rp)
        as (H1 & H2 & H3); try done.
      { intros n _ Hin. apply (Hfresh _ Hin). simpl. apply list_elem_of_here. }
      apply IH; try done.
      intros k Hk Hkp. destruct (H3 k Hk) as [Hin|Heq].
      + apply (Hfresh _ Hin). by apply list_elem_of_further.
      + congruence. }
  apply (Hgen (pipeline_ids r) ([], [])); simpl; try done.
  intros k Hk. by apply not_elem_of_nil in Hk.
Qed.

Lemma init_all_commands (r : RayRunner) (ray_processes entries : list (string * nat * handle)) :
  Forall (λ c, is_Remote c = false ∧ is_RunRemote c = false)
         (init_all r ray_processes entries).1.
Proof.
  induction entries as [|[[n pid] h] entries IH]; simpl; [done|].
  repeat case_match; simpl; try done.
  constructor; [done|]. simplify_eq. done.
Qed.

(** What [start] issues: nothing; or the spawns and some [init.remote]
    calls; or all of its five phases. *)
Lemma start_commands (r : RayRunner) :
  ∃ spawns rp inits,
    spawn_all r = (spawns, rp) ∧
    Forall (λ c, is_Remote c = false ∧ is_RunRemote c = false) inits ∧
    ((start r).1 = [] ∨ (start r).1 = spawns ++ inits ∨
     (start r).1 = (spawns ++ inits ++ [GetInit rp.*2])
                   ++ ((RunRemote <$> rp.*2) ++ [GetRun rp.*2])).
Proof.
  destruct (spawn_all r) as [spawns rp] eqn:Hsp.
  pose proof (init_all_commands r rp rp) as Hi.
  destruct (init_all r rp rp) as [inits o] eqn:Hin. simpl in Hi.
  exists spawns, rp, inits. split; [done|]. split; [done|].
  unfold start.
  destruct (check_infrastructure _ _) as [[]|e]; [|by left].
  destruct (truthy (env_DB_URI r)); simpl; [|by left].
  rewrite Hsp, Hin. destruct o as [[]|e]; simpl.
  - right. right. by rewrite <- !app_assoc.
  - right. by left.
Qed.

(** Every command of the loop of lines 95-105 is a spawn. *)
Lemma spawn_all_Remote (r : RayRunner) :
  Forall (λ c, is_Remote c = true) (spawn_all r).1.
Proof.
  unfold spawn_all.
  assert (∀ pid classes (acc : list command * list (string * nat * handle)),
    Forall (λ c, is_Remote c = true) acc.1 →
    Forall (λ c, is_Remote c = true)
      (foldl (λ '(cmds, ray_processes) '(process_name, process_class),
                (cmds ++ [Remote process_class pid],
                 setitem ray_processes (process_name, pid) (length cmds)))
             acc classes).1) as Hinner.
  { intros pid classes. induction classes as [|[n c] classes IH];
      intros [cmds rp] Hall; simpl; [done|].
    apply IH. simpl. apply Forall_app. split; [done|]. by repeat constructor. }
  assert (∀ pids (acc : list command * list (string * nat * handle)),
    Forall (λ c, is_Remote c = true) acc.1 →
    Forall (λ c, is_Remote c = true)
      (foldl (λ acc pipeline_id,
                foldl (λ '(cmds, ray_processes) '(process_name, process_class),
                         (cmds ++ [Remote process_class pipeline_id],
                          setitem ray_processes (process_name, pipeline_id) (length cmds)))
                      acc (process_classes (system r)))
             acc pids).1) as Houter.
  { induction pids as [|pid pids IH]; intros acc Hacc; simpl; [done|].
    apply IH. by apply Hinner. }
  by apply Houter.
Qed.

(** The shape of what [start] issues: a [RunRemote] comes only after every
    [Remote] and after the [GetInit] that waits for all the actors of
    [ray_processes], and is followed by [RunRemote] and [GetRun] only. *)
Lemma start_shape (r : RayRunner) (pre post : list command) (h : handle) :
  (start r).1 = pre ++ RunRemote h :: post →
  spawned pre = spawned (start r).1 ∧
  spawned (start r).1 = length (spawn_all r).1 ∧
  GetInit (spawn_all r).2.*2 ∈ pre ∧
  Forall (λ c, match c with RunRemote _ | GetRun _ => True | _ => False end) post.
Proof.
  pose proof (spawn_all_Remote r) as Hrem.
  destruct (start_commands r) as (spawns & rp & inits & Hsp & Hi & Hshape).
  rewrite Hsp in Hrem. rewrite Hsp. simpl in Hrem. simpl.
  assert (Forall (λ c, is_Remote c = false) inits) as Hi1.
  { eapply Forall_impl; [exact Hi|]. by intros ? [? ?]. }
  assert (Forall (λ c, is_RunRemote c = false) inits) as Hi2.
  { eapply Forall_impl; [exact Hi|]. by intros ? [? ?]. }
  destruct Hshape as [->|[->| ->]]; intros Hc.
  - by destruct pre.
  - (* [init_all] raised: no [RunRemote] was issued *)
    exfalso.
    assert (RunRemote h ∈ spawns ++ inits) as Hin.
    { rewrite Hc. apply elem_of_app. right. apply list_elem_of_here. }
    apply elem_of_app in Hin as [Hin|Hin].
    + eapply Forall_forall in Hrem; [|done]. done.
    + eapply Forall_forall in Hi2; [|done]. done.
  - set (A := spawns ++ inits ++ [GetInit rp.*2]) in *.
    set (B := (RunRemote <$> rp.*2) ++ [GetRun rp.*2]) in *.
    assert (Forall (λ c, is_RunRemote c = false) A) as HA.
    { unfold A. rewrite !Forall_app. repeat split; [|done|by repeat constructor].
      eapply Forall_impl; [exact Hrem|]. by intros []. }
    assert (Forall (λ c, is_Remote c = false) B) as HB.
    { unfold B. rewrite Forall_app. split; [|by repeat constructor].
      apply Forall_fmap, Forall_true. done. }
    assert (spawned A = length spawns) as HsA.
    { unfold A. rewrite !spawned_app, (spawned_all_Remote spawns Hrem).
      rewrite (spawned_no_Remote inits Hi1), (spawned_no_Remote [_]);
        [lia|by repeat constructor]. }
    assert (Forall (λ c, match c with RunRemote _ | GetRun _ => True | _ => False end) B)
      as HB2.
    { unfold B. rewrite Forall_app. split; [|by repeat constructor].
      apply Forall_fmap, Forall_true. done. }
    assert (∃ k, pre = A ++ k ∧ B = k ++ RunRemote h :: post) as (k & -> & HBk).
    { apply app_eq_inv in Hc as [(k & HA' & Hk)|(k & Hpre & Hk)].
      - destruct k as [|c k].
        + exists []. rewrite app_nil_r in HA'. split; [by rewrite app_nil_r|done].
        + simpl in Hk. injection Hk as <- _. exfalso.
          rewrite HA' in HA. apply Forall_app in HA as [_ HA].
          by apply Forall_cons in HA as [? _].
      - eauto. }
    pose proof HB as HB'.
    rewrite HBk in HB. apply Forall_app in HB as [Hk Hk'].
    rewrite HBk in HB2. apply Forall_app in HB2 as [_ HB2].
    apply Forall_cons in HB2 as [_ HB2].
    rewrite !spawned_app, (spawned_no_Remote k Hk), (spawned_no_Remote B HB').
    split; [lia|]. split; [lia|]. split; [|done].
    apply elem_of_app. left. unfold A. rewrite !elem_of_app. right. right.
    apply list_elem_of_here.
Qed.

Lemma run_invoked_submit_TInit (a : actor) :
  run_invoked (submit TInit a) = run_invoked a.
Proof.
  unfold run_invoked, submit. simpl. f_equal.
  apply bool_decide_ext. rewrite elem_of_app, list_elem_of_singleton.
  split; [by intros [?|?]|intros ?; by left].
Qed.

(** One step of the substrate: what has been executed stays executed, and
    [run] is invoked on an actor only by the runner's [RunRemote]. *)
Lemma step_cluster_actors (m : move) (c c' : cluster) :
  step_cluster m c = Some c' →
  (∀ h a, actors c !! h = Some a →
     ∃ a', actors c' !! h = Some a' ∧ ∀ x, x ∈ executed a → x ∈ executed a') ∧
  (∀ h a', actors c' !! h = Some a' → run_invoked a' = true →
     (∃ a, actors c !! h = Some a ∧ run_invoked a = true) ∨
     (∃ h0 rest, m = Runner ∧ pending c = RunRemote h0 :: rest)).
Proof.
  destruct m as [|h0 ok]; simpl.
  - unfold step_runner. destruct (pending c) as [|cmd rest] eqn:Hp; [done|].
    destruct cmd as [pc pid|h0 ups downs|hs|h0|hs].
    + intros [= <-]. simpl. split.
      * intros h a Ha. exists a. split; [by apply lookup_app_l_Some|done].
      * intros h a' Ha' Hrun. left.
        apply lookup_app_Some in Ha' as [?|[_ Ha']]; [by eauto|].
        destruct (h - length (actors c)); simpl in Ha'; simplify_eq.
    + intros [= <-]. simpl. split.
      * intros h a Ha. rewrite list_lookup_alter. case_decide; subst.
        -- rewrite Ha. simpl. eauto.
        -- eauto.
      * intros h a'. rewrite list_lookup_alter. case_decide; subst; [|by eauto].
        destruct (actors c !! h) as [a|] eqn:Ha; simpl; [|done].
        intros [= <-]. rewrite run_invoked_submit_TInit. eauto.
    + unfold after_get. destruct (ray_get TInit hs c) as [[]|]; intros [= <-];
        simpl; split; eauto.
    + intros [= <-]. simpl. split.
      * intros h a Ha. rewrite list_lookup_alter. case_decide; subst.
        -- rewrite Ha. simpl. eauto.
        -- eauto.
      * intros h a' _ _. right. eauto.
    + unfold after_get. destruct (ray_get TRun hs c) as [[]|]; intros [= <-];
        simpl; split; eauto.
  - unfold step_actor. destruct (actors c !! h0) as [a0|] eqn:Ha0; simpl; [|done].
    destruct (mailbox a0) as [|t ts] eqn:Hm; [done|]. intros [= <-]. simpl.
    pose proof (lookup_lt_Some _ _ _ Ha0) as Hlt. split.
    + intros h a Ha. destruct (decide (h0 = h)) as [->|Hne].
      * rewrite list_lookup_insert_eq by done.
        assert (a = a0) as -> by congruence.
        eexists. split; [done|]. simpl. intros x Hx. apply elem_of_app. by left.
      * rewrite list_lookup_insert_ne by done. eauto.
    + intros h a'. destruct (decide (h0 = h)) as [->|Hne].
      * rewrite list_lookup_insert_eq by done. intros [= <-] Hrun. left.
        exists a0. split; [done|]. unfold run_invoked in *. simpl in Hrun.
        rewrite Hm. apply orb_true_iff in Hrun as [Hrun|Hrun];
          apply bool_decide_eq_true in Hrun; apply orb_true_iff.
        -- left. apply bool_decide_eq_true. by apply list_elem_of_further.
        -- rewrite fmap_app, elem_of_app in Hrun. destruct Hrun as [Hrun|Hrun].
           ++ right. by apply bool_decide_eq_true.
           ++ left. apply bool_decide_eq_true. simpl in Hrun.
              apply list_elem_of_singleton in Hrun as ->. apply list_elem_of_here.
      * rewrite list_lookup_insert_ne by done. eauto.
Qed.

Lemma completed_mono (m : move) (c c' : cluster) (t : task) (ok : bool) (h : handle) :
  step_cluster m c = Some c' →
  completed t ok c h = true → completed t ok c' h = true.
Proof.
  intros Hstep. destruct (step_cluster_actors m c c' Hstep) as [Hmono _].
  unfold completed. destruct (actors c !! h) as [a|] eqn:Ha; [|done].
  destruct (Hmono h a Ha) as (a' & -> & Hsub).
  rewrite !bool_decide_eq_true. apply Hsub.
Qed.

Lemma spawned_snoc (l : list command) (cmd : command) :
  spawned (l ++ [cmd]) = spawned l + (if is_Remote cmd then 1 else 0).
Proof.
  rewrite spawned_app. f_equal. unfold spawned. rewrite filter_cons.
  destruct (decide (is_Remote cmd)) as [H|H]; destruct (is_Remote cmd); done.
Qed.

Lemma cluster_inv_step (cmds : list command) (m : move) (c c' : cluster) :
  cluster_inv cmds c → step_cluster m c = Some c' → cluster_inv cmds c'.
Proof.
  intros (ex & rest & Hc & Hp & Hlen & Hrun & Hget) Hstep.
  destruct (step_cluster_actors m c c' Hstep) as [Hmono Horigin].
  pose proof (λ t ok h, completed_mono m c c' t ok h Hstep) as Hcompl.
  destruct m as [|h0 ok]; simpl in Hstep.
  - unfold step_runner in Hstep.
    destruct (pending c) as [|cmd rest0] eqn:Hpend; [done|].
    destruct Hp as [<-|?]; [|done].
    assert (cmds = (ex ++ [cmd]) ++ rest0) as Hc' by (by rewrite <- app_assoc).
    assert (∀ h a, actors c' !! h = Some a → run_invoked a = true →
                   ∃ h', RunRemote h' ∈ ex ++ [cmd]) as Hrun'.
    { intros h a' Ha' Hr.
      destruct (Horigin h a' Ha' Hr) as [(a & Ha & Hra)|(h1 & rest1 & _ & Heq)].
      - destruct (Hrun h a Ha Hra) as [h' Hin]. exists h'.
        apply elem_of_app. by left.
      - exists h1. simplify_eq. apply elem_of_app. right. apply list_elem_of_here. }
    assert (∀ hs h, GetInit hs ∈ ex → h ∈ hs → completed TInit true c' h = true)
      as Hget' by (intros hs h ? ?; apply Hcompl; eauto).
    destruct cmd as [pc pid|h0 ups downs|hs|h0|hs].
    + simplify_eq. exists (ex ++ [Remote pc pid]), rest0. simpl.
      split; [done|]. split; [by left|]. split; [|split; [done|]].
      * rewrite length_app, spawned_snoc. simpl. lia.
      * intros hs h Hin. apply elem_of_app in Hin as [Hin|Hin]; [by eauto|].
        by apply list_elem_of_singleton in Hin.
    + simplify_eq. exists (ex ++ [InitRemote h0 ups downs]), rest0. simpl.
      split; [done|]. split; [by left|]. split; [|split; [done|]].
      * rewrite length_alter, spawned_snoc. simpl. lia.
      * intros hs h Hin. apply elem_of_app in Hin as [Hin|Hin]; [by eauto|].
        by apply list_elem_of_singleton in Hin.
    + unfold after_get in Hstep.
      destruct (ray_get TInit hs c) as [[]|] eqn:Hrg; simplify_eq.
      * exists (ex ++ [GetInit hs]), rest0. simpl.
        split; [done|]. split; [by left|]. split; [|split; [done|]].
        -- rewrite spawned_snoc. simpl. lia.
        -- intros hs' h Hin Hh. apply elem_of_app in Hin as [Hin|Hin]; [by eauto|].
           apply list_elem_of_singleton in Hin. simplify_eq.
           unfold ray_get in Hrg.
           destruct (existsb _ hs); [done|].
           destruct (forallb (completed TInit true c) hs) eqn:Hall; [|done].
           rewrite forallb_forall in Hall. apply Hall. by apply list_elem_of_In.
      * exists ex, (GetInit hs :: rest0). simpl.
        split; [done|]. split; [by right|]. split; [done|]. split; [|done].
        intros h a Ha Hr. apply (Hrun h a); done.
    + simplify_eq. exists (ex ++ [RunRemote h0]), rest0. simpl.
      split; [done|]. split; [by left|]. split; [|split; [done|]].
      * rewrite length_alter, spawned_snoc. simpl. lia.
      * intros hs h Hin. apply elem_of_app in Hin as [Hin|Hin]; [by eauto|].
        by apply list_elem_of_singleton in Hin.
    + unfold after_get in Hstep.
      destruct (ray_get TRun hs c) as [[]|] eqn:Hrg; simplify_eq.
      * exists (ex ++ [GetRun hs]), rest0. simpl.
        split; [done|]. split; [by left|]. split; [|split; [done|]].
        -- rewrite spawned_snoc. simpl. lia.
        -- intros hs' h Hin Hh. apply elem_of_app in Hin as [Hin|Hin]; [by eauto|].
           by apply list_elem_of_singleton in Hin.
      * exists ex, (GetRun hs :: rest0). simpl.
        split; [done|]. split; [by right|]. split; [done|]. split; [|done].
        intros h a Ha Hr. apply (Hrun h a); done.
  - exists ex, rest.
    assert (pending c' = pending c ∧ length (actors c') = length (actors c)) as [Hp' Hl'].
    { unfold step_actor in Hstep. destruct (actors c !! h0); simpl in Hstep; [|done].
      destruct (mailbox a); simplify_eq. simpl. by rewrite length_insert. }
    rewrite Hp', Hl'. repeat split; try done.
    + intros h a' Ha' Hr.
      destruct (Horigin h a' Ha' Hr) as [(a & Ha & Hra)|(? & ? & ? & _)]; [|done].
      by apply (Hrun h a).
    + intros hs h ? ?. apply Hcompl. eauto.
Qed.

Lemma cluster_inv_exec (cmds : list command) (ms : list move) (c c' : cluster) :
  cluster_inv cmds c → exec_cluster ms c = Some c' → cluster_inv cmds c'.
Proof.
  revert c. induction ms as [|m ms IH]; intros c Hinv; simpl.
  - by intros [= <-].
  - destruct (step_cluster m c) as [c1|] eqn:Hstep; simpl; [|done].
    apply IH. by eapply cluster_inv_step.
Qed.

Lemma cluster_inv_boot (r : RayRunner) : cluster_inv (start r).1 (boot r).
Proof.
  exists [], (start r).1. simpl. repeat split; try done.
  - by left.
  - intros hs h H. by apply not_elem_of_nil in H.
Qed.
End TwoPhaseStart.

(** C4, as the code has it. However the substrate schedules the tasks, once
    [run] has been invoked on any actor, [start] has spawned all its actors
    and every actor of [ray_processes] has completed [init]: the [ray.get]
    of line 128 has returned before the first [run.remote] of line 132. When
    the process names and the pipeline ids are distinct, [ray_processes] holds
    every actor spawned, and so every actor spawned has completed [init]. *)
Theorem start_inits_all_before_any_run (r : RayRunner.RayRunner)
    (ms : list RayRunner.move) (c : RayRunner.cluster) :
  RayRunner.exec_cluster ms (RayRunner.boot r) = Some c →
  (∃ h a, RayRunner.actors c !! h = Some a ∧ RayRunner.run_invoked a = true) →
  length (RayRunner.actors c) = RayRunner.spawned (RayRunner.start r).1 ∧
  (∀ h, h ∈ (RayRunner.spawn_all r).2.*2 →
        RayRunner.completed RayRunner.TInit true c h = true) ∧
  (RayRunner.distinct_identities r →
   ∀ h a, RayRunner.actors c !! h = Some a → RayRunner.init_completed a = true).
Proof.
  intros Hexec (h & a & Ha & Hr).
  destruct (cluster_inv_exec _ _ _ _ (cluster_inv_boot r) Hexec)
    as (ex & rest & Hc & _ & Hlen & Hrun & Hget).
  destruct (Hrun h a Ha Hr) as [h' Hin].
  apply list_elem_of_split in Hin as (pre & post & ->).
  assert ((RayRunner.start r).1 = pre ++ RayRunner.RunRemote h' :: post ++ rest) as Hc'.
  { rewrite Hc, <- app_assoc. done. }
  destruct (start_shape r pre (post ++ rest) h' Hc') as (Hsp & Hall & Hgi & _).
  assert (length (RayRunner.actors c) = RayRunner.spawned (RayRunner.start r).1) as Hn.
  { pose proof (f_equal RayRunner.spawned Hc) as Hs.
    rewrite !spawned_app in Hs. rewrite Hlen, spawned_app. lia. }
  assert (∀ h0, h0 ∈ (RayRunner.spawn_all r).2.*2 →
                RayRunner.completed RayRunner.TInit true c h0 = true) as Hreg.
  { intros h0 Hh0. apply (Hget (RayRunner.spawn_all r).2.*2); [|done].
    apply elem_of_app. by left. }
  split; [done|]. split; [done|]. intros Hd h0 a0 Ha0.
  destruct (spawn_all_spec r Hd) as [_ Hseq].
  assert (RayRunner.completed RayRunner.TInit true c h0 = true) as Hcompl.
  { apply Hreg. rewrite Hseq. apply elem_of_seq.
    pose proof (lookup_lt_Some _ _ _ Ha0). lia. }
  unfold RayRunner.completed in Hcompl. rewrite Ha0 in Hcompl. done.
Qed.

Lemma start_inits_all_before_any_run_witness :
  let c := default (RayRunner.boot example_runner)
             (RayRunner.exec_cluster example_moves (RayRunner.boot example_runner)) in
  length (RayRunner.actors c) = 2 ∧
  ∀ h a, RayRunner.actors c !! h = Some a → RayRunner.init_completed a = true.
Proof.
  intros c.
  destruct (start_inits_all_before_any_run example_runner example_moves c)
    as (Hlen & _ & Hall).
  - vm_compute. reflexivity.
  - exists 0. eexists. split; vm_compute; reflexivity.
  - split; [exact Hlen|]. apply Hall.
    split; [apply (bool_decide_unpack (NoDup ["orders"; "payments"]))
           |apply (bool_decide_unpack (NoDup [0]))]; vm_compute; exact I.
Defined.

(** C4, the claim as the spec states it fails when a pipeline id is listed
    twice: [start] spawns four actors, the second two replace the first two
    in [ray_processes], and [run] is invoked on an actor while the first two
    have not been sent [init] at all. *)
Lemma run_before_init_of_replaced_actors :
  ∃ c, RayRunner.exec_cluster example_moves_repeated
         (RayRunner.boot example_runner_repeated) = Some c ∧
       length (RayRunner.actors c) = 4 ∧
       (∃ a, RayRunner.actors c !! 2 = Some a ∧ RayRunner.run_invoked a = true) ∧
       (∃ a, RayRunner.actors c !! 0 = Some a ∧ RayRunner.init_completed a = false ∧
             RayRunner.mailbox a = [] ∧ RayRunner.executed a = []) ∧
       (∃ a, RayRunner.actors c !! 1 = Some a ∧ RayRunner.init_completed a = false ∧
             RayRunner.mailbox a = [] ∧ RayRunner.executed a = []) ∧
       ∀ h ups downs,
         RayRunner.InitRemote h ups downs ∈ (RayRunner.start example_runner_repeated).1 →
         h = 2 ∨ h = 3.
Proof.
  eexists. split; [vm_compute; reflexivity|].
  split; [reflexivity|]. split; [eexists; split; reflexivity|].
  split; [eexists; repeat split; reflexivity|].
  split; [eexists; repeat split; reflexivity|].
  intros h ups downs.
  assert ((RayRunner.start example_runner_repeated).1
          = [RayRunner.Remote {| application_name := "orders";
                                 isinstance_concrete := false |} 0;
             RayRunner.Remote {| application_name := "payments";
                                 isinstance_concrete := false |} 0;
             RayRunner.Remote {| application_name := "orders";
                                 isinstance_concrete := false |} 0;
             RayRunner.Remote {| application_name := "payments";
                                 isinstance_concrete := false |} 0;
             RayRunner.InitRemote 2 [] ["payments"];
             RayRunner.InitRemote 3 ["orders"] [];
             RayRunner.GetInit [2; 3];
             RayRunner.RunRemote 2; RayRunner.RunRemote 3;
             RayRunner.GetRun [2; 3]]) as -> by (vm_compute; reflexivity).
  rewrite !elem_of_cons, elem_of_nil.
  intros [?|[?|[?|[?|[?|[?|[?|[?|[?|[?|[]]]]]]]]]]]; simplify_eq; auto.
Qed.

Lemma process_events_prompts_once_witness :
  let a := run_example example_processing in
  ∃ a1, step (Answer (Return [EventOf "refunded"])) a = Some a1 ∧
        process_events_thread a1 = Some (PE_put (RayPrompt "payments" 0)) ∧
        push_prompt_queue <$> step StepPE a1 = Some [Some (RayPrompt "payments" 0)].
Proof.
  intros a.
  destruct (process_events_prompts_once a (EventOf "created", 1, "orders")
              (default (new_ProcessApplication example_args) (process a))
              [EventOf "refunded"])
    as (a1 & Hstep & Hq & _ & _ & Hput); [vm_compute; reflexivity..|].
  destruct Hput as [Hpc Hput]; [done|].
  exists a1. split; [done|]. split; [exact Hpc|].
  rewrite (Hput a1 Hpc); [|rewrite Hq; vm_compute; reflexivity].
  simpl. rewrite Hq. vm_compute. reflexivity.
Defined.


(** ** Causal dependencies *)

Lemma check_causal_dependencies_mono (p p' : ProcessApplication) (u : string)
    (deps : option (list (string * nat))) :
  (∀ d, d ∈ tracking p → d ∈ tracking p') →
  check_causal_dependencies p u deps = true →
  check_causal_dependencies p' u deps = true.
Proof.
  intros Hsub. destruct deps as [ds|]; simpl; [|done].
  rewrite !forallb_forall. intros H d Hd. specialize (H d Hd).
  rewrite bool_decide_eq_true in *. auto.
Qed.

(** An admitted item stays admitted while the logs and the tracking records
    only grow. *)
Lemma admitted_mono (a a' : RayProcess) (item : DomainEvent * nat * string) :
  (∀ u n, n ∈ log_of a u → n ∈ log_of a' u) →
  (∀ p, process a = Some p →
        ∃ p', process a' = Some p' ∧ ∀ d, d ∈ tracking p → d ∈ tracking p') →
  admitted a item → admitted a' item.
Proof.
  intros Hlogs Hproc (n & p & Hn & Hid & Hev & Hp & Hcheck).
  destruct (Hproc p Hp) as (p' & Hp' & Hsub).
  exists n, p'. repeat split; try done; [by apply Hlogs|].
  by eapply check_causal_dependencies_mono.
Qed.

Lemma log_of_publish (a : RayProcess) (u v : string) deps pl (n : Notification) :
  n ∈ log_of a u → n ∈ log_of (publish v deps pl a) u.
Proof.
  unfold log_of, publish. simpl. intros Hn.
  destruct (decide (v = u)) as [->|Hne].
  - rewrite lookup_insert_eq. simpl. apply elem_of_app. by left.
  - by rewrite lookup_insert_ne.
Qed.


(** How a step preserves [causal_inv]: the logs and the tracking records
    only grow, and whatever is newly held has passed the check. *)
Lemma causal_inv_update (a a' : RayProcess) :
  causal_inv a →
  upstream_logs a' = upstream_logs a →
  (∀ u n, n ∈ log_of a u → n ∈ log_of a' u) →
  (∀ p, process a = Some p →
        ∃ p', process a' = Some p' ∧ ∀ d, d ∈ tracking p → d ∈ tracking p') →
  (process a = None →
   process a' = None ∧ pull_notifications_thread a' = None ∧
   process_events_thread a' = None ∧ upstream_event_queue a' = []) →
  (∀ item, item ∈ handed_over a' → item ∈ handed_over a ∨ admitted a' item) →
  (∀ u n, (u, n) ∈ being_read a' → (u, n) ∈ being_read a ∨ n ∈ log_of a' u) →
  causal_inv a'.
Proof.
  intros ([Hw1 Hw2] & Hadm & Hread) Hlogs Hgrow Hproc Hnone Hitems Hbeing.
  split; [split|split].
  - rewrite Hlogs. intros Hl. by apply Hnone, Hw1.
  - intros Hp'. destruct (process a) as [p|] eqn:Hp.
    + destruct (Hproc p eq_refl) as (p' & Hp'' & _). congruence.
    + by destruct Hnone as (_ & ? & ? & ?).
  - apply Forall_forall. intros item Hin. destruct (Hitems item Hin) as [Hold|]; [|done].
    eapply admitted_mono; [done..|]. rewrite Forall_forall in Hadm. by apply Hadm.
  - intros u n Hin. destruct (Hbeing u n Hin) as [Hold|]; [|done].
    by apply Hgrow, Hread.
Qed.


Ltac mem_left :=
  let Hin := fresh in
  intros ? Hin; left; revert Hin;
  repeat (rewrite elem_of_app || rewrite elem_of_cons || rewrite elem_of_nil); tauto.

Ltac held := unfold handed_over, held_by_process_events,
  held_by_process_notifications, being_read, log_of.

(* Side conditions of [causal_inv_update] when the step keeps the logs, the
   application and what the loops hold. *)
Ltac frame Hw :=
  match goal with
  | |- causal_inv _ =>
      eapply causal_inv_update; [eassumption|done|done|by eauto| | |]
  end;
  [ let Hp := fresh in
    intros Hp; destruct Hw as [_ Hw]; destruct (Hw Hp) as (? & ? & ?);
    simpl in *; repeat split; congruence
  | held; simpl
  | held; simpl ].

Lemma causal_inv_step (l : label) (a a' : RayProcess) :
  causal_inv a → step l a = Some a' → causal_inv a'.
Proof.
  intros Hinv Hstep. pose proof Hinv as (Hw & Hadm & Hread).
  destruct l; simpl in Hstep.
  - (* Publish *) simplify_eq.
    apply (causal_inv_update a); simpl; eauto using log_of_publish.
    destruct Hw as [_ Hw]. intros Hp. by destruct (Hw Hp) as (? & ? & ?).
  - (* CallInit *)
    destruct (idle a && bool_decide (upstream_logs a = None)) eqn:Hen; [|done].
    apply andb_prop in Hen as [_ Hlogs]. apply bool_decide_eq_true in Hlogs.
    destruct Hw as [Hw1 Hw2]. specialize (Hw1 Hlogs). destruct (Hw2 Hw1) as (Hpn & Hpe & Hq).
    unfold init in Hstep. simpl in Hstep.
    destruct (isinstance_concrete _); [|destruct (negb _)];
      simplify_eq; split; [split|split|split|split| |]; simpl; try done.
    all: held; simpl; rewrite ?Hpn, ?Hpe, ?Hq; simpl; try done.
    all: split; [done|]; intros ? ? Hin; by apply not_elem_of_nil in Hin.
  - (* CallRun *)
    destruct (idle a && _); [|done]. unfold run, reset_readers in Hstep.
    destruct (process a) as [p|] eqn:Hp; simpl in Hstep; simplify_eq.
    + destruct (reset_process_readers_spec p) as (Ht & _).
      eapply causal_inv_update; [eassumption|done|done| | | |]; simpl.
      * intros ? Hp'. eexists. split; [done|]. rewrite Ht. congruence.
      * congruence.
      * held. simpl. intros item Hin. left.
        rewrite app_nil_r in Hin. rewrite !elem_of_app. auto.
      * held. simpl. intros ? ? Hin. by apply not_elem_of_nil in Hin.
    + frame Hw; auto.
  - (* CallPrompt *)
    destruct (idle a); [|done]. simplify_eq. unfold prompt.
    destruct is_prompt_to_pull; frame Hw; auto.
  - (* CallStop *)
    destruct (idle a); [|done]. simplify_eq. frame Hw; auto.
  - (* StepStop *)
    unfold step_stop in Hstep.
    destruct (main_thread a); try done; simplify_eq; try (frame Hw; by auto).
    + unfold put in Hstep. destruct (full _); simpl in Hstep; simplify_eq.
      frame Hw; auto.
    + destruct (pull_notifications_thread a) as [pc|] eqn:Hpc;
        [destruct (finished_pn pc || timeout)|]; simplify_eq; frame Hw; rewrite ?Hpc; auto.
    + destruct (push_prompts_thread a) as [pc|] eqn:Hpc;
        [destruct (finished_pp pc || timeout)|]; simplify_eq; frame Hw; auto.
  - (* Publishes *)
    destruct (subscribed a && is_prompt prompts); [|simplify_eq; done].
    unfold enqueue_prompt, put in Hstep. destruct prompts as [|first ?]; simpl in Hstep.
    + simplify_eq. done.
    + destruct (full _); simpl in Hstep; simplify_eq. frame Hw; auto.
  - (* StepPN *)
    unfold step_process_notifications in Hstep.
    destruct (pull_notifications_thread a) as [pc|] eqn:Hpc; [|done].
    simpl in Hstep. destruct pc.
    all: try (repeat case_match; simplify_eq; frame Hw; rewrite ?Hpc; by auto).
    all: try done.
    + (* PN_for_name *)
      destruct prompted as [|u prompted]; simplify_eq.
      { frame Hw; rewrite ?Hpc; auto. }
      destruct (process a) as [p|] eqn:Hp; simplify_eq;
        [|frame Hw; rewrite ?Hpc; by auto].
      destruct (readers p !! u) as [pos|] eqn:Hpos; simplify_eq;
        [|frame Hw; rewrite ?Hpc; by auto].
      eapply causal_inv_update; [eassumption|done|done| | | |]; simpl.
      * intros ? Hp'. eexists. split; [done|]. simpl. congruence.
      * congruence.
      * held. simpl. rewrite Hpc. auto.
      * held. simpl. intros u' n Hin. right.
        apply list_elem_of_fmap in Hin as (n' & [= <- <-] & Hin).
        unfold read in Hin. by apply list_elem_of_filter in Hin as [_ ?].
    + (* PN_for_notification *)
      destruct notifications as [|n ns]; simplify_eq.
      { frame Hw; rewrite ?Hpc; auto. }
      destruct (process a) as [p|] eqn:Hp; simplify_eq;
        [|frame Hw; rewrite ?Hpc; auto;
          intros ? ? Hin; by apply not_elem_of_nil in Hin].
      destruct (check_causal_dependencies p upstream_name (causal_dependencies n))
        eqn:Hcheck; simplify_eq.
      * eapply causal_inv_update; [eassumption|done|done|by eauto| | |]; simpl.
        -- congruence.
        -- held. simpl. rewrite Hpc. intros item Hin.
           rewrite !elem_of_app in Hin. destruct Hin as [?|[?|Hin]].
           ++ left. rewrite !elem_of_app. auto.
           ++ left. rewrite !elem_of_app. auto.
           ++ right. apply list_elem_of_singleton in Hin as ->.
              exists n, p. simpl. repeat split; try done.
              apply Hread. unfold being_read. rewrite Hpc. simpl.
              apply list_elem_of_here.
        -- held. simpl. rewrite Hpc. simpl. intros u' n' Hin. left.
           by apply list_elem_of_further.
      * frame Hw; rewrite ?Hpc; auto.
        intros ? ? Hin. by apply not_elem_of_nil in Hin.
    + (* PN_put *)
      unfold put in Hstep. destruct (full _); simpl in Hstep; simplify_eq.
      frame Hw; rewrite ?Hpc; simpl; auto.
      intros it Hin. left. by rewrite app_nil_r in Hin.
  - (* StepPE *)
    unfold step_process_events in Hstep.
    destruct (process_events_thread a) as [pc|] eqn:Hpc; [|done].
    simpl in Hstep. destruct pc.
    all: try (repeat case_match; simplify_eq; frame Hw; rewrite ?Hpc; by auto).
    all: try done.
    + (* PE_get *)
      destruct (upstream_event_queue a) as [|item q] eqn:Hq; simpl in Hstep;
        simplify_eq; frame Hw; rewrite ?Hpc, ?Hq; simpl; auto; mem_left.
    + (* PE_got *)
      destruct (has_been_stopped a); simplify_eq; frame Hw; rewrite ?Hpc; simpl; auto;
        mem_left.
    + (* PE_reset *)
      unfold reset_readers in Hstep.
      destruct (process a) as [p|] eqn:Hp; simplify_eq;
        [|frame Hw; rewrite ?Hpc; by auto].
      destruct (reset_process_readers_spec p) as (Ht & _).
      eapply causal_inv_update; [eassumption|done|done| | | |]; simpl.
      * intros ? Hp'. eexists. split; [done|]. rewrite Ht. congruence.
      * congruence.
      * held. simpl. rewrite Hpc. auto.
      * auto.
    + (* PE_clear *)
      simplify_eq. frame Hw; rewrite ?Hpc; simpl; auto; mem_left.
    + (* PE_put *)
      unfold put in Hstep. destruct (full _); simpl in Hstep; simplify_eq.
      frame Hw; rewrite ?Hpc; simpl; auto.
  - (* Answer *)
    unfold step_process_upstream_event in Hstep.
    destruct (process_events_thread a) as [pc|] eqn:Hpc; [|done].
    simpl in Hstep. destruct pc; try done. destruct item as [[e i] u].
    destruct (process a) as [p|] eqn:Hp;
      [destruct answer as [[|e' es]|err]|]; simplify_eq.
    1,2: eapply causal_inv_update; [eassumption|done|done| | | |]; simpl.
    all: try (frame Hw; rewrite ?Hpc; simpl; auto; mem_left).
    all: try congruence.
    all: try (held; simpl; rewrite ?Hpc; simpl; auto; mem_left).
    all: intros ? Hp'; eexists; (split; [done|]); simpl; intros d Hd;
      apply elem_of_app; left; congruence.
  - (* StepPP *)
    unfold step_push_prompts in Hstep.
    destruct (push_prompts_thread a) as [pc|] eqn:Hpc; [|done].
    simpl in Hstep. destruct pc.
    all: repeat case_match; simplify_eq; try done; frame Hw; by auto.
  - (* Acknowledge *)
    unfold step_ray_get in Hstep.
    destruct (push_prompts_thread a) as [pc|] eqn:Hpc; [|done].
    simpl in Hstep. destruct pc; try done.
    repeat case_match; simplify_eq; try done; frame Hw; by auto.
Qed.

Lemma causal_inv_exec (ls : list label) (a a' : RayProcess) :
  causal_inv a → exec ls a = Some a' → causal_inv a'.
Proof.
  revert a. induction ls as [|l ls IH]; intros a Hinv; simpl.
  - by intros [= <-].
  - destruct (step l a) as [a1|] eqn:Hstep; simpl; [|done].
    apply IH. by eapply causal_inv_step.
Qed.

Lemma causal_inv_new (args0 : Args) : causal_inv (new_RayProcess args0).
Proof.
  split; [done|]. split; [by constructor|].
  intros u n Hin. by apply not_elem_of_nil in Hin.
Qed.

(** The event queue grows by the Puller's put only. *)
Lemma event_queue_grows_by_put (l : label) (a a' : RayProcess) :
  step l a = Some a' →
  length (upstream_event_queue a) < length (upstream_event_queue a') →
  l = StepPN ∧
  ∃ item, held_by_process_notifications a = [item] ∧
          upstream_event_queue a' = upstream_event_queue a ++ [item].
Proof.
  intros Hstep Hlen. destruct l; simpl in Hstep.
  - simplify_eq. unfold publish in Hlen. simpl in Hlen. lia.
  - destruct (idle a && _); [|done]. unfold init in Hstep. simpl in Hstep.
    destruct (isinstance_concrete _); [|destruct (negb _)];
      simplify_eq; simpl in Hlen; lia.
  - destruct (idle a && _); [|done]. unfold run, reset_readers in Hstep.
    destruct (process a); simpl in Hstep; simplify_eq; simpl in Hlen; lia.
  - destruct (idle a); [|done]. unfold prompt in Hstep.
    destruct is_prompt_to_pull; simplify_eq; simpl in Hlen; lia.
  - destruct (idle a); simplify_eq. simpl in Hlen. lia.
  - unfold step_stop, put in Hstep.
    repeat case_match; simpl in Hstep; simplify_eq; simpl in Hlen; lia.
  - destruct (subscribed a && is_prompt prompts); [|simplify_eq; lia].
    unfold enqueue_prompt, put in Hstep.
    repeat case_match; simpl in Hstep; simplify_eq; simpl in Hlen; lia.
  - split; [done|]. unfold step_process_notifications in Hstep.
    unfold held_by_process_notifications.
    destruct (pull_notifications_thread a) as [pc|]; [|done]. simpl in Hstep.
    destruct pc; try done.
    all: try (repeat case_match; simplify_eq; simpl in Hlen; lia).
    unfold put in Hstep. destruct (full _); simpl in Hstep; simplify_eq.
    eexists. split; done.
  - unfold step_process_events, reset_readers, put in Hstep.
    destruct (process_events_thread a) as [pc|]; [|done]. simpl in Hstep.
    destruct pc; try done.
    all: try (repeat case_match; simpl in Hstep; simplify_eq; simpl in Hlen; lia).
    destruct (upstream_event_queue a) eqn:Hq; simpl in Hstep; simplify_eq;
      simpl in Hlen; rewrite ?Hq in Hlen; simpl in Hlen; lia.
  - unfold step_process_upstream_event in Hstep.
    destruct (process_events_thread a) as [pc|]; [|done]. simpl in Hstep.
    destruct pc; try done.
    repeat case_match; simplify_eq; simpl in Hlen; lia.
  - unfold step_push_prompts in Hstep.
    destruct (push_prompts_thread a) as [pc|]; [|done]. simpl in Hstep.
    destruct pc; try done.
    all: repeat case_match; simplify_eq; simpl in Hlen; lia.
  - unfold step_ray_get in Hstep.
    destruct (push_prompts_thread a) as [pc|]; [|done]. simpl in Hstep.
    destruct pc; try done.
    repeat case_match; simplify_eq; simpl in Hlen; lia.
Qed.

(** C2. In the Puller loop the check of a notification's causal
    dependencies comes before the put of its event: at line 276 the thread
    either raises, leaving the event queue as it is, or goes on to put the
    decoded event; and nothing but that put adds to the event queue. Hence,
    in every execution, each item the Processor holds, each item on the
    event queue and the item the Puller is about to put comes from a
    notification of its upstream whose declared causal dependencies are all
    applied locally. *)
Theorem causal_dependencies_checked_before_put (args0 : Args) (ls : list label)
    (a : RayProcess) :
  exec ls (new_RayProcess args0) = Some a →
  Forall (admitted a) (handed_over a) ∧
  (∀ u n ns names p,
     pull_notifications_thread a = Some (PN_for_notification u (n :: ns) names) →
     process a = Some p →
     ∃ a', step StepPN a = Some a' ∧
           upstream_event_queue a' = upstream_event_queue a ∧
           pull_notifications_thread a'
           = Some (if check_causal_dependencies p u (causal_dependencies n)
                   then PN_put (get_event_from_notification n, notification_id n, u)
                               u ns names
                   else PN_raised (CausalDependencyFailed u))) ∧
  (∀ l a', step l a = Some a' →
     length (upstream_event_queue a) < length (upstream_event_queue a') →
     l = StepPN ∧
     ∃ item, held_by_process_notifications a = [item] ∧
             upstream_event_queue a' = upstream_event_queue a ++ [item] ∧
             admitted a item).
Proof.
  intros Hexec.
  destruct (causal_inv_exec _ _ _ (causal_inv_new args0) Hexec) as (_ & Hadm & _).
  split; [done|]. split.
  - intros u n ns names p Hpc Hp.
    unfold step, step_process_notifications. rewrite Hpc. simpl. rewrite Hp.
    destruct (check_causal_dependencies p u (causal_dependencies n));
      eexists; split; done.
  - intros l a' Hstep Hlen.
    destruct (event_queue_grows_by_put l a a' Hstep Hlen) as (-> & item & Hheld & Hq).
    split; [done|]. exists item. repeat split; try done.
    rewrite Forall_forall in Hadm. apply Hadm. unfold handed_over.
    rewrite Hheld, !elem_of_app. right. right. apply list_elem_of_here.
Qed.

Lemma causal_dependencies_checked_before_put_witness :
  let a := run_example (example_started ++ replicate 6 StepPN) in
  Forall (admitted a) (handed_over a) ∧
  ∃ a', step StepPN a = Some a' ∧
        upstream_event_queue a' = [] ∧
        pull_notifications_thread a'
        = Some (PN_put (EventOf "created", 1, "orders") "orders"
                  [{| notification_id := 2; causal_dependencies := None;
                      payload := "paid" |}] []).
Proof.
  intros a.
  destruct (causal_dependencies_checked_before_put example_args
              (example_started ++ replicate 6 StepPN) a) as (Hadm & Hcheck & _);
    [vm_compute; reflexivity|].
  split; [exact Hadm|].
  destruct (Hcheck "orders"
              {| notification_id := 1; causal_dependencies := None; payload := "created" |}
              [{| notification_id := 2; causal_dependencies := None; payload := "paid" |}]
              [] (default (new_ProcessApplication example_args) (process a)))
    as (a' & Hstep & Hq & Hpc); [vm_compute; reflexivity..|].
  exists a'. split; [exact Hstep|]. split; [rewrite Hq; vm_compute; reflexivity|].
  rewrite Hpc. reflexivity.
Defined.

(** ** The order of application *)

Lemma consecutive_from_nil (t : nat) : consecutive_from t [].
Proof. done. Qed.



























(** ** [stop] *)

Lemma elem_le_sum_list (l : list nat) (x : nat) : x ∈ l → x ≤ sum_list l.
Proof.
  induction l as [|y l IH]; [by intros ?%not_elem_of_nil|].
  rewrite elem_of_cons. simpl. intros [->|Hin]; [lia|]. specialize (IH Hin). lia.
Qed.

(** No read returns more than what all the logs hold. *)
Lemma read_length (a : RayProcess) (u : string) (position : nat) :
  length (read (default [] (notification_logs a !! u)) position) ≤ total_logged a.
Proof.
  unfold read, total_logged.
  etrans; [apply length_filter|].
  destruct (notification_logs a !! u) as [l|] eqn:Hl; simpl; [|lia].
  apply elem_le_sum_list. apply list_elem_of_fmap. exists l. split; [done|].
  apply list_elem_of_fmap. exists (u, l). split; [done|].
  by apply elem_of_map_to_list.
Qed.

Lemma names_bound_logs (a : RayProcess) (logs : list string) :
  upstream_logs a = Some logs → length logs ≤ names_bound a.
Proof. unfold names_bound. intros ->. simpl. lia. Qed.

Lemma names_bound_prompted (a : RayProcess) :
  length (elements (prompted_names a)) ≤ names_bound a.
Proof.
  unfold names_bound.
  change (length (elements (prompted_names a))) with (size (prompted_names a)).
  pose proof (subseteq_size (prompted_names a)
    (prompted_names a ∪ list_to_set (default [] (upstream_logs a)))) as H.
  etrans; [apply H; apply union_subseteq_l|]. lia.
Qed.

Ltac fuel :=
  unfold steps_left, pn_fuel, pe_fuel, pp_fuel, per_name, names_bound, total_logged in *;
  simpl in *.

(** Once the stop signal is set, every step of a loop brings the loops
    closer to their end. *)
Lemma loop_step_decreases (l : label) (a a' : RayProcess) :
  is_loop_step l = true →
  has_been_stopped a = true →
  step l a = Some a' →
  has_been_stopped a' = true ∧ steps_left a' < steps_left a.
Proof.
  intros Hl Hs Hstep. destruct l; try done; simpl in Hstep.
  - (* StepPN *)
    unfold step_process_notifications in Hstep.
    destruct (pull_notifications_thread a) as [pc|] eqn:Hpc; [|done].
    simpl in Hstep. rewrite ?Hs in Hstep. destruct pc; try done.
    all: try (simplify_eq; split; [done|]; fuel; rewrite Hpc; lia).
    + (* PN_names *)
      pose proof (names_bound_prompted a) as Hnb.
      destruct is_timeout; [destruct (upstream_logs a) as [logs|] eqn:Hul|];
        simplify_eq; (split; [done|]).
      * pose proof (names_bound_logs a logs Hul). fuel. rewrite Hpc, Hul in *.
        simpl in *. nia.
      * fuel. rewrite Hpc. lia.
      * fuel. rewrite Hpc. nia.
    + (* PN_lock *)
      destruct (event_reading_lock a); simplify_eq. split; [done|].
      fuel. rewrite Hpc. lia.
    + (* PN_for_name *)
      destruct prompted as [|u prompted]; simplify_eq.
      { split; [done|]. fuel. rewrite Hpc. lia. }
      destruct (process a) as [p|]; simplify_eq;
        [|split; [done|]; fuel; rewrite Hpc; lia].
      destruct (readers p !! u) as [pos|]; simplify_eq;
        [|split; [done|]; fuel; rewrite Hpc; lia].
      split; [done|]. pose proof (read_length a u pos). fuel. rewrite Hpc.
      simpl. lia.
    + (* PN_for_notification *)
      destruct notifications as [|n ns]; simplify_eq.
      { split; [done|]. fuel. rewrite Hpc. simpl. lia. }
      destruct (process a) as [p|]; simplify_eq;
        [|split; [done|]; fuel; rewrite Hpc; simpl; lia].
      destruct (check_causal_dependencies _ _ _); simplify_eq;
        (split; [done|]); fuel; rewrite Hpc; simpl; lia.
    + (* PN_put *)
      unfold put in Hstep. destruct (full _); simpl in Hstep; simplify_eq.
      split; [done|]. fuel. rewrite Hpc. lia.
  - (* StepPE *)
    unfold step_process_events, reset_readers, put in Hstep.
    destruct (process_events_thread a) as [pc|] eqn:Hpc; [|done].
    simpl in Hstep. rewrite ?Hs in Hstep. destruct pc; try done.
    all: try (simplify_eq; split; [done|]; fuel; rewrite Hpc; lia).
    + (* PE_get *)
      destruct (upstream_event_queue a) as [|item q]; simpl in Hstep; simplify_eq;
        (split; [done|]); fuel; rewrite Hpc; lia.
    + (* PE_lock *)
      destruct (event_reading_lock a); simplify_eq. split; [done|].
      fuel. rewrite Hpc. lia.
    + (* PE_reset *)
      destruct (process a); simplify_eq; (split; [done|]); fuel; rewrite Hpc; lia.
    + (* PE_prompted *)
      destruct (upstream_logs a) as [logs|] eqn:Hul; simplify_eq; (split; [done|]).
      * fuel. rewrite Hpc, Hul. simpl.
        replace (prompted_names a ∪ list_to_set logs ∪ list_to_set logs)
          with (prompted_names a ∪ list_to_set logs)
          by (by rewrite <- (assoc_L (∪)), (idemp_L (∪))).
        lia.
      * fuel. rewrite Hpc. lia.
    + (* PE_put *)
      destruct (full _); simpl in Hstep; simplify_eq. split; [done|].
      fuel. rewrite Hpc. lia.
  - (* Answer *)
    unfold step_process_upstream_event in Hstep.
    destruct (process_events_thread a) as [pc|] eqn:Hpc; [|done].
    simpl in Hstep. destruct pc; try done. destruct item as [[e i] u].
    destruct (process a) as [p|], answer as [[|e' es]|err]; simplify_eq;
      (split; [done|]); fuel; rewrite Hpc; lia.
  - (* StepPP *)
    unfold step_push_prompts in Hstep.
    destruct (push_prompts_thread a) as [pc|] eqn:Hpc; [|done].
    simpl in Hstep. rewrite ?Hs in Hstep. destruct pc; try done.
    all: try (simplify_eq; split; [done|]; fuel; rewrite Hpc; lia).
    + destruct (push_prompt_queue a) as [|pr q]; simpl in Hstep; simplify_eq;
        (split; [done|]); fuel; rewrite Hpc; lia.
    + destruct downstream as [|d ds]; simplify_eq; (split; [done|]); fuel;
        rewrite ?Hs, Hpc; lia.
  - (* Acknowledge *)
    unfold step_ray_get in Hstep.
    destruct (push_prompts_thread a) as [pc|] eqn:Hpc; [|done].
    simpl in Hstep. destruct pc; try done.
    repeat case_match; simplify_eq; (split; [done|]); fuel; rewrite Hpc; lia.
Qed.

Lemma loop_steps_bounded (ls : list label) (a a' : RayProcess) :
  forallb is_loop_step ls = true →
  has_been_stopped a = true →
  exec ls a = Some a' →
  has_been_stopped a' = true ∧ length ls + steps_left a' ≤ steps_left a.
Proof.
  revert a. induction ls as [|l ls IH]; intros a Hls Hs; simpl.
  - intros [= <-]. split; [done|lia].
  - simpl in Hls. apply andb_prop in Hls as [Hl Hls].
    destruct (step l a) as [a1|] eqn:Hstep; simpl; [|done]. intros Hexec.
    destruct (loop_step_decreases l a a1 Hl Hs Hstep) as [Hs1 Hlt].
    destruct (IH a1 Hls Hs1 Hexec) as [Hs' Hle]. split; [done|lia].
Qed.

(** The effect of one whole call of [stop] on an actor whose loops were
    started. *)
Lemma stop_call_effect (a : RayProcess) (pc1 : pn_pc) (pc2 : pp_pc)
    (timeout_pull timeout_push : bool) :
  idle a = true →
  pull_notifications_thread a = Some pc1 →
  push_prompts_thread a = Some pc2 →
  finished_pn pc1 || timeout_pull = true →
  finished_pp pc2 || timeout_push = true →
  full (push_prompt_queue a) = false →
  ∃ a', exec (stop_call timeout_pull timeout_push) a = Some a' ∧
        main_thread a' = Returned None ∧
        has_been_stopped a' = true ∧
        has_been_prompted a' = true ∧
        subscribed a' = false ∧
        push_prompt_queue a' = push_prompt_queue a ++ [None] ∧
        pull_notifications_thread a' = Some pc1 ∧
        process_events_thread a' = process_events_thread a ∧
        push_prompts_thread a' = Some pc2.
Proof.
  intros Hidle Hpn Hpp Hj1 Hj2 Hfull.
  set (a1 := set_main_thread ST_set a).
  set (a2 := set_main_thread ST_put (set_has_been_stopped true a1)).
  set (a3 := set_main_thread ST_prompted
               (set_push_prompt_queue (push_prompt_queue a ++ [None]) a2)).
  set (a4 := set_main_thread ST_join_pull (set_has_been_prompted true a3)).
  set (a5 := set_main_thread ST_join_push a4).
  set (a6 := set_main_thread ST_unsubscribe a5).
  set (a7 := set_main_thread (Returned None) (set_subscribed false a6)).
  assert (step CallStop a = Some a1) as H1 by (simpl; by rewrite Hidle).
  assert (step (StepStop false) a1 = Some a2) as H2 by done.
  assert (step (StepStop false) a2 = Some a3) as H3.
  { simpl. unfold step_stop, put. simpl. by rewrite Hfull. }
  assert (step (StepStop false) a3 = Some a4) as H4 by done.
  assert (step (StepStop timeout_pull) a4 = Some a5) as H5.
  { simpl. unfold step_stop. simpl. by rewrite Hpn, Hj1. }
  assert (step (StepStop timeout_push) a5 = Some a6) as H6.
  { simpl. unfold step_stop. simpl. by rewrite Hpp, Hj2. }
  assert (step (StepStop false) a6 = Some a7) as H7 by done.
  exists a7. split; [|by repeat split].
  unfold stop_call.
  rewrite exec_cons, H1. cbn [mbind option_bind].
  rewrite exec_cons, H2. cbn [mbind option_bind].
  rewrite exec_cons, H3. cbn [mbind option_bind].
  rewrite exec_cons, H4. cbn [mbind option_bind].
  rewrite exec_cons, H5. cbn [mbind option_bind].
  rewrite exec_cons, H6. cbn [mbind option_bind].
  rewrite exec_cons, H7. done.
Qed.

Lemma stuck_in_stop_step (l : label) (a a' : RayProcess) :
  stuck_in_stop a → step l a = Some a' → stuck_in_stop a'.
Proof.
  intros (Hs & Hfull & Hpp & Hmain) Hstep.
  assert (idle a = false) as Hidle by (unfold idle; by destruct Hmain as [-> | ->]).
  destruct l; simpl in Hstep; rewrite ?Hidle in Hstep; try done.
  - by simplify_eq.
  - unfold step_stop, put in Hstep.
    destruct Hmain as [Hm|Hm]; rewrite Hm in Hstep; simplify_eq.
    + repeat split; try done. by right.
    + by rewrite Hfull in Hstep.
  - destruct (subscribed a && is_prompt prompts); [|by simplify_eq].
    unfold enqueue_prompt, put in Hstep. destruct prompts; simpl in Hstep.
    + by simplify_eq.
    + by rewrite Hfull in Hstep.
  - unfold step_process_notifications, put in Hstep.
    destruct (pull_notifications_thread a) as [pc|]; [|done]. simpl in Hstep.
    destruct pc; try done.
    all: repeat case_match; simpl in Hstep; by simplify_eq.
  - unfold step_process_events, reset_readers, put in Hstep.
    destruct (process_events_thread a) as [pc|]; [|done]. simpl in Hstep.
    rewrite ?Hfull in Hstep.
    destruct pc; try done.
    all: repeat case_match; simpl in Hstep; by simplify_eq.
  - unfold step_process_upstream_event in Hstep.
    destruct (process_events_thread a) as [pc|]; [|done]. simpl in Hstep.
    destruct pc; try done. repeat case_match; by simplify_eq.
  - unfold step_push_prompts in Hstep.
    destruct (push_prompts_thread a) as [pc|] eqn:Hpc; [|done]. simpl in Hstep.
    rewrite ?Hs in Hstep.
    destruct pc; try done.
    all: repeat case_match; by simplify_eq.
  - unfold step_ray_get in Hstep.
    destruct (push_prompts_thread a) as [pc|] eqn:Hpc; [|done]. simpl in Hstep.
    destruct pc; try done. repeat case_match; by simplify_eq.
Qed.

Lemma stuck_in_stop_exec (ls : list label) (a a' : RayProcess) :
  stuck_in_stop a → exec ls a = Some a' → stuck_in_stop a'.
Proof.
  revert a. induction ls as [|l ls IH]; intros a Hst; simpl.
  - by intros [= <-].
  - destruct (step l a) as [a1|] eqn:Hstep; simpl; [|done].
    apply IH. by eapply stuck_in_stop_step.
Qed.


(** C8, as the code has it. A call of [stop] on an actor whose loops were
    started, with room on the prompt queue, sets the stop signal, puts a
    [None] on the prompt queue, sets the prompted signal, joins the Puller
    and the Pusher (each join ends when the thread has ended or at its
    timeout) and unsubscribes the hook. From then on the loops can take
    boundedly many steps only. A second call does all of it again: the
    signals and the subscription stay as they are, and a second [None] goes
    on the prompt queue. *)
Theorem stop_sets_signals_and_ends_loops (a : RayProcess) (pc1 : pn_pc) (pc2 : pp_pc)
    (t1 t2 t3 t4 : bool) :
  idle a = true →
  pull_notifications_thread a = Some pc1 →
  push_prompts_thread a = Some pc2 →
  finished_pn pc1 || t1 = true → finished_pp pc2 || t2 = true →
  finished_pn pc1 || t3 = true → finished_pp pc2 || t4 = true →
  length (push_prompt_queue a) + 2 ≤ maxsize →
  ∃ a1 a2,
    exec (stop_call t1 t2) a = Some a1 ∧
    main_thread a1 = Returned None ∧
    has_been_stopped a1 = true ∧ has_been_prompted a1 = true ∧
    subscribed a1 = false ∧
    push_prompt_queue a1 = push_prompt_queue a ++ [None] ∧
    (∀ ls a', forallb is_loop_step ls = true → exec ls a1 = Some a' →
              length ls ≤ steps_left a1) ∧
    exec (stop_call t3 t4) a1 = Some a2 ∧
    main_thread a2 = Returned None ∧
    has_been_stopped a2 = true ∧ has_been_prompted a2 = true ∧
    subscribed a2 = false ∧
    push_prompt_queue a2 = push_prompt_queue a ++ [None; None] ∧
    pull_notifications_thread a2 = pull_notifications_thread a1 ∧
    process_events_thread a2 = process_events_thread a1 ∧
    push_prompts_thread a2 = push_prompts_thread a1.
Proof.
  intros Hidle Hpn Hpp Hj1 Hj2 Hj3 Hj4 Hroom.
  assert (full (push_prompt_queue a) = false) as Hfull.
  { unfold full. apply bool_decide_eq_false. lia. }
  destruct (stop_call_effect a pc1 pc2 t1 t2 Hidle Hpn Hpp Hj1 Hj2 Hfull)
    as (a1 & Hexec1 & Hm1 & Hs1 & Hp1 & Hsub1 & Hq1 & Hpn1 & Hpe1 & Hpp1).
  assert (full (push_prompt_queue a1) = false) as Hfull1.
  { unfold full. apply bool_decide_eq_false. rewrite Hq1, length_app. simpl. lia. }
  assert (idle a1 = true) as Hidle1 by (unfold idle; by rewrite Hm1).
  destruct (stop_call_effect a1 pc1 pc2 t3 t4 Hidle1 Hpn1 Hpp1 Hj3 Hj4 Hfull1)
    as (a2 & Hexec2 & Hm2 & Hs2 & Hp2 & Hsub2 & Hq2 & Hpn2 & Hpe2 & Hpp2).
  exists a1, a2. repeat split; try done.
  - intros ls a' Hls Hexec.
    destruct (loop_steps_bounded ls a1 a' Hls Hs1 Hexec) as [_ Hle]. lia.
  - rewrite Hq2, Hq1, <- app_assoc. done.
  - congruence.
  - congruence.
Qed.

Lemma stop_sets_signals_and_ends_loops_witness :
  let a := run_example example_started in
  ∃ a1 a2,
    exec (stop_call true true) a = Some a1 ∧
    has_been_stopped a1 = true ∧ subscribed a1 = false ∧
    push_prompt_queue a1 = [None] ∧
    exec (stop_call true true) a1 = Some a2 ∧
    push_prompt_queue a2 = [None; None].
Proof.
  intros a.
  destruct (stop_sets_signals_and_ends_loops a PN_while PP_while true true true true)
    as (a1 & a2 & H1 & _ & Hs & _ & Hsub & Hq1 & _ & H2 & _ & _ & _ & _ & Hq2 & _);
    [vm_compute; reflexivity..| |].
  - vm_compute. lia.
  - exists a1, a2. repeat split; assumption.
Defined.

(** With 99 prompts waiting behind a Pusher that is busy fanning one out, a
    first call of [stop] returns, and a second call never does: it waits
    for room on the prompt queue, which nobody empties any more. *)
Lemma second_stop_never_returns :
  let a := run_example example_backlog in
  let a1 := run_example (example_backlog ++ stop_call true true) in
  exec (stop_call true true) a = Some a1 ∧
  main_thread a1 = Returned None ∧
  ∀ ls a2, exec (CallStop :: ls) a1 = Some a2 →
           main_thread a2 = ST_set ∨ main_thread a2 = ST_put.
Proof.
  intros a a1.
  assert (exec (stop_call true true) a = Some a1) as Hfirst
    by (vm_compute; reflexivity).
  assert (main_thread a1 = Returned None) as Hret by (vm_compute; reflexivity).
  assert (step CallStop a1 = Some (set_main_thread ST_set a1)) as Hcall
    by (vm_compute; reflexivity).
  assert (stuck_in_stop (set_main_thread ST_set a1)) as Hstuck.
  { split; [vm_compute; reflexivity|]. split; [vm_compute; reflexivity|].
    split; [vm_compute; discriminate|]. left. vm_compute. reflexivity. }
  clearbody a a1.
  split; [done|]. split; [done|].
  intros ls a2. rewrite exec_cons, Hcall. cbn [mbind option_bind]. intros Hexec.
  by destruct (stuck_in_stop_exec ls _ a2 Hstuck Hexec) as (_ & _ & _ & ?).
Qed.

(** ** What holds of the actor in every execution *)

(* Projections of an updated state, without touching the values stored. *)
Ltac fields :=
  cbn [args push_prompt_queue upstream_event_queue prompted_names
       has_been_prompted has_been_stopped event_reading_lock upstream_logs
       downstream_processes process pull_notifications_thread
       process_events_thread push_prompts_thread main_thread subscribed
       notification_logs delivered
       set_push_prompt_queue set_upstream_event_queue set_prompted_names
       set_has_been_prompted set_has_been_stopped set_event_reading_lock
       set_upstream_logs set_downstream_processes set_process
       set_pull_notifications_thread set_process_events_thread
       set_push_prompts_thread set_main_thread set_subscribed
       set_notification_logs set_delivered at_pn at_pe at_pp unlock publish] in *.

(* Every way one step can go: the state reached is written out in terms of
   the state left, with the tests passed on the way as hypotheses. Invariants
   are to be kept folded while this runs. *)
Ltac step_cases Hstep :=
  match type of Hstep with
  | step ?l ?a = Some _ =>
      destruct l as [u deps pl|logs downstream| |ptp pname| |timeout|prompts| | |answer|
                    |acknowledgement];
      simpl in Hstep;
      [ simplify_eq
      | destruct (idle a && bool_decide (upstream_logs a = None)) eqn:Hen; [|done];
        apply andb_prop in Hen as [_ Hen]; apply bool_decide_eq_true in Hen;
        unfold init in Hstep; simpl in Hstep;
        destruct (isinstance_concrete _) eqn:Hinstance;
          [|destruct (negb _) eqn:Hinfra]; simplify_eq
      | destruct (idle a && bool_decide (pull_notifications_thread a = None)) eqn:Hen;
          [|done];
        apply andb_prop in Hen as [_ Hen]; apply bool_decide_eq_true in Hen;
        unfold run, reset_readers in Hstep;
        destruct (process a) as [p|] eqn:Hp; simpl in Hstep; simplify_eq
      | destruct (idle a); [|done]; unfold prompt in Hstep;
        destruct ptp; simplify_eq
      | destruct (idle a); simplify_eq
      | unfold step_stop, put in Hstep;
        destruct (main_thread a) eqn:Hmain; try done;
        [ simplify_eq
        | destruct (full (push_prompt_queue a)) eqn:Hfull; simpl in Hstep; simplify_eq
        | simplify_eq
        | destruct (pull_notifications_thread a) as [pc|] eqn:Hpc;
            [destruct (finished_pn pc || timeout) eqn:Hjoin|]; simplify_eq
        | destruct (push_prompts_thread a) as [pc|] eqn:Hpc;
            [destruct (finished_pp pc || timeout) eqn:Hjoin|]; simplify_eq
        | simplify_eq ]
      | destruct (subscribed a) eqn:Hsub; simpl in Hstep; [|simplify_eq];
        [ destruct (is_prompt prompts) eqn:Hprompt; [|simplify_eq];
          [ unfold enqueue_prompt, put in Hstep;
            destruct prompts as [|first others]; simpl in Hstep;
            [ simplify_eq
            | destruct (full (push_prompt_queue a)) eqn:Hfull; simpl in Hstep;
              simplify_eq ]
          | ]
        | ]
      | unfold step_process_notifications, put in Hstep;
        destruct (pull_notifications_thread a) as [pc|] eqn:Hpc; [|done];
        simpl in Hstep; destruct pc; try done;
        repeat (case_match; simpl in Hstep; try done); simplify_eq
      | unfold step_process_events, reset_readers, put, get in Hstep;
        destruct (process_events_thread a) as [pc|] eqn:Hpc; [|done];
        simpl in Hstep; destruct pc; try done;
        repeat (case_match; simpl in Hstep; try done); simplify_eq
      | unfold step_process_upstream_event in Hstep;
        destruct (process_events_thread a) as [pc|] eqn:Hpc; [|done];
        simpl in Hstep; destruct pc; try done;
        repeat (case_match; simpl in Hstep; try done); simplify_eq
      | unfold step_push_prompts, get in Hstep;
        destruct (push_prompts_thread a) as [pc|] eqn:Hpc; [|done];
        simpl in Hstep; destruct pc; try done;
        repeat (case_match; simpl in Hstep; try done); simplify_eq
      | unfold step_ray_get in Hstep;
        destruct (push_prompts_thread a) as [pc|] eqn:Hpc; [|done];
        simpl in Hstep; destruct pc; try done;
        repeat (case_match; simpl in Hstep; try done); simplify_eq ]
  end.

(** A property kept by every step holds along every execution. *)
Lemma exec_inv (P : RayProcess → Prop) :
  (∀ l a a', P a → step l a = Some a' → P a') →
  ∀ ls a a', P a → exec ls a = Some a' → P a'.
Proof.
  intros Hstep ls. induction ls as [|l ls IH]; intros a a' HP; simpl.
  - by intros [= <-].
  - destruct (step l a) as [a1|] eqn:E; simpl; [|done]. apply IH. by eapply Hstep.
Qed.

Lemma lifecycle_inv_step (l : label) (a a' : RayProcess) :
  lifecycle_inv a → step l a = Some a' → lifecycle_inv a'.
Proof.
  intros Hinv Hstep.
  step_cases Hstep.
  all: unfold lifecycle_inv in *; fields.
  all: destruct Hinv as (I1 & I2 & I3 & I4).
  all: try done.
  all: intuition congruence.
Qed.

Lemma lifecycle_inv_new (args0 : Args) : lifecycle_inv (new_RayProcess args0).
Proof. unfold lifecycle_inv. simpl. intuition congruence. Qed.

Lemma lifecycle_inv_exec (args0 : Args) (ls : list label) (a : RayProcess) :
  exec ls (new_RayProcess args0) = Some a → lifecycle_inv a.
Proof.
  apply (exec_inv lifecycle_inv lifecycle_inv_step). apply lifecycle_inv_new.
Qed.

Lemma lock_inv_step (l : label) (a a' : RayProcess) :
  lifecycle_inv a → lock_inv a → step l a = Some a' → lock_inv a'.
Proof.
  intros (_ & _ & L3 & _) Hinv Hstep.
  step_cases Hstep.
  all: unfold lock_inv, inside_process_notifications, inside_process_events in *;
    fields.
  all: try done.
  all: try (destruct (L3 Hen) as (Hpe & _ & _ & _ & Hl); rewrite Hen, Hpe in Hinv;
            by destruct Hinv).
  all: rewrite Hpc in Hinv; destruct Hinv as [Hx Hl]; simpl in Hx, Hl;
    rewrite ?andb_false_r in *.
  all: try match goal with
         | |- context [pull_notifications_thread ?x] =>
             destruct (pull_notifications_thread x) as [[]|]
         | |- context [process_events_thread ?x] =>
             destruct (process_events_thread x) as [[]|]
         end; simpl in *; simplify_eq; try done.
Qed.

(* Use the equations in the context on the other hypotheses. *)
Ltac rew :=
  repeat match goal with
         | H : ?x = _, H' : context [?x] |- _ =>
             lazymatch x with _ _ => rewrite H in H' end
         end.

Lemma signal_inv_step (l : label) (a a' : RayProcess) :
  signal_inv a → step l a = Some a' → signal_inv a'.
Proof.
  intros Hinv Hstep.
  step_cases Hstep.
  all: unfold signal_inv in *; fields; try done.
Qed.

Lemma queues_bounded_step (l : label) (a a' : RayProcess) :
  queues_bounded a → step l a = Some a' → queues_bounded a'.
Proof.
  intros Hinv Hstep.
  step_cases Hstep.
  all: unfold queues_bounded in *; fields; try done.
  all: repeat match goal with
         | H : full _ = false |- _ =>
             unfold full in H; apply bool_decide_eq_false in H
         end.
  all: rew; rewrite ?length_app; simpl in *; unfold maxsize in *; lia.
Qed.

Lemma delivery_inv_step (l : label) (a a' : RayProcess) :
  lifecycle_inv a → delivery_inv a → step l a = Some a' → delivery_inv a'.
Proof.
  intros (L1 & L2 & L3 & L4) Hinv Hstep.
  step_cases Hstep.
  all: unfold delivery_inv in *; fields; try done.
  all: destruct Hinv as (D1 & D2 & D3 & D4 & D5).
  all: try (destruct (L1 Hen) as [_ Hproc]; apply L2 in Hproc).
  all: try (destruct (L3 Hen) as (_ & Hpp & _ & Hd & _)).
  all: try (destruct (L3 Hproc) as (_ & Hpp & _ & Hd & _)).
  all: try rewrite Hd.
  all: repeat split; intros; simplify_eq; try done.
  all: repeat match goal with
         | H : _ ∈ [] |- _ => by apply elem_of_nil in H
         | H : _ ∈ _ ++ [_] |- _ =>
             apply elem_of_app in H as [H|H];
             [|apply list_elem_of_singleton in H; simplify_eq]
         | H : push_prompts_thread _ = Some (PP_for _ _) |- _ =>
             destruct (D4 _ _ H) as [? (? & ? & ?)]; clear H
         | H : (_, _) ∈ delivered _ |- _ =>
             destruct (D5 _ _ H) as [? (? & ? & ?)]; clear H
         end; eauto.
  all: try (apply D2;
            match goal with H : push_prompt_queue _ = _ |- _ => rewrite H end;
            rewrite elem_of_cons; by eauto).
  all: try (match goal with |- is_Some ?p => destruct p; [by eauto|] end;
            match goal with
            | H : has_been_stopped _ = false |- _ => by rewrite (D3 Hpc) in H
            end).
  all: match goal with
       | H : _ :: _ ⊆ ?x |- _ =>
           exists x; split; [done|];
           first [ apply H, list_elem_of_here
                 | intros ? ?; by apply H, list_elem_of_further ]
       end.
Qed.

Lemma delivery_inv_new (args0 : Args) : delivery_inv (new_RayProcess args0).
Proof.
  unfold delivery_inv. simpl. repeat split; intros; try done.
  all: match goal with H : _ ∈ [] |- _ => by apply elem_of_nil in H end.
Qed.

(** X1. In every execution the Puller and the Processor's exception
    handler are never inside their [with self.event_reading_lock:] blocks
    together, and the lock is held exactly by the thread that is inside its
    block: by nobody when neither is, in particular after a thread has died
    of an exception inside its block. *)
Theorem event_reading_lock_excludes (args0 : Args) (ls : list label) (a : RayProcess) :
  exec ls (new_RayProcess args0) = Some a →
  (inside_process_notifications a && inside_process_events a = false) ∧
  (event_reading_lock a = Some ProcessNotifications
   ↔ inside_process_notifications a = true) ∧
  (event_reading_lock a = Some ProcessEvents ↔ inside_process_events a = true) ∧
  (event_reading_lock a = None
   ↔ inside_process_notifications a = false ∧ inside_process_events a = false).
Proof.
  intros Hexec.
  assert (lifecycle_inv a ∧ lock_inv a) as [_ [Hx Hl]].
  { revert Hexec. apply (exec_inv (λ a, lifecycle_inv a ∧ lock_inv a)).
    - intros l b b' [H1 H2] Hstep. split.
      + by eapply lifecycle_inv_step.
      + by eapply lock_inv_step.
    - split; [apply lifecycle_inv_new|done]. }
  rewrite Hl. split; [done|].
  destruct (inside_process_notifications a), (inside_process_events a);
    simpl in *; try done; intuition congruence.
Qed.

(** X2. No wake-up is lost: in every execution, whenever the set of
    prompted names is not empty the prompted signal is set, so that the
    Puller's next wait returns at once and its round takes the names. *)
Theorem prompted_names_are_signalled (args0 : Args) (ls : list label) (a : RayProcess) :
  exec ls (new_RayProcess args0) = Some a →
  prompted_names a ≠ ∅ → has_been_prompted a = true.
Proof.
  apply (exec_inv signal_inv signal_inv_step).
  unfold signal_inv. simpl. intros H. by destruct H.
Qed.

(** X3. In every execution the push-prompt queue and the upstream-event
    queue hold at most [maxsize] = 100 items each. *)
Theorem queues_stay_bounded (args0 : Args) (ls : list label) (a : RayProcess) :
  exec ls (new_RayProcess args0) = Some a →
  length (push_prompt_queue a) ≤ maxsize ∧ length (upstream_event_queue a) ≤ maxsize.
Proof.
  apply (exec_inv queues_bounded queues_bounded_step).
  unfold queues_bounded, maxsize. simpl. lia.
Qed.

(** X4. In every execution, whatever the Pusher has sent is a prompt, never
    the [None] that [stop] puts on the queue, and it was sent to one of the
    downstream processes given to [init]; and [None] is on the queue only
    when the stop signal is set. *)
Theorem push_prompts_sends_prompts_downstream (args0 : Args) (ls : list label)
    (a : RayProcess) :
  exec ls (new_RayProcess args0) = Some a →
  (∀ d prompt, (d, prompt) ∈ delivered a →
     (∃ q, prompt = Some q) ∧
     ∃ ds, downstream_processes a = Some ds ∧ d ∈ ds) ∧
  (None ∈ push_prompt_queue a → has_been_stopped a = true).
Proof.
  intros Hexec.
  assert (lifecycle_inv a ∧ delivery_inv a) as [_ (_ & D2 & _ & _ & D5)].
  { revert Hexec. apply (exec_inv (λ a, lifecycle_inv a ∧ delivery_inv a)).
    - intros l b b' [H1 H2] Hstep. split.
      + by eapply lifecycle_inv_step.
      + by eapply delivery_inv_step.
    - split; [apply lifecycle_inv_new|apply delivery_inv_new]. }
  split; [|done]. intros d prompt Hin. destruct (D5 d prompt Hin) as [[q ->] Hds].
  eauto.
Qed.

Lemma event_reading_lock_excludes_witness :
  event_reading_lock (run_example (example_started ++ replicate 6 StepPN))
  = Some ProcessNotifications ∧
  inside_process_events (run_example (example_started ++ replicate 6 StepPN)) = false.
Proof.
  set (a := run_example (example_started ++ replicate 6 StepPN)).
  pose proof (event_reading_lock_excludes example_args
                (example_started ++ replicate 6 StepPN) a) as H.
  assert (exec (example_started ++ replicate 6 StepPN) (new_RayProcess example_args)
          = Some a) as He by (vm_compute; reflexivity).
  assert (inside_process_notifications a = true) as Hin by (vm_compute; reflexivity).
  clearbody a. destruct (H He) as (Hx & Hpn & _ & _).
  split; [by apply Hpn|].
  apply andb_false_iff in Hx as [Hx|Hx]; [congruence|exact Hx].
Defined.

Lemma prompted_names_are_signalled_witness :
  has_been_prompted (run_example example_prompted) = true.
Proof.
  set (a := run_example example_prompted).
  pose proof (prompted_names_are_signalled example_args example_prompted a) as H.
  assert (exec example_prompted (new_RayProcess example_args) = Some a) as He
    by (vm_compute; reflexivity).
  assert ("orders" ∈ prompted_names a) as Hin.
  { apply (bool_decide_unpack _). vm_compute. exact I. }
  clearbody a. apply (H He). intros Hempty. rewrite Hempty in Hin.
  exact (not_elem_of_empty _ Hin).
Defined.

Lemma queues_stay_bounded_witness :
  length (push_prompt_queue (run_example example_backlog)) ≤ maxsize ∧
  length (upstream_event_queue (run_example example_backlog)) ≤ maxsize.
Proof.
  set (a := run_example example_backlog).
  pose proof (queues_stay_bounded example_args example_backlog a) as H.
  assert (exec example_backlog (new_RayProcess example_args) = Some a) as He
    by (vm_compute; reflexivity).
  clearbody a. exact (H He).
Defined.

Lemma push_prompts_sends_prompts_downstream_witness :
  ∃ q ds, downstream_processes (run_example example_backlog) = Some ds ∧
          "shipping" ∈ ds ∧ q = PublishedPrompt "payments" 0.
Proof.
  set (a := run_example example_backlog).
  pose proof (push_prompts_sends_prompts_downstream example_args example_backlog a) as H.
  assert (exec example_backlog (new_RayProcess example_args) = Some a) as He
    by (vm_compute; reflexivity).
  assert (delivered a = [("shipping", Some (PublishedPrompt "payments" 0))]) as Hdel
    by (vm_compute; reflexivity).
  assert (("shipping", Some (PublishedPrompt "payments" 0)) ∈ delivered a) as Hin
    by (rewrite Hdel; apply list_elem_of_here).
  clearbody a. destruct (H He) as [Hd _].
  destruct (Hd _ _ Hin) as [[q Hq] (ds & Hds & Hin')].
  exists q, ds. repeat split; try assumption. congruence.
Defined.

(** ** After the stop signal *)

Ltac rewg :=
  repeat match goal with
         | H : ?x = _ |- context [?x] => lazymatch x with _ _ => rewrite H end
         end.

Lemma reset_process_readers_tracking (p : ProcessApplication) :
  tracking (reset_process_readers p) = tracking p.
Proof. by destruct (reset_process_readers_spec p) as [? _]. Qed.

Lemma follow_all_tracking (logs : list string) (p : ProcessApplication) :
  tracking (foldl (λ p upstream_name, follow upstream_name p) p logs) = tracking p.
Proof. by destruct (reset_fold_spec logs p) as [? _]. Qed.

(** Once the stop signal is set it stays set; the Pusher sends a prompt
    only if it was about to, and the Processor applies an event only if it
    was about to. *)
Lemma after_stop_step (l : label) (a a' : RayProcess) :
  lifecycle_inv a → has_been_stopped a = true → step l a = Some a' →
  has_been_stopped a' = true ∧
  length (delivered a') + sends_left a' ≤ length (delivered a) + sends_left a ∧
  applied_count a' + applications_left a' ≤ applied_count a + applications_left a.
Proof.
  intros (L1 & L2 & L3 & L4) Hs Hstep.
  step_cases Hstep.
  all: unfold applied_count, sends_left, applications_left; fields.
  all: try (split; [done|split; lia]).
  all: try (destruct (L1 Hen) as [_ Hproc]; pose proof (L2 Hproc) as Hpull).
  all: try (destruct (L3 Hen) as (Hpe & Hpp & _ & _ & _)).
  all: try (destruct (L3 Hpull) as (Hpe & Hpp & _ & _ & _)).
  all: rewrite ?reset_process_readers_tracking, ?follow_all_tracking.
  all: rewg; simpl.
  all: rewrite ?length_app; simpl.
  all: try (split; [done|split; lia]).
Qed.

(** X5. Once the stop signal is set it is never cleared, and from then on
    the Pusher sends at most one more prompt and the Processor applies at
    most one more event: the one each was about to send or apply when the
    signal was set. *)
Theorem after_stop_at_most_one_more (args0 : Args) (ls0 ls : list label)
    (a a' : RayProcess) :
  exec ls0 (new_RayProcess args0) = Some a →
  has_been_stopped a = true →
  exec ls a = Some a' →
  has_been_stopped a' = true ∧
  length (delivered a') ≤ length (delivered a) + sends_left a ∧
  applied_count a' ≤ applied_count a + applications_left a ∧
  sends_left a ≤ 1 ∧ applications_left a ≤ 1.
Proof.
  intros Hexec0 Hs Hexec.
  pose proof (lifecycle_inv_exec _ _ _ Hexec0) as Hl. clear Hexec0.
  assert (has_been_stopped a' = true ∧
          length (delivered a') + sends_left a' ≤ length (delivered a) + sends_left a ∧
          applied_count a' + applications_left a'
          ≤ applied_count a + applications_left a) as (H1 & H2 & H3).
  { revert a Hl Hs Hexec. induction ls as [|l ls IH]; intros a Hl Hs; simpl.
    - intros [= <-]. split; [done|lia].
    - destruct (step l a) as [a1|] eqn:Hstep; simpl; [|done]. intros Hexec.
      destruct (after_stop_step l a a1 Hl Hs Hstep) as (Hs1 & Hd1 & Ha1).
      destruct (IH a1 (lifecycle_inv_step _ _ _ Hl Hstep) Hs1 Hexec) as (? & ? & ?).
      split; [done|lia]. }
  split; [done|]. split; [lia|]. split; [lia|].
  unfold sends_left, applications_left. split; repeat case_match; lia.
Qed.

Lemma after_stop_at_most_one_more_witness :
  has_been_stopped
    (run_example (example_processing ++ [CallStop; StepStop false]
                  ++ [Answer (Return []); StepPE])) = true ∧
  applied_count
    (run_example (example_processing ++ [CallStop; StepStop false]
                  ++ [Answer (Return []); StepPE])) ≤ 1.
Proof.
  set (a' := run_example _).
  set (a := run_example (example_processing ++ [CallStop; StepStop false])).
  pose proof (after_stop_at_most_one_more example_args
                (example_processing ++ [CallStop; StepStop false])
                [Answer (Return []); StepPE] a a') as H.
  assert (exec (example_processing ++ [CallStop; StepStop false])
            (new_RayProcess example_args) = Some a) as He0 by (vm_compute; reflexivity).
  assert (has_been_stopped a = true) as Hs by (vm_compute; reflexivity).
  assert (exec [Answer (Return []); StepPE] a = Some a') as He by (vm_compute; reflexivity).
  assert (applied_count a = 0) as Hc by (vm_compute; reflexivity).
  assert (applications_left a = 1) as Hl by (vm_compute; reflexivity).
  clearbody a a'. destruct (H He0 Hs He) as (Hs' & _ & Ha & _).
  split; [exact Hs'|]. rewrite Hc, Hl in Ha. exact Ha.
Defined.

(** ** The Puller and the Processor wait for each other *)

Lemma deadlocked_step (l : label) (a a' : RayProcess) :
  deadlocked a → step l a = Some a' →
  deadlocked a' ∧
  pull_notifications_thread a' = pull_notifications_thread a ∧
  process_events_thread a' = process_events_thread a ∧
  upstream_event_queue a' = upstream_event_queue a.
Proof.
  intros ((item & u0 & ns & names & Hpn) & Hqfull & Hpe & Hlock) Hstep.
  step_cases Hstep.
  all: unfold deadlocked; fields; try done.
  all: try (repeat split; try done; by eauto).
Qed.

(** X6. When the Puller waits, inside its [with self.event_reading_lock:]
    block, for room on the full event queue (line 284) while the Processor
    waits in its exception handler for the same lock (line 310), neither
    ever moves again, whatever else happens, [stop] included: the two
    threads stay where they are, the queue stays full, and no step of
    either is possible. *)
Theorem puller_and_processor_deadlock (ls : list label) (a a' : RayProcess) :
  deadlocked a →
  exec ls a = Some a' →
  deadlocked a' ∧
  pull_notifications_thread a' = pull_notifications_thread a ∧
  process_events_thread a' = process_events_thread a ∧
  upstream_event_queue a' = upstream_event_queue a ∧
  step StepPN a' = None ∧ step StepPE a' = None ∧
  ∀ answer, step (Answer answer) a' = None.
Proof.
  intros Hd Hexec.
  assert (deadlocked a' ∧
          pull_notifications_thread a' = pull_notifications_thread a ∧
          process_events_thread a' = process_events_thread a ∧
          upstream_event_queue a' = upstream_event_queue a) as (Hd' & H1 & H2 & H3).
  { revert a Hd Hexec. induction ls as [|l ls IH]; intros a Hd; simpl.
    - by intros [= <-].
    - destruct (step l a) as [a1|] eqn:Hstep; simpl; [|done]. intros Hexec.
      destruct (deadlocked_step l a a1 Hd Hstep) as (Hd1 & E1 & E2 & E3).
      destruct (IH a1 Hd1 Hexec) as (? & ? & ? & ?).
      split; [done|]. split; [congruence|]. split; congruence. }
  split; [done|]. split; [done|]. split; [done|]. split; [done|].
  split; [|split].
  all: destruct Hd' as ((item & u0 & ns & names & Hpn) & Hqfull & Hpe & Hlock).
  - unfold step, step_process_notifications, put. rewrite Hpn. simpl.
    by rewrite Hqfull.
  - unfold step, step_process_events. rewrite Hpe. simpl. by rewrite Hlock.
  - intros answer. unfold step, step_process_upstream_event. by rewrite Hpe.
Qed.

Lemma puller_and_processor_deadlock_witness :
  deadlocked (run_example (example_deadlock ++ stop_call true true)) ∧
  length (upstream_event_queue (run_example (example_deadlock ++ stop_call true true)))
  = maxsize.
Proof.
  set (a' := run_example _).
  set (a := run_example example_deadlock).
  pose proof (puller_and_processor_deadlock (stop_call true true) a a') as H.
  assert (deadlocked a) as Hd.
  { split; [|split; [|split]].
    - eexists _, _, _, _. vm_compute. reflexivity.
    - vm_compute. reflexivity.
    - vm_compute. reflexivity.
    - vm_compute. reflexivity. }
  assert (exec (stop_call true true) a = Some a') as He by (vm_compute; reflexivity).
  assert (length (upstream_event_queue a) = maxsize) as Hlen by (vm_compute; reflexivity).
  clearbody a a'. destruct (H Hd He) as (Hd' & _ & _ & Hq & _).
  split; [exact Hd'|]. rewrite Hq. exact Hlen.
Defined.



(** ** The Pusher's fan-out *)

Lemma push_prompts_for_loop (prompt : option Prompt) (ds : list string) (b : RayProcess) :
  push_prompts_thread b = Some (PP_for prompt ds) →
  has_been_stopped b = false →
  exec (replicate (length ds + 1) StepPP) b
  = Some (at_pp PP_ray_get
            (set_delivered (delivered b ++ ((λ d, (d, prompt)) <$> ds)) b)).
Proof.
  revert b. induction ds as [|d ds IH]; intros b Hpc Hs.
  - change (replicate (length [] + 1) StepPP) with [StepPP].
    assert (step StepPP b = Some (at_pp PP_ray_get b)) as Hstep.
    { unfold step, step_push_prompts. by rewrite Hpc. }
    rewrite exec_cons, Hstep. cbn. rewrite app_nil_r. done.
  - change (length (d :: ds) + 1) with (S (length ds + 1)).
    assert (step StepPP b
            = Some (at_pp (PP_for prompt ds)
                      (set_delivered (delivered b ++ [(d, prompt)]) b))) as Hstep.
    { unfold step, step_push_prompts. rewrite Hpc. cbn. by rewrite Hs. }
    rewrite replicate_S, exec_cons, Hstep. cbn [mbind option_bind].
    rewrite IH by done. cbn. rewrite <- app_assoc. done.
Qed.

(** A Pusher that has died of an exception stays dead and sends nothing
    more: [run] is not called again. *)
Lemma push_prompts_raised_forever (e : exception) (ls : list label)
    (a a' : RayProcess) :
  push_prompts_thread a = Some (PP_raised e) →
  pull_notifications_thread a ≠ None →
  exec ls a = Some a' →
  push_prompts_thread a' = Some (PP_raised e) ∧ delivered a' = delivered a.
Proof.
  intros Hpp Hpn Hexec.
  assert (push_prompts_thread a' = Some (PP_raised e) ∧
          pull_notifications_thread a' ≠ None ∧ delivered a' = delivered a) as (? & _ & ?);
    [|done].
  eapply (exec_inv (λ b, push_prompts_thread b = Some (PP_raised e) ∧
                         pull_notifications_thread b ≠ None ∧
                         delivered b = delivered a)); [|split; [|split]|exact Hexec];
    try done.
  clear. intros l b b' (Hpp & Hpn & Hd) Hstep.
  step_cases Hstep; fields; repeat split; congruence.
Qed.

(** X7. While the stop signal is not set, the Pusher sends a prompt it has
    taken off the queue to every downstream process, once each and in the
    order of [downstream_processes], and nothing else of the actor changes;
    it then waits in [ray.get] for the acknowledgements. When they come it
    is back at the head of its loop; when [ray.get] raises, which it can
    when a prompt was sent, the exception ends the thread: it stays dead
    and sends nothing more. *)
Theorem push_prompts_fans_out (a : RayProcess) (prompt : option Prompt)
    (ds : list string) :
  push_prompts_thread a = Some (PP_got prompt) →
  has_been_stopped a = false →
  downstream_processes a = Some ds →
  pull_notifications_thread a ≠ None →
  let b := at_pp PP_ray_get
             (set_delivered (delivered a ++ ((λ d, (d, prompt)) <$> ds)) a) in
  exec (replicate (length ds + 2) StepPP) a = Some b ∧
  step StepPP b = None ∧
  step (Acknowledge (Return ())) b = Some (at_pp PP_while b) ∧
  (∀ e, step (Acknowledge (Raise e)) b
        = if bool_decide (ds = []) then None else Some (at_pp (PP_raised e) b)) ∧
  (∀ e ls b', exec ls (at_pp (PP_raised e) b) = Some b' →
              push_prompts_thread b' = Some (PP_raised e) ∧
              delivered b' = delivered b).
Proof.
  intros Hpc Hs Hds Hpn b.
  split; [|split; [done|split; [done|split]]].
  - replace (length ds + 2) with (S (length ds + 1)) by lia.
    assert (step StepPP a = Some (at_pp (PP_for prompt ds) a)) as Hstep.
    { unfold step, step_push_prompts. rewrite Hpc. cbn. by rewrite Hs, Hds. }
    rewrite replicate_S, exec_cons, Hstep. cbn [mbind option_bind].
    rewrite (push_prompts_for_loop prompt ds) by done. done.
  - intros e. unfold step, step_ray_get. cbn. rewrite Hds.
    destruct ds; done.
  - intros e ls b' Hexec.
    by apply (push_prompts_raised_forever e ls (at_pp (PP_raised e) b)).
Qed.

Lemma push_prompts_fans_out_witness :
  ∃ b, exec (replicate 3 StepPP)
         (run_example (example_started ++ [Publishes [PublishedPrompt "payments" 0]]
                       ++ replicate 2 StepPP))
       = Some b ∧
       delivered b = [("shipping", Some (PublishedPrompt "payments" 0))] ∧
       push_prompts_thread
         <$> step (Acknowledge (Raise (Exception_ "The actor died unexpectedly"))) b
       = Some (Some (PP_raised (Exception_ "The actor died unexpectedly"))).
Proof.
  set (a := run_example _).
  pose proof (push_prompts_fans_out a (Some (PublishedPrompt "payments" 0))
                ["shipping"]) as H.
  assert (push_prompts_thread a = Some (PP_got (Some (PublishedPrompt "payments" 0))))
    as Hpc by (vm_compute; reflexivity).
  assert (has_been_stopped a = false) as Hs by (vm_compute; reflexivity).
  assert (downstream_processes a = Some ["shipping"]) as Hds by (vm_compute; reflexivity).
  assert (pull_notifications_thread a ≠ None) as Hpn by (vm_compute; discriminate).
  assert (delivered a = []) as Hdel by (vm_compute; reflexivity).
  clearbody a.
  destruct (H Hpc Hs Hds Hpn) as (Hexec & _ & _ & Hraise & _).
  eexists. split; [exact Hexec|]. split.
  - cbn. rewrite Hdel. reflexivity.
  - rewrite Hraise. reflexivity.
Defined.

(** ** A prompt that names no upstream *)

(** A thread that has died of an exception stays dead: [run] is not called
    again. *)
Lemma pull_notifications_raised_forever (e : exception) (ls : list label)
    (a a' : RayProcess) :
  pull_notifications_thread a = Some (PN_raised e) →
  exec ls a = Some a' →
  pull_notifications_thread a' = Some (PN_raised e).
Proof.
  revert a'. apply (exec_inv (λ a, pull_notifications_thread a = Some (PN_raised e))).
  intros l b b' Hb Hstep. step_cases Hstep; fields; congruence.
Qed.

(** X8. A [PromptToPull] that names a process the application does not
    follow ends the Puller: in the round that takes the name, line 271
    raises [KeyError]; the thread leaves its block, releasing the lock, and
    is dead for good, so that no notification is pulled any more. (The
    actor is running and waiting to be prompted, with no other name
    pending.) *)
Theorem prompt_for_unknown_upstream_ends_puller (a : RayProcess)
    (p : ProcessApplication) (u : string) :
  idle a = true →
  pull_notifications_thread a = Some PN_wait →
  has_been_stopped a = false →
  prompted_names a = ∅ →
  event_reading_lock a = None →
  process a = Some p →
  readers p !! u = None →
  ∃ a', exec (CallPrompt true u :: replicate 5 StepPN) a = Some a' ∧
        pull_notifications_thread a' = Some (PN_raised (KeyError u)) ∧
        event_reading_lock a' = None ∧
        upstream_event_queue a' = upstream_event_queue a ∧
        ∀ ls a'', exec ls a' = Some a'' →
                  pull_notifications_thread a'' = Some (PN_raised (KeyError u)).
Proof.
  intros Hidle Hpc Hs Hnames Hlock Hp Hr.
  set (a1 := set_main_thread (Returned None)
               (set_has_been_prompted true (set_prompted_names {[u]} a))).
  assert (step (CallPrompt true u) a = Some a1) as H0.
  { unfold step, prompt. rewrite Hidle, Hnames. unfold a1.
    by rewrite (left_id_L ∅ (∪)). }
  set (a2 := at_pn (PN_stopped false) a1).
  assert (step StepPN a1 = Some a2) as H1.
  { unfold step, step_process_notifications. unfold a1 at 1. cbn. by rewrite Hpc. }
  set (a3 := at_pn (PN_names false) a2).
  assert (step StepPN a2 = Some a3) as H2.
  { unfold step, step_process_notifications. unfold a2 at 1. cbn. by rewrite Hs. }
  set (a4 := at_pn (PN_lock [u])
               (set_prompted_names ∅ (set_has_been_prompted false a3))).
  assert (step StepPN a3 = Some a4) as H3.
  { unfold step, step_process_notifications. unfold a3 at 1. cbn.
    by rewrite elements_singleton. }
  set (a5 := at_pn (PN_for_name [u])
               (set_event_reading_lock (Some ProcessNotifications) a4)).
  assert (step StepPN a4 = Some a5) as H4.
  { unfold step, step_process_notifications. unfold a4 at 1. cbn. by rewrite Hlock. }
  set (a6 := at_pn (PN_raised (KeyError u)) (unlock a5)).
  assert (step StepPN a5 = Some a6) as H5.
  { unfold step, step_process_notifications. unfold a5 at 1. cbn. by rewrite Hp, Hr. }
  exists a6. split; [|split; [done|split; [done|split; [done|]]]].
  - change (replicate 5 StepPN) with [StepPN; StepPN; StepPN; StepPN; StepPN].
    rewrite exec_cons, H0. cbn [mbind option_bind].
    rewrite exec_cons, H1. cbn [mbind option_bind].
    rewrite exec_cons, H2. cbn [mbind option_bind].
    rewrite exec_cons, H3. cbn [mbind option_bind].
    rewrite exec_cons, H4. cbn [mbind option_bind].
    rewrite exec_cons, H5. done.
  - intros ls a''. by apply pull_notifications_raised_forever.
Qed.

Lemma prompt_for_unknown_upstream_ends_puller_witness :
  ∃ a', exec (CallPrompt true "billing" :: replicate 5 StepPN)
             (run_example (example_started ++ [StepPN])) = Some a' ∧
        pull_notifications_thread a' = Some (PN_raised (KeyError "billing")) ∧
        event_reading_lock a' = None.
Proof.
  set (a := run_example _).
  set (p := default (new_ProcessApplication example_args) (process a)).
  pose proof (prompt_for_unknown_upstream_ends_puller a p "billing") as H.
  assert (idle a = true) as H1 by (vm_compute; reflexivity).
  assert (pull_notifications_thread a = Some PN_wait) as H2 by (vm_compute; reflexivity).
  assert (has_been_stopped a = false) as H3 by (vm_compute; reflexivity).
  assert (prompted_names a = ∅) as H4 by (vm_compute; reflexivity).
  assert (event_reading_lock a = None) as H5 by (vm_compute; reflexivity).
  assert (process a = Some p) as H6 by (vm_compute; reflexivity).
  assert (readers p !! "billing" = None) as H7 by (vm_compute; reflexivity).
  clearbody p. clearbody a.
  destruct (H H1 H2 H3 H4 H5 H6 H7) as (a' & He & Hpc & Hl & _).
  exists a'. split; [exact He|]. split; [exact Hpc|exact Hl].
Defined.

(** ** The order of the actor's life *)

(** X9. In every execution the three threads exist together or not at all,
    and only on an actor whose [init] has constructed the process
    application; until [run] has started them the event queue is empty,
    nothing has been sent downstream and the lock is free. A [run] that
    comes before [init], or after an [init] that raised, raises
    [AttributeError] at line 325 and starts nothing. *)
Theorem loops_run_only_after_init (args0 : Args) (ls : list label) (a : RayProcess) :
  exec ls (new_RayProcess args0) = Some a →
  (pull_notifications_thread a ≠ None →
   process a ≠ None ∧ upstream_logs a ≠ None ∧
   process_events_thread a ≠ None ∧ push_prompts_thread a ≠ None) ∧
  (pull_notifications_thread a = None →
   process_events_thread a = None ∧ push_prompts_thread a = None ∧
   upstream_event_queue a = [] ∧ delivered a = [] ∧ event_reading_lock a = None) ∧
  (process a = None →
   run a = (Raise (AttributeError "process"), a) ∧
   (idle a = true →
    step CallRun a
    = Some (set_main_thread (Returned (Some (AttributeError "process"))) a))).
Proof.
  intros Hexec. destruct (lifecycle_inv_exec _ _ _ Hexec) as (L1 & L2 & L3 & L4).
  split; [|split; [done|]].
  - intros Hpn. destruct (L4 Hpn) as [Hpe Hpp].
    assert (process a ≠ None) as Hp by (intros Hp; by apply Hpn, L2).
    repeat split; try done. intros Hl. by destruct (L1 Hl).
  - intros Hp. assert (run a = (Raise (AttributeError "process"), a)) as Hrun.
    { unfold run, reset_readers. by rewrite Hp. }
    split; [done|]. intros Hidle. unfold step. rewrite Hidle, (L2 Hp), Hrun. done.
Qed.

(** ** [init] *)

(** X10. [init] stores the logs and the downstream processes and
    subscribes the hook first, whatever comes next. It then raises
    [TypeError] exactly when the process class is an instance of
    [ApplicationWithConcreteInfrastructure] (line 194 calls the instance),
    raises [ProgrammingError] exactly when it is not and no infrastructure
    class was given, and returns otherwise. When it raises, the actor is left
    without a process application, but subscribed; when it returns, it has
    constructed the application with the class's name, the actor's pipeline
    id and the stored tracking records, following exactly the upstreams of
    [upstream_logs]. *)
Theorem init_constructs_the_application (logs downstream : list string)
    (a : RayProcess) :
  let process_class := application_process_class (args a) in
  let o := (init logs downstream a).1 in
  let a' := (init logs downstream a).2 in
  upstream_logs a' = Some logs ∧ downstream_processes a' = Some downstream ∧
  subscribed a' = true ∧
  (o = Raise (TypeError "object is not callable")
   ↔ isinstance_concrete process_class = true) ∧
  (o = Raise (ProgrammingError "infrastructure_class is not set")
   ↔ isinstance_concrete process_class = false ∧ infrastructure_class (args a) = None) ∧
  (o = Return ()
   ↔ isinstance_concrete process_class = false ∧
     is_Some (infrastructure_class (args a))) ∧
  (o ≠ Return () → process a' = process a) ∧
  (o = Return () →
   ∃ p, process a' = Some p ∧
        name p = application_name process_class ∧
        pipeline_id p = arg_pipeline_id (args a) ∧
        tracking p = stored_tracking (args a) ∧
        ∀ u, is_Some (readers p !! u) ↔ u ∈ logs).
Proof.
  intros process_class o a'. unfold o, a', process_class, init. cbn.
  destruct (reset_fold_spec logs (new_ProcessApplication (args a)))
    as (Ht & Hn & Hp & Hr).
  destruct (isinstance_concrete (application_process_class (args a))) eqn:Hc;
    destruct (infrastructure_class (args a)) as [i|] eqn:Hi; cbn.
  all: split; [done|split; [done|split; [done|]]].
  1,2,4: by (repeat split; try done;
             try (intros [? ?]; simplify_eq); try (intros [? [? ?]]; simplify_eq)).
  split; [done|]. split; [split; [done|by intros [? ?]]|].
  split; [split; [by eauto|done]|]. split; [done|].
  intros _. eexists. split; [done|].
  split; [exact Hn|split; [exact Hp|split; [exact Ht|]]].
  intros u. unfold follow. rewrite (Hr u). case_decide; [by split; eauto|].
  cbn. rewrite lookup_empty. split; [by intros [? ?]|done].
Qed.

Lemma loops_run_only_after_init_witness :
  step CallRun (new_RayProcess example_args)
  = Some (set_main_thread (Returned (Some (AttributeError "process")))
            (new_RayProcess example_args)).
Proof.
  destruct (loops_run_only_after_init example_args [] (new_RayProcess example_args)
              eq_refl) as (_ & _ & H).
  destruct (H eq_refl) as [_ Hrun]. exact (Hrun eq_refl).
Defined.

(** ** [stop] before [run] *)

(** X11. [stop] on an actor whose threads were never started sets the stop
    signal, puts the sentinel and sets the prompted signal, and then raises
    [AttributeError] at line 366: the hook stays subscribed. The signal
    stays set: when [run] is called afterwards, each of the three loops ends
    at its first test. *)
Theorem stop_before_run_raises (a : RayProcess) (p : ProcessApplication) :
  idle a = true →
  pull_notifications_thread a = None →
  full (push_prompt_queue a) = false →
  process a = Some p →
  ∃ a1 a2,
    exec (CallStop :: replicate 4 (StepStop false)) a = Some a1 ∧
    main_thread a1 = Returned (Some (AttributeError "pull_notifications_thread")) ∧
    has_been_stopped a1 = true ∧ has_been_prompted a1 = true ∧
    push_prompt_queue a1 = push_prompt_queue a ++ [None] ∧
    subscribed a1 = subscribed a ∧
    exec [CallRun; StepPN; StepPE; StepPP] a1 = Some a2 ∧
    pull_notifications_thread a2 = Some PN_done ∧
    process_events_thread a2 = Some PE_done ∧
    push_prompts_thread a2 = Some PP_done.
Proof.
  intros Hidle Hpn Hfull Hp.
  set (s1 := set_main_thread ST_set a).
  assert (step CallStop a = Some s1) as H0 by (unfold step; by rewrite Hidle).
  set (s2 := set_main_thread ST_put (set_has_been_stopped true s1)).
  assert (step (StepStop false) s1 = Some s2) as H1 by done.
  set (s3 := set_main_thread ST_prompted
               (set_push_prompt_queue (push_prompt_queue a ++ [None]) s2)).
  assert (step (StepStop false) s2 = Some s3) as H2.
  { unfold step, step_stop, put. cbn. by rewrite Hfull. }
  set (s4 := set_main_thread ST_join_pull (set_has_been_prompted true s3)).
  assert (step (StepStop false) s3 = Some s4) as H3 by done.
  set (s5 := set_main_thread
               (Returned (Some (AttributeError "pull_notifications_thread"))) s4).
  assert (step (StepStop false) s4 = Some s5) as H4.
  { unfold step, step_stop. cbn. by rewrite Hpn. }
  set (r1 := set_main_thread (Returned None)
               (set_push_prompts_thread (Some PP_while)
                  (set_process_events_thread (Some PE_while)
                     (set_pull_notifications_thread (Some PN_while)
                        (set_process (Some (reset_process_readers p)) s5))))).
  assert (step CallRun s5 = Some r1) as H5.
  { unfold step, run, reset_readers. cbn. by rewrite Hpn, Hp. }
  exists s5, (at_pp PP_done (at_pe PE_done (at_pn PN_done r1))).
  split; [|repeat split; try done].
  - change (replicate 4 (StepStop false))
      with [StepStop false; StepStop false; StepStop false; StepStop false].
    rewrite exec_cons, H0. cbn [mbind option_bind].
    rewrite exec_cons, H1. cbn [mbind option_bind].
    rewrite exec_cons, H2. cbn [mbind option_bind].
    rewrite exec_cons, H3. cbn [mbind option_bind].
    rewrite exec_cons, H4. done.
  - rewrite exec_cons, H5. done.
Qed.

Lemma stop_before_run_raises_witness :
  ∃ a1, exec (CallStop :: replicate 4 (StepStop false))
             (run_example [CallInit ["orders"] ["shipping"]]) = Some a1 ∧
        main_thread a1 = Returned (Some (AttributeError "pull_notifications_thread")) ∧
        has_been_stopped a1 = true ∧ subscribed a1 = true.
Proof.
  set (a := run_example _).
  set (p := default (new_ProcessApplication example_args) (process a)).
  pose proof (stop_before_run_raises a p) as H.
  assert (idle a = true) as H1 by (vm_compute; reflexivity).
  assert (pull_notifications_thread a = None) as H2 by (vm_compute; reflexivity).
  assert (full (push_prompt_queue a) = false) as H3 by (vm_compute; reflexivity).
  assert (process a = Some p) as H4 by (vm_compute; reflexivity).
  assert (subscribed a = true) as H5 by (vm_compute; reflexivity).
  clearbody p. clearbody a.
  destruct (H H1 H2 H3 H4) as (a1 & a2 & He & Hm & Hs & _ & _ & Hsub & _).
  exists a1. split; [exact He|]. split; [exact Hm|]. split; [exact Hs|].
  rewrite Hsub. exact H5.
Defined.

(** ** The rounds of the Puller *)

(** Only the Puller's own steps move the Puller, once it exists. *)
Lemma pull_notifications_thread_other_step (l : label) (a a' : RayProcess) :
  l ≠ StepPN → pull_notifications_thread a ≠ None →
  step l a = Some a' →
  pull_notifications_thread a' = pull_notifications_thread a.
Proof.
  intros Hl Hpn Hstep. step_cases Hstep; fields; congruence.
Qed.

(** A thread that has left its loop is not started again. *)
Lemma pull_notifications_finished_forever (pc0 : pn_pc) (ls : list label)
    (a a' : RayProcess) :
  finished_pn pc0 = true →
  pull_notifications_thread a = Some pc0 →
  exec ls a = Some a' →
  pull_notifications_thread a' = Some pc0.
Proof.
  intros Hfin. revert a'.
  apply (exec_inv (λ a, pull_notifications_thread a = Some pc0)).
  intros l b b' Hb Hstep. step_cases Hstep; fields; try congruence.
  all: rewrite Hpc in Hb; by simplify_eq.
Qed.

Lemma scanned_cons_other (l : label) (ls : list label) (a a1 : RayProcess) :
  l ≠ StepPN → step l a = Some a1 → scanned (l :: ls) a = scanned ls a1.
Proof. intros Hl Hstep. simpl. rewrite Hstep. by destruct l. Qed.

Lemma label_is_StepPN (l : label) : l = StepPN ∨ l ≠ StepPN.
Proof. destruct l; first [by left|by right]. Qed.

(** The next step of the Puller in an execution that moves it. *)
Lemma next_step_of_puller (pc0 : pn_pc) (ls : list label) (a b : RayProcess) :
  pull_notifications_thread a = Some pc0 →
  exec ls a = Some b →
  pull_notifications_thread b ≠ Some pc0 →
  ∃ ls0 a0 ls', ls = ls0 ++ StepPN :: ls' ∧ (StepPN ∉ ls0) ∧
                exec ls0 a = Some a0 ∧
                pull_notifications_thread a0 = Some pc0 ∧
                exec (StepPN :: ls') a0 = Some b ∧
                scanned ls a = scanned (StepPN :: ls') a0 ∧
                (within_round ls a = true → within_round (StepPN :: ls') a0 = true).
Proof.
  revert a. induction ls as [|l ls IH]; intros a Hpc Hexec Hb.
  - simpl in Hexec. by simplify_eq.
  - destruct (label_is_StepPN l) as [->|Hl].
    + exists [], a, ls. repeat split; try done. apply not_elem_of_nil.
    + rewrite exec_cons in Hexec.
      destruct (step l a) as [a1|] eqn:Hstep; [|done]. cbn in Hexec.
      assert (pull_notifications_thread a1 = Some pc0) as Hpc1.
      { rewrite <- Hpc. apply (pull_notifications_thread_other_step l); try done.
        by rewrite Hpc. }
      destruct (IH a1 Hpc1 Hexec Hb) as (ls0 & a0 & ls' & -> & Hnot & He0 & Hpc0 & He & Hsc & Hw).
      exists (l :: ls0), a0, ls'. split; [done|]. split.
      { rewrite not_elem_of_cons. split; [congruence|done]. }
      split; [by rewrite exec_cons, Hstep|]. split; [done|]. split; [done|].
      split.
      * rewrite <- Hsc. by apply scanned_cons_other.
      * intros Hwr. apply Hw. cbn [within_round app] in Hwr.
        rewrite Hstep in Hwr. by apply andb_prop in Hwr as [_ ?].
Qed.

(** In a round that is gone through to its end, the Puller reads the names
    left to it, each once, in their order. *)
Lemma round_scans_names_left (ls : list label) (a b : RayProcess) (pc0 : pn_pc)
    (names : list string) :
  pull_notifications_thread a = Some pc0 →
  names_left pc0 = Some names →
  exec ls a = Some b →
  within_round ls a = true →
  at_loop_head b = true →
  scanned ls a = names.
Proof.
  revert a pc0 names. induction ls as [|l ls IH]; intros a pc0 names Hpc0 Hleft Hexec Hwr Hb.
  - simpl in Hexec. simplify_eq. unfold at_loop_head in Hb. rewrite Hpc0 in Hb.
    by destruct pc0.
  - rewrite exec_cons in Hexec.
    destruct (step l a) as [a1|] eqn:Hstep; [|done]. cbn in Hexec.
    cbn [within_round] in Hwr. rewrite Hstep in Hwr.
    apply andb_prop in Hwr as [_ Hwr].
    destruct (label_is_StepPN l) as [->|Hl].
    2: { rewrite (scanned_cons_other l ls a a1 Hl Hstep).
         apply (IH a1 pc0); try done. rewrite <- Hpc0.
         apply (pull_notifications_thread_other_step l); try done. by rewrite Hpc0. }
    assert (∀ pc1, finished_pn pc1 = true →
                   pull_notifications_thread a1 = Some pc1 → False) as Hdead.
    { intros pc1 Hfin Hpc1.
      pose proof (pull_notifications_finished_forever pc1 ls a1 b Hfin Hpc1 Hexec) as Hb'.
      unfold at_loop_head in Hb. rewrite Hb' in Hb. by destruct pc1. }
    cbn [scanned]. rewrite Hstep. unfold reads_next. rewrite Hpc0.
    cbn [step] in Hstep. unfold step_process_notifications in Hstep.
    rewrite Hpc0 in Hstep. cbn in Hstep.
    destruct pc0 as [| | | |names0|names0|u ns names0|item u ns names0| |];
      try done; cbn in Hleft; simplify_eq.
    + (* PN_lock *)
      destruct (event_reading_lock a); [done|]. simplify_eq.
      destruct (process a); by apply (IH _ (PN_for_name names)).
    + (* PN_for_name *)
      destruct names as [|u names].
      * simplify_eq. destruct ls as [|l' ls]; [by destruct (process a)|].
        cbn [within_round] in Hwr. unfold at_loop_head in Hwr. cbn in Hwr. done.
      * destruct (process a) as [p|] eqn:Hp.
        2: { simplify_eq. exfalso. by eapply (Hdead (PN_raised _)). }
        destruct (readers p !! u) as [position|] eqn:Hr.
        2: { simplify_eq. exfalso. by eapply (Hdead (PN_raised _)). }
        simplify_eq. cbn. f_equal.
        by eapply (IH _ (PN_for_notification _ _ names)).
    + (* PN_for_notification *)
      destruct (process a) as [p|] eqn:Hp;
        [|destruct ns; simplify_eq; [by apply (IH _ (PN_for_name names))|];
          exfalso; by eapply (Hdead (PN_raised _))].
      destruct ns as [|n ns]; simplify_eq.
      * by apply (IH _ (PN_for_name names)).
      * destruct (check_causal_dependencies _ _ _); simplify_eq.
        -- by eapply (IH _ (PN_put _ _ _ names)).
        -- exfalso. by eapply (Hdead (PN_raised _)).
    + (* PN_put *)
      destruct (put item (upstream_event_queue a)) as [q|]; [|done]. cbn in Hstep.
      simplify_eq. destruct (process a); by eapply (IH _ (PN_for_notification _ _ names)).
Qed.

(** The pending set is emptied and the signal cleared by the Puller only:
    while it does not move, the set grows and the signal stays set. *)
Lemma pending_names_grow (ls : list label) (a b : RayProcess) :
  StepPN ∉ ls → exec ls a = Some b →
  prompted_names a ⊆ prompted_names b ∧
  (has_been_prompted a = true → has_been_prompted b = true).
Proof.
  revert a. induction ls as [|l ls IH]; intros a Hnot Hexec.
  - simpl in Hexec. by simplify_eq.
  - apply not_elem_of_cons in Hnot as [Hl Hnot]. rewrite exec_cons in Hexec.
    destruct (step l a) as [a1|] eqn:Hstep; [|done]. cbn in Hexec.
    destruct (IH a1 Hnot Hexec) as [Hsub Hflag].
    assert (prompted_names a ⊆ prompted_names a1 ∧
            (has_been_prompted a = true → has_been_prompted a1 = true)) as [Hsub1 Hflag1].
    { clear -Hstep Hl. step_cases Hstep; fields; try done.
      all: split; [apply union_subseteq_l|done]. }
    split; [by etrans|auto].
Qed.

(** A round of the Puller that is gone through to its end: the wait returns,
    the stop signal is found unset, the names are chosen, and each of them is
    read. *)
Lemma round_of_puller (ls : list label) (a b : RayProcess) :
  pull_notifications_thread a = Some PN_wait →
  exec ls a = Some b →
  within_round ls a = true →
  at_loop_head b = true →
  ∃ ls0 a0 lsa sa lsb a1 ls2,
    ls = ls0 ++ StepPN :: lsa ++ StepPN :: lsb ++ StepPN :: ls2 ∧
    (StepPN ∉ ls0) ∧ (StepPN ∉ lsa) ∧ (StepPN ∉ lsb) ∧
    exec ls0 a = Some a0 ∧
    pull_notifications_thread a0 = Some PN_wait ∧
    exec lsa (at_pn (PN_stopped (negb (has_been_prompted a0))) a0) = Some sa ∧
    pull_notifications_thread sa = Some (PN_stopped (negb (has_been_prompted a0))) ∧
    has_been_stopped sa = false ∧
    exec lsb (at_pn (PN_names (negb (has_been_prompted a0))) sa) = Some a1 ∧
    pull_notifications_thread a1 = Some (PN_names (negb (has_been_prompted a0))) ∧
    if has_been_prompted a0
    then scanned ls a = elements (prompted_names a1) ∧
         step StepPN a1
         = Some (at_pn (PN_lock (elements (prompted_names a1)))
                   (set_prompted_names ∅ (set_has_been_prompted false a1)))
    else upstream_logs a1 = Some (scanned ls a) ∧
         step StepPN a1 = Some (at_pn (PN_lock (scanned ls a)) a1).
Proof.
  intros Hpc Hexec Hwr Hb.
  assert (∀ s ks, exec ks s = Some b →
            match pull_notifications_thread s with
            | Some pc1 => finished_pn pc1
            | None => false
            end = true → False) as Hdead.
  { intros s ks He Hfin.
    destruct (pull_notifications_thread s) as [pc1|] eqn:Hpc1; [|done].
    pose proof (pull_notifications_finished_forever pc1 ks s b Hfin Hpc1 He) as Hb'.
    unfold at_loop_head in Hb. rewrite Hb' in Hb. by destruct pc1. }
  assert (∀ pc1, pc1 ≠ PN_while → pull_notifications_thread b ≠ Some pc1) as Hne.
  { intros pc1 Hpc1 Hb'. unfold at_loop_head in Hb. rewrite Hb' in Hb. by destruct pc1. }
  (* the wait *)
  destruct (next_step_of_puller PN_wait ls a b Hpc Hexec (Hne PN_wait ltac:(done)))
    as (ls0 & a0 & ls' & -> & Hn0 & He0 & Hpc0 & He' & Hsc0 & Hw0).
  specialize (Hw0 Hwr). clear Hwr Hexec.
  rewrite exec_cons in He'. cbn [within_round scanned] in Hw0, Hsc0.
  assert (step StepPN a0 = Some (at_pn (PN_stopped (negb (has_been_prompted a0))) a0))
    as Hs0 by (unfold step, step_process_notifications; by rewrite Hpc0).
  rewrite Hs0 in He', Hw0, Hsc0. cbn in He'.
  apply andb_prop in Hw0 as [_ Hw0].
  unfold reads_next in Hsc0. rewrite Hpc0 in Hsc0. cbn [app] in Hsc0.
  set (t := negb (has_been_prompted a0)) in *.
  (* the test of the stop signal *)
  destruct (next_step_of_puller (PN_stopped t) ls' (at_pn (PN_stopped t) a0) b eq_refl He'
              (Hne (PN_stopped t) ltac:(done)))
    as (lsa & sa & ls'' & -> & Hna & Hea & Hpca & He'' & Hsca & Hwa).
  specialize (Hwa Hw0). clear Hw0 He'.
  rewrite exec_cons in He''. cbn [within_round scanned] in Hwa, Hsca.
  assert (has_been_stopped sa = false) as Hstop.
  { destruct (has_been_stopped sa) eqn:E; [|done]. exfalso.
    assert (step StepPN sa = Some (at_pn PN_done sa)) as Hs
      by (unfold step, step_process_notifications; by rewrite Hpca, E).
    rewrite Hs in He''. cbn in He''. exact (Hdead _ _ He'' eq_refl). }
  assert (step StepPN sa = Some (at_pn (PN_names t) sa)) as Hsa
    by (unfold step, step_process_notifications; by rewrite Hpca, Hstop).
  rewrite Hsa in He'', Hwa, Hsca. cbn in He''.
  apply andb_prop in Hwa as [_ Hwa].
  unfold reads_next in Hsca. rewrite Hpca in Hsca. cbn [app] in Hsca.
  (* the choice of the names *)
  destruct (next_step_of_puller (PN_names t) ls'' (at_pn (PN_names t) sa) b eq_refl He''
              (Hne (PN_names t) ltac:(done)))
    as (lsb & a1 & ls2 & -> & Hnb & Heb & Hpcb & He2 & Hscb & Hwb).
  specialize (Hwb Hwa). clear Hwa He''.
  rewrite exec_cons in He2. cbn [within_round scanned] in Hwb, Hscb.
  exists ls0, a0, lsa, sa, lsb, a1, ls2.
  split; [done|]. do 3 (split; [done|]). split; [done|]. split; [done|].
  split; [done|]. split; [done|]. split; [done|]. split; [done|]. split; [done|].
  rewrite Hsc0, Hsca, Hscb. unfold reads_next in *. rewrite Hpcb in *.
  fold t. cbn [step] in *. unfold step_process_notifications in *.
  rewrite Hpcb in *. cbn [mbind option_bind] in *.
  destruct (has_been_prompted a0); cbn in t; subst t; cbn [app] in *.
  - cbn in He2. apply andb_prop in Hwb as [_ Hwb]. split; [|done].
    by apply (round_scans_names_left ls2 _ b (PN_lock (elements (prompted_names a1)))).
  - destruct (upstream_logs a1) as [logs|] eqn:Hlogs.
    2: { exfalso. cbn in He2. exact (Hdead _ _ He2 eq_refl). }
    cbn in He2. apply andb_prop in Hwb as [_ Hwb].
    rewrite (round_scans_names_left ls2 _ b (PN_lock logs) logs); done.
Qed.



(** ** Prompts before a round *)

Lemma prompts_accumulate (names : list string) (a : RayProcess) :
  idle a = true →
  ∃ a', exec (CallPrompt true <$> names) a = Some a' ∧
        idle a' = true ∧
        prompted_names a' = prompted_names a ∪ list_to_set names ∧
        (names ≠ [] → has_been_prompted a' = true) ∧
        pull_notifications_thread a' = pull_notifications_thread a.
Proof.
  revert a. induction names as [|u names IH]; intros a Hidle.
  - exists a. simpl. repeat split; try done. by rewrite (right_id_L ∅ (∪)).
  - set (a1 := set_main_thread (Returned None)
                 (set_has_been_prompted true
                    (set_prompted_names (prompted_names a ∪ {[u]}) a))).
    assert (step (CallPrompt true u) a = Some a1) as H0
      by (unfold step, prompt; by rewrite Hidle).
    destruct (IH a1 eq_refl) as (a' & He & Hi & Hn & Hf & Hpc).
    exists a'. rewrite fmap_cons, exec_cons, H0. cbn [mbind option_bind].
    split; [done|]. split; [done|]. split; [|split].
    + rewrite Hn. unfold a1. cbn. by rewrite (assoc_L (∪)).
    + intros _. destruct names as [|v names]; [|by apply Hf].
      simpl in He. by simplify_eq.
    + by rewrite Hpc.
Qed.

(** X12. Prompts coalesce: after any number of [PromptToPull] prompts the
    pending set holds each name once and the signal is set; in the round
    the waiting Puller then goes through, whatever else happens meanwhile,
    it reads each of the prompted names, and each of the names that were
    pending before, exactly once, however often it was prompted for it. *)
Theorem prompts_coalesce (names : list string) (a : RayProcess) :
  idle a = true →
  names ≠ [] →
  pull_notifications_thread a = Some PN_wait →
  ∃ a', exec (CallPrompt true <$> names) a = Some a' ∧
        prompted_names a' = prompted_names a ∪ list_to_set names ∧
        has_been_prompted a' = true ∧
        pull_notifications_thread a' = Some PN_wait ∧
        ∀ ls b, exec ls a' = Some b →
                within_round ls a' = true →
                at_loop_head b = true →
                NoDup (scanned ls a') ∧
                ∀ u, u ∈ prompted_names a ∨ u ∈ names → u ∈ scanned ls a'.
Proof.
  intros Hidle Hne Hpc.
  destruct (prompts_accumulate names a Hidle) as (a' & He & _ & Hn & Hf & Hpc').
  exists a'. split; [done|]. split; [done|]. split; [by apply Hf|].
  split; [congruence|]. intros ls b Hexec Hwr Hb.
  assert (pull_notifications_thread a' = Some PN_wait) as Hwait by congruence.
  destruct (round_of_puller ls a' b Hwait Hexec Hwr Hb)
    as (ls0 & a0 & lsa & sa & lsb & a1 & ls2 & Hls & Hn0 & Hna & Hnb & He0 & Hpc0 &
        Hea & Hpca & Hstop & Heb & Hpc1 & Hround).
  destruct (pending_names_grow ls0 a' a0 Hn0 He0) as [Hsub0 Hflag0].
  rewrite (Hflag0 (Hf Hne)) in Hround, Hea, Heb.
  destruct (pending_names_grow lsa _ sa Hna Hea) as [Hsuba _].
  destruct (pending_names_grow lsb _ a1 Hnb Heb) as [Hsubb _].
  destruct Hround as [-> _]. split; [apply NoDup_elements|].
  intros u Hu. apply elem_of_elements, Hsubb, Hsuba, Hsub0.
  rewrite Hn, elem_of_union, elem_of_list_to_set. done.
Qed.

Lemma prompts_coalesce_witness :
  ∃ a', exec (CallPrompt true <$> ["orders"; "orders"])
          (run_example (example_started ++ [StepPN])) = Some a' ∧
        prompted_names a' = {["orders"]} ∧ has_been_prompted a' = true ∧
        NoDup (scanned (replicate 11 StepPN) a') ∧
        "orders" ∈ scanned (replicate 11 StepPN) a'.
Proof.
  set (a := run_example (example_started ++ [StepPN])).
  set (a0 := run_example (example_started ++ [StepPN]
                          ++ (CallPrompt true <$> ["orders"; "orders"]))).
  set (b := run_example (example_started ++ [StepPN]
                         ++ (CallPrompt true <$> ["orders"; "orders"])
                         ++ replicate 11 StepPN)).
  pose proof (prompts_coalesce ["orders"; "orders"] a) as H.
  assert (idle a = true) as H1 by (vm_compute; reflexivity).
  assert (pull_notifications_thread a = Some PN_wait) as H2 by (vm_compute; reflexivity).
  assert (prompted_names a = ∅) as H3 by (vm_compute; reflexivity).
  assert (exec (CallPrompt true <$> ["orders"; "orders"]) a = Some a0) as H4
    by (vm_compute; reflexivity).
  assert (exec (replicate 11 StepPN) a0 = Some b) as H5 by (vm_compute; reflexivity).
  assert (within_round (replicate 11 StepPN) a0 = true) as H6
    by (vm_compute; reflexivity).
  assert (at_loop_head b = true) as H7 by (vm_compute; reflexivity).
  clearbody b. clearbody a0. clearbody a.
  destruct (H H1 ltac:(discriminate) H2) as (a' & He & Hn & Hf & _ & Hround).
  assert (a' = a0) as -> by congruence.
  exists a0. split; [exact H4|]. split; [|split; [exact Hf|]].
  - rewrite Hn, H3. apply set_eq. intros u.
    rewrite elem_of_union, elem_of_list_to_set, elem_of_singleton.
    rewrite !elem_of_cons, elem_of_nil, elem_of_empty. tauto.
  - destruct (Hround _ b H5 H6 H7) as [Hnd Hin]. split; [exact Hnd|].
    apply Hin. right. apply list_elem_of_here.
Defined.

(** ** [RayRunner.start]: what it raises, what it leaves *)

Section StartFacts.
Import RayRunner.

Lemma getitem_setitem {K V} `{EqDecision K} (d : list (K * V)) (k k' : K) (v : V) :
  getitem (setitem d k v) k' = if decide (k = k') then Some v else getitem d k'.
Proof.
  induction d as [|[k0 v0] d IH]; simpl.
  - by destruct (decide (k = k')).
  - destruct (decide (k0 = k)) as [->|Hne]; simpl.
    + by destruct (decide (k = k')).
    + destruct (decide (k0 = k')) as [->|Hne'].
      * by destruct (decide (k = k')); [congruence|].
      * exact IH.
Qed.

Lemma getitem_Some_elem_of {K V} `{EqDecision K} (d : list (K * V)) (k : K) (v : V) :
  getitem d k = Some v → (k, v) ∈ d.
Proof.
  induction d as [|[k0 v0] d IH]; simpl; [done|].
  destruct (decide (k0 = k)) as [->|Hne].
  - intros [= ->]. apply list_elem_of_here.
  - intros H. apply list_elem_of_further. by apply IH.
Qed.

Lemma getitem_is_Some {K V} `{EqDecision K} (d : list (K * V)) (k : K) :
  is_Some (getitem d k) ↔ k ∈ d.*1.
Proof.
  induction d as [|[k0 v0] d IH]; simpl.
  - rewrite elem_of_nil. split; [by intros [? ?]|done].
  - rewrite elem_of_cons. destruct (decide (k0 = k)) as [->|Hne].
    + split; [by left|by eauto].
    + rewrite IH. split; [by right|]. intros [?|?]; [congruence|done].
Qed.

Lemma spawn_inner_fold (pid : nat) (all classes : list (string * ProcessClass))
    (acc : list command * list (string * nat * handle)) :
  classes ⊆ all →
  registered all acc →
  let res := foldl (λ '(cmds, ray_processes) '(process_name, process_class),
                      (cmds ++ [Remote process_class pid],
                       setitem ray_processes (process_name, pid) (length cmds)))
                   acc classes in
  res.1 = acc.1 ++ ((λ nc, Remote nc.2 pid) <$> classes) ∧
  registered all res ∧
  ∀ k, is_Some (getitem res.2 k)
       ↔ is_Some (getitem acc.2 k) ∨ (k.2 = pid ∧ k.1 ∈ classes.*1).
Proof.
  revert acc. induction classes as [|[n c] classes IH]; intros [cmds rp] Hsub Hreg; simpl.
  - rewrite app_nil_r. repeat split; try done; [by left|].
    intros [?|[_ Hin]]; [done|]. by apply elem_of_nil in Hin.
  - edestruct (IH (cmds ++ [Remote c pid], setitem rp (n, pid) (length cmds)))
      as (H1 & H2 & H3).
    { intros x Hx. apply Hsub. by apply list_elem_of_further. }
    { intros n' pid' h. simpl. rewrite getitem_setitem.
      destruct (decide ((n, pid) = (n', pid'))) as [[= <- <-]|Hne].
      - intros [= <-]. exists c. split.
        + by rewrite lookup_app_r, Nat.sub_diag.
        + apply Hsub, list_elem_of_here.
      - intros Hg. destruct (Hreg n' pid' h Hg) as (c' & Hl & Hin).
        exists c'. split; [|done]. by apply lookup_app_l_Some. }
    simpl in *. rewrite H1, <- app_assoc. split; [done|]. split; [done|].
    intros k. rewrite H3, getitem_setitem, elem_of_cons.
    destruct (decide ((n, pid) = k)) as [<-|Hne]; simpl.
    + split; [|by eauto]. intros _. right. split; [done|by left].
    + split; [intros [?|[? ?]]; by eauto|].
      intros [?|[Hp [Hk|?]]]; [by left| |by eauto].
      exfalso. apply Hne. destruct k as [k1 k2]. simpl in *. congruence.
Qed.

Lemma spawn_outer_fold (all : list (string * ProcessClass)) (pids : list nat)
    (acc : list command * list (string * nat * handle)) :
  registered all acc →
  let res := foldl (λ acc pipeline_id,
               foldl (λ '(cmds, ray_processes) '(process_name, process_class),
                        (cmds ++ [Remote process_class pipeline_id],
                         setitem ray_processes (process_name, pipeline_id) (length cmds)))
                     acc all) acc pids in
  res.1 = acc.1 ++ (pids ≫= λ pid, (λ nc, Remote nc.2 pid) <$> all) ∧
  registered all res ∧
  ∀ k, is_Some (getitem res.2 k)
       ↔ is_Some (getitem acc.2 k) ∨ (k.2 ∈ pids ∧ k.1 ∈ all.*1).
Proof.
  revert acc. induction pids as [|pid pids IH]; intros acc Hreg; simpl.
  - rewrite app_nil_r. repeat split; try done; [by left|].
    intros [?|[Hin _]]; [done|]. by apply elem_of_nil in Hin.
  - destruct (spawn_inner_fold pid all all acc) as (H1 & H2 & H3); [done..|].
    edestruct (IH _ H2) as (G1 & G2 & G3).
    rewrite G1, H1, <- app_assoc. split; [done|]. split; [done|].
    intros k. rewrite G3, H3, elem_of_cons. tauto.
Qed.

(** Lines 95-105: the actors spawned, one for each pipeline id and process
    class, and the registry. *)
Lemma spawn_all_registry (r : RayRunner) :
  (spawn_all r).1
  = (pipeline_ids r ≫= λ pid, (λ nc, Remote nc.2 pid) <$> process_classes (system r)) ∧
  registered (process_classes (system r)) (spawn_all r) ∧
  ∀ n pid, is_Some (getitem (spawn_all r).2 (n, pid))
           ↔ pid ∈ pipeline_ids r ∧ n ∈ (process_classes (system r)).*1.
Proof.
  destruct (spawn_outer_fold (process_classes (system r)) (pipeline_ids r) ([], []))
    as (H1 & H2 & H3).
  { intros n pid h. done. }
  split; [exact H1|]. split; [exact H2|]. intros n pid.
  unfold spawn_all. rewrite (H3 (n, pid)). simpl. split; [|by right].
  intros [[? ?]|?]; done.
Qed.

Lemma spawned_spawn_all (r : RayRunner) :
  Forall (λ c, is_Remote c = true) (spawn_all r).1 ∧
  length (spawn_all r).1 = length (pipeline_ids r) * length (process_classes (system r)).
Proof.
  destruct (spawn_all_registry r) as (-> & _).
  induction (pipeline_ids r) as [|pid pids [IH1 IH2]]; [done|].
  rewrite bind_cons. split.
  - apply Forall_app. split; [|done]. apply Forall_fmap, Forall_true. done.
  - rewrite length_app, length_fmap, IH2. done.
Qed.
End StartFacts.

Section StartOutcomes.
Import RayRunner.

Lemma check_infrastructure_error (infra : option InfrastructureClass)
    (classes : list ProcessClass) (e : exception) :
  check_infrastructure infra classes = Raise e → ∃ msg, e = ProgrammingError msg.
Proof.
  induction classes as [|c classes IH]; simpl; [done|].
  destruct (isinstance_concrete c); simpl; [done|].
  destruct infra as [i|]; [|intros [= <-]; by eauto].
  destruct (issubclass_concrete i); simpl; [done|]. intros [= <-]. by eauto.
Qed.

(** When the check of lines 69-80 passes, every process class is concrete
    or the infrastructure class is given and is a subclass. *)
Lemma check_infrastructure_passes (infra : option InfrastructureClass)
    (classes : list ProcessClass) (c : ProcessClass) :
  check_infrastructure infra classes = Return () → c ∈ classes →
  isinstance_concrete c = true ∨ ∃ i, infra = Some i ∧ issubclass_concrete i = true.
Proof.
  induction classes as [|c' classes IH]; simpl.
  - intros _ Hin. by apply elem_of_nil in Hin.
  - intros Hcheck Hin. apply elem_of_cons in Hin as [->|Hin].
    + destruct (isinstance_concrete c'); simpl in Hcheck; [by left|].
      destruct infra as [i|]; [|done].
      destruct (issubclass_concrete i) eqn:Hi; simpl in Hcheck; [|done].
      right. by eauto.
    + apply IH; [|done].
      destruct (isinstance_concrete c'); simpl in Hcheck; [done|].
      destruct infra as [i|]; [|done].
      by destruct (issubclass_concrete i).
Qed.

Lemma lookup_all_error (rp : list (string * nat * handle)) (pid : nat)
    (names : list string) (e : exception) :
  lookup_all rp pid names = Raise e → ∃ k, e = KeyError k.
Proof.
  induction names as [|n names IH]; simpl; [done|].
  destruct (getitem rp (n, pid)); [done|]. intros [= <-]. by eauto.
Qed.

Lemma init_all_outcome (r : RayRunner) (rp entries : list (string * nat * handle)) :
  Forall (λ c, match c with InitRemote _ _ _ => True | _ => False end)
         (init_all r rp entries).1 ∧
  match (init_all r rp entries).2 with
  | Raise e => ∃ k, e = KeyError k
  | Return _ =>
      (λ c, match c with InitRemote h _ _ => h | _ => 0 end) <$> (init_all r rp entries).1
      = entries.*2
  end.
Proof.
  induction entries as [|[[n pid] h] entries IH]; simpl; [done|].
  destruct (getitem (upstream_names (system r)) n) as [ups|]; simpl; [|by eauto].
  destruct (getitem (downstream_names (system r)) n) as [downs|]; simpl; [|by eauto].
  destruct (lookup_all rp pid downs) as [[]|e] eqn:Hd; simpl;
    [|split; [done|by eapply lookup_all_error]].
  destruct (lookup_all rp pid ups) as [[]|e] eqn:Hu; simpl;
    [|split; [done|by eapply lookup_all_error]].
  destruct (init_all r rp entries) as [cmds [[]|e]]; simpl in *;
    destruct IH as [IH1 IH2]; (split; [by constructor|]); [|done].
  f_equal. exact IH2.
Qed.

(** The four ways [start] can end. *)
Lemma start_cases (r : RayRunner) :
  let check := check_infrastructure (infrastructure_class r)
                 (process_classes (system r)).*2 in
  let spawns := (spawn_all r).1 in
  let rp := (spawn_all r).2 in
  let inits := (init_all r rp rp).1 in
  (∃ msg, check = Raise (ProgrammingError msg) ∧
          start r = ([], Raise (ProgrammingError msg))) ∨
  (check = Return () ∧ truthy (env_DB_URI r) = false ∧
   ∃ msg, start r = ([], Raise (AssertionError msg))) ∨
  (check = Return () ∧ truthy (env_DB_URI r) = true ∧
   ∃ k, (init_all r rp rp).2 = Raise (KeyError k) ∧
        start r = (spawns ++ inits, Raise (KeyError k))) ∨
  (check = Return () ∧ truthy (env_DB_URI r) = true ∧
   (init_all r rp rp).2 = Return () ∧
   start r = (spawns ++ inits ++ [GetInit rp.*2] ++ (RunRemote <$> rp.*2)
                ++ [GetRun rp.*2], Return ())).
Proof.
  intros check spawns rp inits. unfold start. fold check.
  destruct check as [[]|e] eqn:Hcheck.
  - destruct (truthy (env_DB_URI r)) eqn:Hdb; simpl.
    + pose proof (init_all_outcome r rp rp) as [_ Ho].
      unfold inits, spawns, rp in *.
      destruct (spawn_all r) as [sp rp'] eqn:Hsp. simpl in *.
      destruct (init_all r rp' rp') as [ins o] eqn:Hin. simpl in *.
      destruct o as [[]|e].
      * right. right. right. done.
      * destruct Ho as [k ->]. right. right. left. by eauto.
    + right. left. by eauto.
  - destruct (check_infrastructure_error _ _ _ Hcheck) as [msg ->]. left. by eauto.
Qed.

(** X13. [start] raises the [AssertionError] of lines 90-92 exactly when
    the infrastructure check passes and neither [db_uri] nor the environment
    gives a [DB_URI] that is not empty; it has then spawned no actor. A
    [db_uri] that is not empty is preferred to the environment's. *)
Theorem start_needs_a_database_uri (r : RayRunner) :
  ((∃ msg, (start r).2 = Raise (AssertionError msg))
   ↔ check_infrastructure (infrastructure_class r) (process_classes (system r)).*2
     = Return () ∧
     truthy (db_uri r) = false ∧ truthy (environ_DB_URI r) = false) ∧
  ((∃ msg, (start r).2 = Raise (AssertionError msg)) → (start r).1 = []) ∧
  (truthy (db_uri r) = true → env_DB_URI r = db_uri r) ∧
  (truthy (db_uri r) = false → env_DB_URI r = environ_DB_URI r).
Proof.
  assert (truthy (env_DB_URI r) = false
          ↔ truthy (db_uri r) = false ∧ truthy (environ_DB_URI r) = false) as Henv.
  { unfold env_DB_URI. destruct (truthy (db_uri r)) eqn:Hd; [rewrite Hd|]; intuition congruence. }
  split; [|split; [|split]].
  - destruct (start_cases r) as [(msg & Hc & Hs)|[(Hc & Hdb & msg & Hs)|
      [(Hc & Hdb & k & _ & Hs)|(Hc & Hdb & _ & Hs)]]]; rewrite Hs; simpl.
    + split; [by intros [? ?]|]. rewrite Hc. by intros [? _].
    + split; [|by eauto]. intros _. split; [done|]. by apply Henv.
    + split; [by intros [? ?]|]. intros (_ & H1 & H2).
      assert (truthy (env_DB_URI r) = false) by (by apply Henv). congruence.
    + split; [by intros [? ?]|]. intros (_ & H1 & H2).
      assert (truthy (env_DB_URI r) = false) by (by apply Henv). congruence.
  - destruct (start_cases r) as [(msg & Hc & Hs)|[(Hc & Hdb & msg & Hs)|
      [(Hc & Hdb & k & _ & Hs)|(Hc & Hdb & _ & Hs)]]]; rewrite Hs; simpl;
      try done; by intros [? ?].
  - unfold env_DB_URI. by intros ->.
  - unfold env_DB_URI. by intros ->.
Qed.
End StartOutcomes.

Section StartLeaves.
Import RayRunner.

(** While [start] waits in the [ray.get] of line 128, [run] has been
    invoked on no actor. *)
Lemma no_run_while_waiting_for_init (r : RayRunner) (ms : list move) (c : cluster)
    (hs : list handle) (rest : list command) :
  exec_cluster ms (boot r) = Some c →
  pending c = GetInit hs :: rest →
  ∀ h a, actors c !! h = Some a → run_invoked a = false.
Proof.
  intros Hexec Hp h a Ha.
  destruct (run_invoked a) eqn:Hr; [exfalso|done].
  destruct (cluster_inv_exec _ _ _ _ (cluster_inv_boot r) Hexec)
    as (ex & rest' & Hc & Hp' & _ & Hrun & _).
  destruct Hp' as [Hp'|Hp']; [|congruence].
  destruct (Hrun h a Ha Hr) as [h' Hin].
  apply list_elem_of_split in Hin as (pre & post & ->).
  assert ((start r).1 = pre ++ RunRemote h' :: post ++ GetInit hs :: rest) as Hc'.
  { rewrite Hc, <- app_assoc. simpl. congruence. }
  destruct (start_shape r pre _ h' Hc') as (_ & _ & _ & Hpost).
  apply Forall_app in Hpost as [_ Hpost]. by apply Forall_cons in Hpost as [? _].
Qed.

(** Once [start] has ended, nothing invokes [run]. *)
Lemma ended_start_invokes_nothing (ms : list move) (c c' : cluster) :
  pending c = [] →
  (∀ h a, actors c !! h = Some a → run_invoked a = false) →
  exec_cluster ms c = Some c' →
  pending c' = [] ∧ ∀ h a, actors c' !! h = Some a → run_invoked a = false.
Proof.
  revert c. induction ms as [|m ms IH]; intros c Hp Hno; simpl.
  - by intros [= <-].
  - destruct (step_cluster m c) as [c1|] eqn:Hstep; simpl; [|done].
    destruct (step_cluster_actors m c c1 Hstep) as [_ Horigin].
    apply IH.
    + destruct m as [|h ok]; simpl in Hstep.
      * unfold step_runner in Hstep. by rewrite Hp in Hstep.
      * unfold step_actor in Hstep. destruct (actors c !! h); simpl in Hstep; [|done].
        destruct (mailbox a); by simplify_eq.
    + intros h a' Ha'. destruct (run_invoked a') eqn:Hr; [exfalso|done].
      destruct (Horigin h a' Ha' Hr) as [(a & Ha & Hra)|(h0 & rest & _ & Hpend)].
      * specialize (Hno h a Ha). congruence.
      * congruence.
Qed.
(** X14. What [start] raises. An exception of its own statements comes
    before its first [ray.get]: [start] has then invoked [run] on no actor
    and has waited for no [init], what it issued are spawns and
    [init.remote] calls; a [ProgrammingError] or the [AssertionError] comes
    before the first spawn, a [KeyError], raised at lines 111-120 for a
    process name that [upstream_names] or [downstream_names] does not bind
    or for a neighbour that is no process of the system, when all the actors
    have been spawned. While [start] waits in the [ray.get] of line 128,
    [run] has been invoked on no actor; when that [ray.get] raises, because
    an [init] failed, [start] ends there, and [run] is never invoked on any
    actor. *)
Theorem start_raises_before_any_run (r : RayRunner) :
  (∀ e, (start r).2 = Raise e →
     Forall (λ c, match c with Remote _ _ | InitRemote _ _ _ => True | _ => False end)
            (start r).1 ∧
     ((∃ k, e = KeyError k) →
      spawned (start r).1
      = length (pipeline_ids r) * length (process_classes (system r))) ∧
     ((∀ k, e ≠ KeyError k) → (start r).1 = [])) ∧
  (∀ ms c hs rest,
     exec_cluster ms (boot r) = Some c →
     pending c = GetInit hs :: rest →
     (∀ h a, actors c !! h = Some a → run_invoked a = false) ∧
     (ray_get TInit hs c = Some false →
      ∀ ms' c', exec_cluster (Runner :: ms') c = Some c' →
                pending c' = [] ∧
                ∀ h a, actors c' !! h = Some a → run_invoked a = false)).
Proof.
  split.
  - intros e He.
    destruct (spawned_spawn_all r) as [Hrem Hlen].
    pose proof (init_all_outcome r (spawn_all r).2 (spawn_all r).2) as [Hinit _].
    destruct (start_cases r) as [(msg & Hc & Hs)|[(Hc & Hdb & msg & Hs)|
      [(Hc & Hdb & k & Hk & Hs)|(Hc & Hdb & _ & Hs)]]]; rewrite Hs in *; simpl in *;
      simplify_eq.
    + split; [done|]. split; [by intros [? ?]|done].
    + split; [done|]. split; [by intros [? ?]|done].
    + pose proof (init_all_commands r (spawn_all r).2 (spawn_all r).2) as Hcmds.
      split; [|split].
      * apply Forall_app. split.
        -- eapply Forall_impl; [exact Hrem|]. by intros [].
        -- eapply Forall_impl; [exact Hinit|]. by intros [].
      * intros _. rewrite spawned_app, (spawned_all_Remote _ Hrem), Hlen.
        rewrite (spawned_no_Remote (init_all r _ _).1); [lia|].
        eapply Forall_impl; [exact Hcmds|]. by intros ? [? ?].
      * intros Hne. by destruct (Hne k).
  - intros ms c hs rest Hexec Hp.
    pose proof (no_run_while_waiting_for_init r ms c hs rest Hexec Hp) as Hno.
    split; [done|]. intros Hget ms' c'.
    change (exec_cluster (Runner :: ms') c)
      with (step_cluster Runner c ≫= exec_cluster ms').
    cbn [step_cluster]. unfold step_runner. rewrite Hp, Hget.
    cbn [after_get mbind option_bind].
    by apply ended_start_invokes_nothing.
Qed.

(** X15. After a [start] that returned, [get_ray_process] finds an actor
    for every process name of the system and every pipeline id of the
    runner: an actor that [start] spawned for that pipeline id, with a class
    bound to that name. For any other name or pipeline id it raises
    [KeyError]. *)
Theorem get_ray_process_after_start (r : RayRunner) (process_name : string)
    (pipeline_id : nat) :
  (start r).2 = Return () →
  (process_name ∈ (process_classes (system r)).*1 ∧ pipeline_id ∈ pipeline_ids r →
   ∃ h process_class,
     get_ray_process (ray_processes_after_start r) process_name pipeline_id = Return h ∧
     (process_name, process_class) ∈ process_classes (system r) ∧
     (start r).1 !! h = Some (Remote process_class pipeline_id)) ∧
  (¬ (process_name ∈ (process_classes (system r)).*1 ∧ pipeline_id ∈ pipeline_ids r) →
   get_ray_process (ray_processes_after_start r) process_name pipeline_id
   = Raise (KeyError process_name)).
Proof.
  intros Hret.
  destruct (spawn_all_registry r) as (_ & Hreg & Hdom).
  assert (ray_processes_after_start r = (spawn_all r).2 ∧
          ∃ rest, (start r).1 = (spawn_all r).1 ++ rest) as [Hrp [rest Hcmds]].
  { unfold ray_processes_after_start.
    destruct (start_cases r) as [(msg & Hc & Hs)|[(Hc & Hdb & msg & Hs)|
      [(Hc & Hdb & k & Hk & Hs)|(Hc & Hdb & _ & Hs)]]]; rewrite Hs in *; simpl in *;
      simplify_eq.
    rewrite Hc, Hdb. simpl. split; [done|]. by eauto. }
  rewrite Hrp, Hcmds. unfold get_ray_process. split.
  - intros [Hn Hp].
    destruct (getitem (spawn_all r).2 (process_name, pipeline_id)) as [h|] eqn:Hg.
    + destruct (Hreg _ _ _ Hg) as (c & Hl & Hin).
      exists h, c. split; [done|]. split; [done|]. by apply lookup_app_l_Some.
    + assert (is_Some (getitem (spawn_all r).2 (process_name, pipeline_id))) as [? H]
        by (by apply Hdom).
      congruence.
  - intros Hnot.
    destruct (getitem (spawn_all r).2 (process_name, pipeline_id)) as [h|] eqn:Hg;
      [|done].
    exfalso. apply Hnot. assert (is_Some (getitem (spawn_all r).2
                                            (process_name, pipeline_id))) as Hs by eauto.
    apply Hdom in Hs as [? ?]. done.
Qed.
End StartLeaves.

(** X16. After a [start] that returned, [RayRunner.call] for a process of
    the system and a pipeline id of the runner is answered by an actor
    spawned for them: it returns or raises what that actor's [call] does,
    that actor alone changes state; for any other name or pipeline id it
    raises [KeyError] and reaches no actor. *)
Theorem RayRunner_call_reaches_the_registered_actor {value : Type}
    (getattr : string → option (list value → ProcessApplication →
                                outcome value * ProcessApplication))
    (r : RayRunner.RayRunner) (actors : nat → RayProcess)
    (process_name : string) (pipeline_id : nat)
    (method_name : string) (arguments : list value) :
  (RayRunner.start r).2 = Return () →
  let answer :=
    RayRunner_call getattr (ray_processes_after_start r) actors
      process_name pipeline_id method_name arguments in
  (process_name ∈ (RayRunner.process_classes (RayRunner.system r)).*1 ∧
   pipeline_id ∈ RayRunner.pipeline_ids r →
   ∃ h process_class,
     (process_name, process_class) ∈ RayRunner.process_classes (RayRunner.system r) ∧
     (RayRunner.start r).1 !! h = Some (RayRunner.Remote process_class pipeline_id) ∧
     answer.1 = (call getattr method_name arguments (actors h)).1.1 ∧
     answer.2 h = (call getattr method_name arguments (actors h)).1.2 ∧
     ∀ h', h' ≠ h → answer.2 h' = actors h') ∧
  (¬ (process_name ∈ (RayRunner.process_classes (RayRunner.system r)).*1 ∧
      pipeline_id ∈ RayRunner.pipeline_ids r) →
   answer = (Raise (KeyError process_name), actors)).
Proof.
  intros Hret answer.
  destruct (get_ray_process_after_start r process_name pipeline_id Hret) as [Hyes Hno].
  unfold answer, RayRunner_call. split.
  - intros Hin. destruct (Hyes Hin) as (h & c & -> & Hc & Hl).
    exists h, c. split; [done|]. split; [done|].
    destruct (call getattr method_name arguments (actors h)) as [[o a'] n]. simpl.
    split; [done|]. split.
    + by case_decide.
    + intros h' Hne. by case_decide.
  - intros Hnot. by rewrite (Hno Hnot).
Qed.

Lemma start_raises_before_any_run_witness :
  (RayRunner.start example_runner_with_unknown_neighbour).2 = Raise (KeyError "billing") ∧
  RayRunner.spawned (RayRunner.start example_runner_with_unknown_neighbour).1 = 2 ∧
  ∃ c, RayRunner.exec_cluster example_moves_init_fails (RayRunner.boot example_runner)
       = Some c ∧
       RayRunner.pending c = [] ∧
       ∀ h a, RayRunner.actors c !! h = Some a → RayRunner.run_invoked a = false.
Proof.
  assert ((RayRunner.start example_runner_with_unknown_neighbour).2
          = Raise (KeyError "billing")) as He by (vm_compute; reflexivity).
  split; [exact He|].
  destruct (start_raises_before_any_run example_runner_with_unknown_neighbour)
    as [H _].
  destruct (H (KeyError "billing") He) as (_ & Hk & _).
  split; [rewrite Hk; [reflexivity|by eauto]|].
  destruct (start_raises_before_any_run example_runner) as [_ H'].
  set (c0 := default (RayRunner.boot example_runner)
               (RayRunner.exec_cluster (replicate 4 RayRunner.Runner
                                          ++ [RayRunner.Actor 1 false])
                  (RayRunner.boot example_runner))).
  set (c := default (RayRunner.boot example_runner)
              (RayRunner.exec_cluster example_moves_init_fails
                 (RayRunner.boot example_runner))).
  destruct (H' (replicate 4 RayRunner.Runner ++ [RayRunner.Actor 1 false]) c0 [0; 1]
              [RayRunner.RunRemote 0; RayRunner.RunRemote 1; RayRunner.GetRun [0; 1]])
    as [_ Hraise]; [vm_compute; reflexivity..|].
  exists c. split; [vm_compute; reflexivity|].
  apply (Hraise eq_refl [RayRunner.Actor 0 true]). vm_compute. reflexivity.
Defined.

Lemma get_ray_process_after_start_witness :
  ∃ h process_class,
    get_ray_process (ray_processes_after_start example_runner) "payments" 0 = Return h ∧
    (RayRunner.start example_runner).1 !! h = Some (RayRunner.Remote process_class 0).
Proof.
  assert ((RayRunner.start example_runner).2 = Return ()) as Hret
    by (vm_compute; reflexivity).
  destruct (get_ray_process_after_start example_runner "payments" 0 Hret) as [H _].
  destruct H as (h & c & H1 & _ & H3).
  { split; simpl; rewrite !elem_of_cons; auto. }
  exists h, c. split; [exact H1|exact H3].
Defined.

Lemma RayRunner_call_reaches_the_registered_actor_witness :
  (RayRunner_call example_getattr (ray_processes_after_start example_runner)
     (λ _, run_example example_started) "payments" 0 "pay" []).1 = Return "paid".
Proof.
  assert ((RayRunner.start example_runner).2 = Return ()) as Hret
    by (vm_compute; reflexivity).
  destruct (RayRunner_call_reaches_the_registered_actor example_getattr example_runner
              (λ _, run_example example_started) "payments" 0 "pay" [] Hret) as [H _].
  destruct H as (h & c & _ & _ & Ha & _).
  { split; simpl; rewrite !elem_of_cons; auto. }
  rewrite Ha. vm_compute. reflexivity.
Defined.

Section StartWires.
Import RayRunner.

Lemma lookup_all_ok (rp : list (string * nat * handle)) (pid : nat)
    (names : list string) :
  lookup_all rp pid names = Return () →
  ∀ n, n ∈ names → is_Some (getitem rp (n, pid)).
Proof.
  induction names as [|n names IH]; simpl.
  - intros _ n Hin. by apply elem_of_nil in Hin.
  - destruct (getitem rp (n, pid)) as [h|] eqn:Hg; [|done].
    intros Hl n' Hin. apply elem_of_cons in Hin as [->|Hin]; [by rewrite Hg|by apply IH].
Qed.

Lemma init_all_wiring (r : RayRunner) (rp entries : list (string * nat * handle))
    (h : handle) (ups downs : list string) :
  InitRemote h ups downs ∈ (init_all r rp entries).1 →
  ∃ n pid, (n, pid, h) ∈ entries ∧
           getitem (upstream_names (system r)) n = Some ups ∧
           getitem (downstream_names (system r)) n = Some downs ∧
           ∀ u, u ∈ ups ++ downs → is_Some (getitem rp (u, pid)).
Proof.
  induction entries as [|[[n pid] h0] entries IH]; simpl.
  - intros Hin. by apply elem_of_nil in Hin.
  - destruct (getitem (upstream_names (system r)) n) as [ups0|] eqn:Hu; simpl;
      [|intros Hin; by apply elem_of_nil in Hin].
    destruct (getitem (downstream_names (system r)) n) as [downs0|] eqn:Hd; simpl;
      [|intros Hin; by apply elem_of_nil in Hin].
    destruct (lookup_all rp pid downs0) as [[]|e] eqn:Hld; simpl;
      [|intros Hin; by apply elem_of_nil in Hin].
    destruct (lookup_all rp pid ups0) as [[]|e] eqn:Hlu; simpl;
      [|intros Hin; by apply elem_of_nil in Hin].
    destruct (init_all r rp entries) as [cmds o]. simpl in *.
    intros Hin. apply elem_of_cons in Hin as [[= -> -> ->]|Hin].
    + exists n, pid. split; [apply list_elem_of_here|]. split; [done|]. split; [done|].
      intros u Hu'. apply elem_of_app in Hu' as [Hu'|Hu'];
        [exact (lookup_all_ok _ _ _ Hlu u Hu')|exact (lookup_all_ok _ _ _ Hld u Hu')].
    + destruct (IH Hin) as (n' & pid' & Hin' & ? & ? & ?).
      exists n', pid'. split; [by apply list_elem_of_further|done].
Qed.

Lemma start_commands_elem (r : RayRunner) (c : command) :
  c ∈ (start r).1 →
  check_infrastructure (infrastructure_class r) (process_classes (system r)).*2
  = Return () ∧
  truthy (env_DB_URI r) = true ∧
  (c ∈ (spawn_all r).1 ∨ c ∈ (init_all r (spawn_all r).2 (spawn_all r).2).1 ∨
   (∃ hs, c = GetInit hs) ∨ (∃ h, c = RunRemote h) ∨ (∃ hs, c = GetRun hs)).
Proof.
  destruct (start_cases r) as [(msg & Hc & Hs)|[(Hc & Hdb & msg & Hs)|
    [(Hc & Hdb & k & Hk & Hs)|(Hc & Hdb & _ & Hs)]]]; rewrite Hs;
    cbn [fst]; intros Hin.
  - by apply elem_of_nil in Hin.
  - by apply elem_of_nil in Hin.
  - split; [done|]. split; [done|]. apply elem_of_app in Hin. tauto.
  - split; [done|]. split; [done|].
    apply elem_of_app in Hin as [?|Hin]; [by left|].
    apply elem_of_app in Hin as [?|Hin]; [by auto|].
    apply elem_of_app in Hin as [Hin|Hin].
    { apply list_elem_of_singleton in Hin. by eauto 6. }
    apply elem_of_app in Hin as [Hin|Hin].
    { apply list_elem_of_fmap in Hin as (h & -> & _). by eauto 6. }
    apply list_elem_of_singleton in Hin. by eauto 6.
Qed.

(** X17. A [start] that returned has issued, for a runner with distinct
    identities, exactly these commands: one spawn for each pipeline id and
    process class; one [init.remote] for each of the actors spawned; one
    [ray.get] that waits for all of them; one [run.remote] for each; and one
    [ray.get] for those. Every actor is sent [init] once and [run] once. *)
Theorem start_inits_and_runs_each_actor_once (r : RayRunner) :
  distinct_identities r →
  (start r).2 = Return () →
  let n := length (pipeline_ids r) * length (process_classes (system r)) in
  ∃ spawns inits,
    (start r).1 = spawns ++ inits ++ [GetInit (seq 0 n)] ++ (RunRemote <$> seq 0 n)
                    ++ [GetRun (seq 0 n)] ∧
    length spawns = n ∧ Forall (λ c, is_Remote c = true) spawns ∧
    Forall (λ c, match c with InitRemote _ _ _ => True | _ => False end) inits ∧
    (λ c, match c with InitRemote h _ _ => h | _ => 0 end) <$> inits = seq 0 n.
Proof.
  intros Hd Hret n.
  destruct (spawn_all_spec r Hd) as [_ Hseq].
  destruct (spawned_spawn_all r) as [Hrem Hlen].
  pose proof (init_all_outcome r (spawn_all r).2 (spawn_all r).2) as [Hinit Hhandles].
  destruct (start_cases r) as [(msg & Hc & Hs)|[(Hc & Hdb & msg & Hs)|
    [(Hc & Hdb & k & Hk & Hs)|(Hc & Hdb & Hok & Hs)]]]; rewrite Hs in *; simpl in *;
    simplify_eq.
  rewrite Hok in Hhandles. rewrite Hseq, Hlen in *.
  exists (spawn_all r).1, (init_all r (spawn_all r).2 (spawn_all r).2).1.
  repeat split; done.
Qed.

(** X18. A [start] that returned has sent each [init] to a registered
    actor with the upstream and downstream names that the system binds to
    the actor's process name, and every one of these neighbours is an actor
    registered for the same pipeline id. *)
Theorem start_wires_each_actor_to_its_neighbours (r : RayRunner) (h : handle)
    (ups downs : list string) :
  (start r).2 = Return () →
  InitRemote h ups downs ∈ (start r).1 →
  ∃ process_name pipeline_id,
    (process_name, pipeline_id, h) ∈ ray_processes_after_start r ∧
    getitem (upstream_names (system r)) process_name = Some ups ∧
    getitem (downstream_names (system r)) process_name = Some downs ∧
    ∀ u, u ∈ ups ++ downs →
         ∃ h', get_ray_process (ray_processes_after_start r) u pipeline_id = Return h'.
Proof.
  intros Hret Hin.
  destruct (spawned_spawn_all r) as [Hrem _].
  destruct (start_commands_elem r _ Hin) as (Hc & Hdb & Hcases).
  assert (ray_processes_after_start r = (spawn_all r).2) as Hrp.
  { unfold ray_processes_after_start. by rewrite Hc, Hdb. }
  assert (InitRemote h ups downs ∈ (init_all r (spawn_all r).2 (spawn_all r).2).1)
    as Hin'.
  { destruct Hcases as [Hs|[?|[[? ?]|[[? ?]|[? ?]]]]]; try done.
    rewrite Forall_forall in Hrem. by specialize (Hrem _ Hs). }
  rewrite Hrp.
  destruct (init_all_wiring r _ _ h ups downs Hin') as (n & pid & He & Hu & Hd & Hall).
  exists n, pid. split; [done|]. split; [done|]. split; [done|].
  intros u Hu'. destruct (Hall u Hu') as [h' Hg]. exists h'.
  unfold get_ray_process. by rewrite Hg.
Qed.

(** X19. The check at the head of [start] covers the check in [init]: an
    actor that [start] has spawned, with the arguments of lines 97-104, does
    not raise [ProgrammingError] from its [init], whatever logs and
    downstream processes it is given. Its [init] returns when its process
    class is not an instance of [ApplicationWithConcreteInfrastructure]; when
    it is one, which the check of [start] lets through, [init] raises
    [TypeError] at line 194. *)
Theorem start_check_covers_init (r : RayRunner) (process_class : ProcessClass)
    (pipeline_id : nat) (stored : list (string * nat))
    (logs downstream : list string) :
  Remote process_class pipeline_id ∈ (start r).1 →
  let o := (init logs downstream
              (new_RayProcess (actor_args r process_class pipeline_id stored))).1 in
  (∀ msg, o ≠ Raise (ProgrammingError msg)) ∧
  (isinstance_concrete process_class = false → o = Return ()) ∧
  (isinstance_concrete process_class = true →
   o = Raise (TypeError "object is not callable")).
Proof.
  intros Hin.
  pose proof (init_all_outcome r (spawn_all r).2 (spawn_all r).2) as [Hinit _].
  destruct (spawn_all_registry r) as (Hsp & _ & _).
  destruct (start_commands_elem r _ Hin) as (Hcheck & _ & Hcases).
  assert (Remote process_class pipeline_id ∈ (spawn_all r).1) as Hin'.
  { destruct Hcases as [?|[Hi|[[? ?]|[[? ?]|[? ?]]]]]; try done.
    rewrite Forall_forall in Hinit. by specialize (Hinit _ Hi). }
  rewrite Hsp in Hin'. apply list_elem_of_bind in Hin' as (pid & Hin' & _).
  apply list_elem_of_fmap in Hin' as ([n c] & [= -> ->] & Hc).
  assert (c ∈ (process_classes (system r)).*2) as Hc2.
  { apply list_elem_of_fmap. by exists (n, c). }
  unfold init, actor_args. cbn.
  destruct (check_infrastructure_passes _ _ c Hcheck Hc2) as [Hc'|(i & Hi & _)].
  - rewrite Hc'. by repeat split.
  - rewrite Hi. destruct (isinstance_concrete c); by repeat split.
Qed.
End StartWires.

Lemma start_inits_and_runs_each_actor_once_witness :
  ∃ spawns inits,
    (RayRunner.start example_runner).1
    = spawns ++ inits ++ [RayRunner.GetInit [0; 1]]
        ++ [RayRunner.RunRemote 0; RayRunner.RunRemote 1] ++ [RayRunner.GetRun [0; 1]] ∧
    length spawns = 2 ∧
    (λ c, match c with RayRunner.InitRemote h _ _ => h | _ => 0 end) <$> inits = [0; 1].
Proof.
  destruct (start_inits_and_runs_each_actor_once example_runner)
    as (spawns & inits & H1 & H2 & _ & _ & H3).
  - split; [apply (bool_decide_unpack (NoDup ["orders"; "payments"]))
           |apply (bool_decide_unpack (NoDup [0]))]; vm_compute; exact I.
  - vm_compute. reflexivity.
  - exists spawns, inits. split; [exact H1|]. split; [exact H2|exact H3].
Defined.

Lemma start_wires_each_actor_to_its_neighbours_witness :
  ∃ process_name pipeline_id,
    RayRunner.getitem (RayRunner.upstream_names (RayRunner.system example_runner))
      process_name = Some ["orders"] ∧
    ∃ h', get_ray_process (ray_processes_after_start example_runner) "orders" pipeline_id
          = Return h'.
Proof.
  destruct (start_wires_each_actor_to_its_neighbours example_runner 1 ["orders"] [])
    as (n & pid & _ & Hu & _ & Hall).
  - vm_compute. reflexivity.
  - assert ((RayRunner.start example_runner).1
            = [RayRunner.Remote {| application_name := "orders";
                                   isinstance_concrete := false |} 0;
               RayRunner.Remote {| application_name := "payments";
                                   isinstance_concrete := false |} 0;
               RayRunner.InitRemote 0 [] ["payments"];
               RayRunner.InitRemote 1 ["orders"] [];
               RayRunner.GetInit [0; 1];
               RayRunner.RunRemote 0; RayRunner.RunRemote 1;
               RayRunner.GetRun [0; 1]]) as -> by (vm_compute; reflexivity).
    rewrite !elem_of_cons. auto 10.
  - exists n, pid. split; [exact Hu|]. apply Hall. apply list_elem_of_here.
Defined.

Lemma start_check_covers_init_witness :
  (init ["orders"] ["shipping"]
     (new_RayProcess
        (actor_args example_runner
           {| application_name := "payments"; isinstance_concrete := false |} 0 []))).1
  = Return ().
Proof.
  refine (proj1 (proj2 (start_check_covers_init example_runner
            {| application_name := "payments"; isinstance_concrete := false |} 0 []
            ["orders"] ["shipping"] _)) eq_refl).
  assert ((RayRunner.start example_runner).1
          = [RayRunner.Remote {| application_name := "orders";
                                 isinstance_concrete := false |} 0;
             RayRunner.Remote {| application_name := "payments";
                                 isinstance_concrete := false |} 0;
             RayRunner.InitRemote 0 [] ["payments"];
             RayRunner.InitRemote 1 ["orders"] [];
             RayRunner.GetInit [0; 1];
             RayRunner.RunRemote 0; RayRunner.RunRemote 1;
             RayRunner.GetRun [0; 1]]) as -> by (vm_compute; reflexivity).
  rewrite !elem_of_cons. auto.
Defined.

(** ** The other retried methods *)

(** X20. [run_process] never raises: whatever [_run_process] raises is
    dropped. It calls [process.run] at most 50 times, again only after a
    [RecordConflictError], an [OperationalError] or a [KeyError], and stops
    at the first call that returns or raises anything else; the actor is
    left as the last call left it. Before [init] the only attempt fails on
    the missing attribute and changes nothing. *)
Theorem run_process_retries_and_never_raises
    (process_run : option Prompt → ProcessApplication → outcome () * ProcessApplication)
    (prompt : option Prompt) (a : RayProcess) :
  let body := _run_process_body process_run prompt in
  let '(o, a', calls) := run_process process_run prompt a in
  o = Return () ∧
  1 ≤ calls ≤ 50 ∧
  a' = (body (before_attempt body (calls - 1) a)).2 ∧
  (∀ j, j < calls - 1 →
        ∃ e, (body (before_attempt body j a)).1 = Raise e ∧
             is_run_process_retryable e = true) ∧
  (calls < 50 →
   ∀ e, (body (before_attempt body (calls - 1) a)).1 = Raise e →
        is_run_process_retryable e = false) ∧
  (process a = None → calls = 1 ∧ a' = a).
Proof.
  intros body. unfold run_process, _run_process, retry. fold body.
  destruct (retry_loop_spec is_run_process_retryable body (50 - 1) a)
    as (k & Hk & Hle & Hres & Hpre & Hlast).
  destruct (retry_loop is_run_process_retryable body (50 - 1) a) as [[o a'] calls] eqn:E.
  simpl in Hk, Hres, Hlast. subst calls.
  assert (1 ≤ S k ≤ 50 ∧
          a' = (body (before_attempt body k a)).2 ∧
          (∀ j, j < k → ∃ e, (body (before_attempt body j a)).1 = Raise e ∧
                             is_run_process_retryable e = true) ∧
          (S k < 50 → ∀ e, (body (before_attempt body k a)).1 = Raise e →
                           is_run_process_retryable e = false) ∧
          (process a = None → S k = 1 ∧ a' = a)) as Hall.
  { split; [simpl in Hle; lia|]. split; [by rewrite <- Hres|]. split; [|split].
    - intros j Hj. specialize (Hpre j Hj).
      destruct (body (before_attempt body j a)).1 as [v|e]; simpl in Hpre; [done|].
      by eauto.
    - intros Hlt e He. rewrite <- Hres in He. simpl in He. subst o.
      apply Hlast. simpl in *. lia.
    - intros Hnone.
      assert (body a = (Raise (AttributeError "process"), a)) as Hb.
      { unfold body, _run_process_body. by rewrite Hnone. }
      destruct k as [|k].
      + simpl in Hres. rewrite Hb in Hres. by simplify_eq.
      + specialize (Hpre 0 ltac:(lia)). simpl in Hpre. rewrite Hb in Hpre. done. }
  destruct o as [[]|e]; cbn; replace (k - 0) with k by lia;
    (split; [done|exact Hall]).
Qed.

(** X21. [get_notification_log_section] reads the section at most 10
    times: it returns or raises what its last read did, every earlier read
    having raised [OperationalError]; it stops before the tenth read only on
    a result that is not an [OperationalError], and what the tenth read
    raises is raised, [OperationalError] included. Before [init] the only
    attempt raises [AttributeError] and changes nothing. *)
Theorem get_notification_log_section_retries {section : Type}
    (notification_log_getitem :
       string → ProcessApplication → outcome section * ProcessApplication)
    (section_id : string) (a : RayProcess) :
  let body := get_notification_log_section_body notification_log_getitem section_id in
  let '(o, a', calls) :=
    get_notification_log_section notification_log_getitem section_id a in
  1 ≤ calls ≤ 10 ∧
  (o, a') = body (before_attempt body (calls - 1) a) ∧
  (∀ j, j < calls - 1 →
        ∃ msg, (body (before_attempt body j a)).1 = Raise (OperationalError msg)) ∧
  (calls < 10 → ∀ msg, o ≠ Raise (OperationalError msg)) ∧
  (∀ p, process a = Some p →
        body a = ((notification_log_getitem section_id p).1,
                  set_process (Some (notification_log_getitem section_id p).2) a)) ∧
  (process a = None → calls = 1 ∧ a' = a ∧ o = Raise (AttributeError "process")).
Proof.
  intros body. unfold get_notification_log_section, retry. fold body.
  destruct (retry_loop_spec is_OperationalError body (10 - 1) a)
    as (k & Hk & Hle & Hres & Hpre & Hlast).
  destruct (retry_loop is_OperationalError body (10 - 1) a) as [[o a'] calls] eqn:E.
  simpl in Hk, Hres, Hlast. subst calls. replace (S k - 1) with k by lia.
  split; [simpl in Hle; lia|]. split; [done|]. split; [|split; [|split]].
  - intros j Hj. specialize (Hpre j Hj).
    destruct (body (before_attempt body j a)).1 as [v|[]]; simpl in Hpre; try done.
    by eauto.
  - intros Hlt msg ->. simpl in Hle. assert (k < 10 - 1) as Hk' by (simpl; lia).
    specialize (Hlast Hk'). done.
  - intros p Hp. unfold body, get_notification_log_section_body. rewrite Hp.
    by destruct (notification_log_getitem section_id p).
  - intros Hnone.
    assert (body a = (Raise (AttributeError "process"), a)) as Hb.
    { unfold body, get_notification_log_section_body. by rewrite Hnone. }
    destruct k as [|k].
    + simpl in Hres. rewrite Hb in Hres. by simplify_eq.
    + specialize (Hpre 0 ltac:(lia)). simpl in Hpre. rewrite Hb in Hpre. done.
Qed.

(** ** [RayProcess.follow] *)





(** ** Progress of the Puller and the Processor *)










Lemma puller_same_refl (a : RayProcess) : puller_same a a.
Proof. done. Qed.






















